(** * doctato: the multi-stage LLM orchestration pipeline

    A shallow embedding of the tutorial generator's core:
    - [lib/llm.ts]      the completion gateway [callLlm] and its prompt cache;
    - [app/api/generate-tutorial/route.ts]
                        the retry-validate loop [callLlmWithRetry], the four
                        stage validators and the pipeline driver [POST];
    - [lib/utils.ts]    [sanitizeFilename] and
                        [ensureAllAbstractionsInRelationships].

    Conventions.
    - A JavaScript string is a [string]: a sequence of code units below 256
      (Latin-1 text).  White space is the part of the ECMAScript WhiteSpace
      and LineTerminator classes that lies in that range.
    - A JavaScript number is a [number]: NaN, an infinity or an exact
      rational.  Every finite double is a rational, and the code only
      compares numbers, so the comparisons are exact.
    - The provider behind the gateway is an oracle: a function of the request
      number and the prompt.  The state threads the prompt cache and two
      observation counters (gateway invocations, provider requests).
    - Waiting ([setTimeout]) and logging do not change any value computed and
      are left out. *)

From Stdlib Require Import Ascii String QArith Qround Lqa DecimalString DecimalNat Sorted.
From stdpp Require Import gmap strings list.

Set Warnings "-register-all".

Local Open Scope string_scope.
Local Open Scope list_scope.

(** ** JavaScript strings *)

Module Js.

(** [\s] in a regular expression, [String.prototype.trim] and the prefix
    skipped by [parseInt]: TAB, LF, VT, FF, CR, SPACE and NBSP. *)
Definition isWhiteSpace (c : ascii) : bool :=
  let n := N_of_ascii c in
  ((9 <=? n)%N && (n <=? 13)%N) || (n =? 32)%N || (n =? 160)%N.

Definition isDigit (c : ascii) : bool :=
  let n := N_of_ascii c in (48 <=? n)%N && (n <=? 57)%N.

Definition isUpper (c : ascii) : bool :=
  let n := N_of_ascii c in (65 <=? n)%N && (n <=? 90)%N.

Definition isLower (c : ascii) : bool :=
  let n := N_of_ascii c in (97 <=? n)%N && (n <=? 122)%N.

Definition digitValue (c : ascii) : Z := Z.of_N (N_of_ascii c) - 48.

Definition isEmpty (s : string) : bool :=
  match s with EmptyString => true | String _ _ => false end.

Fixpoint trimStart (s : string) : string :=
  match s with
  | EmptyString => EmptyString
  | String c r => if isWhiteSpace c then trimStart r else s
  end.

Fixpoint trimEnd (s : string) : string :=
  match s with
  | EmptyString => EmptyString
  | String c r =>
      let r' := trimEnd r in
      if isWhiteSpace c && isEmpty r' then EmptyString else String c r'
  end.

(** [s.trim()] *)
Definition trim (s : string) : string := trimEnd (trimStart s).

(** [s.includes(c)] for a one-character needle. *)
Fixpoint includesChar (c : ascii) (s : string) : bool :=
  match s with
  | EmptyString => false
  | String d r => if Ascii.eqb c d then true else includesChar c r
  end.

(** [s.split(c)[0]]: the part of [s] before the first [c]. *)
Fixpoint beforeChar (c : ascii) (s : string) : string :=
  match s with
  | EmptyString => EmptyString
  | String d r => if Ascii.eqb c d then EmptyString else String d (beforeChar c r)
  end.

(** [s.split(sep)[1]] is only used with [|| fallback] by the driver and
    feeds prompt text; it is not modelled. *)

(** [s.startsWith(p)] *)
Fixpoint startsWith (p s : string) : bool :=
  match p, s with
  | EmptyString, _ => true
  | String a p', String b s' => Ascii.eqb a b && startsWith p' s'
  | String _ _, EmptyString => false
  end.

(** [s.includes(p)] *)
Fixpoint includes (p s : string) : bool :=
  if startsWith p s then true
  else match s with
       | EmptyString => false
       | String _ r => includes p r
       end.

(** [s.substring(0, n)] *)
Fixpoint substring0 (n : nat) (s : string) : string :=
  match n, s with
  | O, _ => EmptyString
  | S n', String c r => String c (substring0 n' r)
  | S _, EmptyString => EmptyString
  end.

(** [s.endsWith(p)] *)
Definition endsWith (p s : string) : bool :=
  let ls := String.length s in
  let lp := String.length p in
  (lp <=? ls)%nat && String.eqb (String.substring (ls - lp) lp s) p.

(** The run of decimal digits at the head of [s], read most significant
    digit first into the accumulator, and whether there was any. *)
Fixpoint readDigits (s : string) (acc : Z) (seen : bool) : option Z :=
  match s with
  | String c r =>
      if isDigit c then readDigits r (10 * acc + digitValue c)%Z true
      else if seen then Some acc else None
  | EmptyString => if seen then Some acc else None
  end.

(** [parseInt(s, 10)]: skip leading white space, read an optional sign and
    the longest run of decimal digits; [None] is NaN.  The result is kept
    exact: a run of digits too long for a double is still far above every
    array length it is compared with. *)
Definition parseInt (s : string) : option Z :=
  match trimStart s with
  | String c r =>
      if Ascii.eqb c "-" then option_map Z.opp (readDigits r 0%Z false)
      else if Ascii.eqb c "+" then readDigits r 0%Z false
      else readDigits (String c r) 0%Z false
  | EmptyString => None
  end.

(** [String(n)] for a non-negative integer. *)
Definition ofNat (n : nat) : string := NilZero.string_of_uint (Nat.to_uint n).

(** [String(z)] for an integer. *)
Definition ofZ (z : Z) : string :=
  match z with
  | Zneg p => "-" +:+ ofNat (Pos.to_nat p)
  | _ => ofNat (Z.to_nat z)
  end.

(** [s.padStart(2, '0')] *)
Definition padStart2 (s : string) : string :=
  match String.length s with
  | 0%nat => "00"
  | 1%nat => "0" +:+ s
  | _ => s
  end.

(** [l.join(sep)] *)
Fixpoint join (sep : string) (l : list string) : string :=
  match l with
  | [] => ""
  | [x] => x
  | x :: r => x +:+ sep +:+ join sep r
  end.

(** Canonical form of a code unit under the regular expression flag [i]:
    its upper case, within Latin-1. *)
Definition canonicalize (c : ascii) : ascii :=
  let n := N_of_ascii c in
  if isLower c then ascii_of_N (n - 32)
  else if (224 <=? n)%N && (n <=? 254)%N && negb (n =? 247)%N
       then ascii_of_N (n - 32)
  else c.

Definition eqbIgnoreCase (a b : ascii) : bool :=
  Ascii.eqb (canonicalize a) (canonicalize b).

(** [p] matched literally at the head of [s] under flag [i]; the rest of [s]
    after the match. *)
Fixpoint matchLiteralI (p s : string) : option string :=
  match p, s with
  | EmptyString, _ => Some s
  | String a p', String b s' =>
      if eqbIgnoreCase a b then matchLiteralI p' s' else None
  | String _ _, EmptyString => None
  end.

End Js.


(** ** JavaScript numbers and parsed documents *)

Inductive number : Type :=
| NaN
| Infinity (negative : bool)
| Finite (q : Q).

Module Num.

Definition ofZ (z : Z) : number := Finite (inject_Z z).
Definition ofNat (n : nat) : number := ofZ (Z.of_nat n).

(** The result of [parseInt] as a number. *)
Definition ofParse (r : option Z) : number :=
  match r with Some z => ofZ z | None => NaN end.

Definition isNaN (n : number) : bool :=
  match n with NaN => true | _ => false end.

(** [a < b]; false as soon as one side is NaN. *)
Definition lt (a b : number) : bool :=
  match a, b with
  | Finite x, Finite y => negb (Qle_bool y x)
  | Infinity true, Finite _ => true
  | Infinity true, Infinity false => true
  | Finite _, Infinity false => true
  | _, _ => false
  end.

(** [a >= b]; false as soon as one side is NaN. *)
Definition ge (a b : number) : bool :=
  match a, b with
  | Finite x, Finite y => Qle_bool y x
  | Infinity false, Finite _ => true
  | Infinity false, Infinity _ => true
  | Finite _, Infinity true => true
  | Infinity true, Infinity true => true
  | _, _ => false
  end.

(** SameValueZero, the equality of [Set] and [Map] keys. *)
Definition sameValueZero (a b : number) : bool :=
  match a, b with
  | NaN, NaN => true
  | Infinity s, Infinity t => Bool.eqb s t
  | Finite x, Finite y => Qeq_bool x y
  | _, _ => false
  end.

(** The index an array is read at: [Some i] when the number is the
    non-negative integer [i]; every other number names no element. *)
Definition arrayIndex (n : number) : option nat :=
  match n with
  | Finite q =>
      if (Qeq_bool q (inject_Z (Qfloor q)) && (0 <=? Qfloor q)%Z)%bool
      then Some (Z.to_nat (Qfloor q)) else None
  | _ => None
  end.

End Num.

(** [new Set<number>()]: the members in insertion order. *)
Module NumSet.

Definition has (x : number) (s : list number) : bool :=
  existsb (Num.sameValueZero x) s.

Definition add (x : number) (s : list number) : list number :=
  if has x s then s else s ++ [x].

(** [new Set(l)] *)
Definition ofList (l : list number) : list number :=
  fold_left (fun s x => add x s) l [].

End NumSet.

(** [l.sort((a, b) => a - b)] on finite numbers: ascending order, equal
    numbers keeping their order. *)
Fixpoint insertSorted (x : number) (l : list number) : list number :=
  match l with
  | [] => [x]
  | y :: r => if Num.lt y x || Num.sameValueZero y x
              then y :: insertSorted x r else x :: l
  end.

Definition sortAscending (l : list number) : list number :=
  fold_left (fun acc x => insertSorted x acc) l [].

(** A value produced by [YAML.parse]: a tree of scalars, sequences and
    mappings.  Two places of a document never share one object (YAML
    anchors are left out), so a value is a tree. *)
Inductive value : Type :=
| VNull
| VBool (b : bool)
| VNum (n : number)
| VStr (s : string)
| VArr (items : list value)
| VObj (fields : list (string * value)).

Module Val.

(** [v.k]; [None] is [undefined].  Only mappings carry the properties the
    pipeline reads. *)
Fixpoint lookupField (k : string) (fields : list (string * value)) : option value :=
  match fields with
  | [] => None
  | (k', x) :: r => if String.eqb k k' then Some x else lookupField k r
  end.

Definition get (k : string) (v : value) : option value :=
  match v with
  | VObj fields => lookupField k fields
  | _ => None
  end.

(** [v.k = x] *)
Fixpoint assignField (k : string) (x : value) (fields : list (string * value))
  : list (string * value) :=
  match fields with
  | [] => [(k, x)]
  | (k', y) :: r =>
      if String.eqb k k' then (k, x) :: r else (k', y) :: assignField k x r
  end.

Definition set (k : string) (x : value) (v : value) : value :=
  match v with
  | VObj fields => VObj (assignField k x fields)
  | _ => v
  end.

(** Truthiness of a value, and of a property that may be missing. *)
Definition truthy (v : value) : bool :=
  match v with
  | VNull => false
  | VBool b => b
  | VNum NaN => false
  | VNum (Infinity _) => true
  | VNum (Finite q) => negb (Qeq_bool q 0)
  | VStr s => negb (Js.isEmpty s)
  | VArr _ => true
  | VObj _ => true
  end.

Definition truthyOpt (o : option value) : bool :=
  match o with Some v => truthy v | None => false end.

(** [typeof v === 'object'] *)
Definition isObjectType (v : value) : bool :=
  match v with VNull | VArr _ | VObj _ => true | _ => false end.

(** [a || b] on properties. *)
Definition orElse (a b : option value) : option value :=
  if truthyOpt a then a else b.

End Val.

(** ** What the pipeline takes from outside

    The YAML and JSON libraries, the conversion of values to strings, the
    prompt templates of [lib/prompts.ts] that return a prompt, composed with
    the context strings the driver builds for them, the text of [index.md],
    and the model provider.  The template of the second stage is embedded
    with the driver: it throws at every call. *)

(** What one [model.generateContent] request comes back with, as far as the
    gateway reads it. *)
Record ProviderResponse : Type := {
  promptBlockReason : option string;   (* response.promptFeedback?.blockReason *)
  promptSafetyRatings : string;        (* JSON text of promptFeedback.safetyRatings *)
  finishReason : option string;        (* response.candidates?.[0]?.finishReason *)
  candidateSafetyRatings : string;     (* JSON text of candidates?.[0]?.safetyRatings *)
  responseText : string + string       (* response.text(): inl message when it throws *)
}.

Inductive ProviderOutcome : Type :=
| Rejected (message : option string)
    (* generateContent rejects; error.message *)
| NoResponse (blockReason : option string) (safetyRatings : option string)
    (* result.response is missing; result.promptFeedback *)
| Responded (r : ProviderResponse).

Record Abstraction : Type := {
  name : string;
  description : string;
  files : list number
}.

Record Relationship : Type := {
  from : number;
  to : number;
  label : string
}.

Record ChapterInfo : Type := {
  index : number;   (* original abstraction index *)
  num : nat;        (* sequential chapter number, 1-based *)
  chapterName : string;
  filename : string
}.

Record FileData : Type := {
  path : string;
  content : string
}.

Class Externals : Type := {
  (** [YAML.parse]: [inl message] when it throws. *)
  yamlParse : string -> string + value;
  (** [JSON.stringify] *)
  jsonStringify : value -> string;
  (** [String(n)] for a number. *)
  numberToString : number -> string;
  (** [String(v)] for a sequence or a mapping: [inl message] when the
      conversion throws, as it does for a mapping whose [toString] is not
      callable. *)
  stringOf : value -> string + string;
  (** whether [GEMINI_API_KEY] was set when the module was loaded *)
  clientInitialized : bool;
  (** the provider's answer to its [n]-th request *)
  provider : nat -> string -> ProviderOutcome;
  identifyAbstractionsPrompt :
    string -> list FileData -> string -> string;
  (** [relationshipContext], the text the driver builds for the second
      stage *)
  relationshipContext : list FileData -> list Abstraction -> string;
  orderChaptersPrompt :
    string -> list Abstraction -> string -> list Relationship -> string -> string;
  writeChapterPrompt :
    string -> list FileData -> ChapterInfo -> Abstraction ->
    list ChapterInfo -> string -> string -> string;
  (** the text of [index.md] *)
  indexDocument :
    string -> string -> list Abstraction -> list Relationship ->
    list ChapterInfo -> string
}.

(** [String(v)], and [`${v}`]: [inl message] when the conversion throws. *)
Definition jsString `{Externals} (v : value) : string + string :=
  match v with
  | VStr s => inr s
  | VNum n => inr (numberToString n)
  | VNull => inr "null"
  | VBool b => inr (if b then "true" else "false")
  | VArr _ | VObj _ => stringOf v
  end.

(** [`${o}`] for a property that may be missing. *)
Definition jsStringOpt `{Externals} (o : option value) : string + string :=
  match o with Some v => jsString v | None => inr "undefined" end.

(** ** The completion gateway ([lib/llm.ts]) *)

Record LlmCallResult : Type := {
  success : bool;
  text : option string;
  error : option string
}.

Record LlmState : Type := {
  cache : gmap string string;       (* the module-level prompt cache *)
  gatewayCalls : nat;               (* invocations of callLlm so far *)
  providerRequests : list string    (* prompts sent to the provider, latest last *)
}.

Definition initialState : LlmState :=
  {| cache := ∅; gatewayCalls := 0; providerRequests := [] |}.

Definition llmOk (t : string) : LlmCallResult :=
  {| success := true; text := Some t; error := None |}.

Definition llmError (e : string) : LlmCallResult :=
  {| success := false; text := None; error := Some e |}.

(** [`${o ?? 'Unknown'}`] and [o || fallback] on strings. *)
Definition orString (o : option string) (fallback : string) : string :=
  match o with
  | Some s => if Js.isEmpty s then fallback else s
  | None => fallback
  end.

Definition nonEmptyOpt (o : option string) : option string :=
  match o with
  | Some s => if Js.isEmpty s then None else Some s
  | None => None
  end.

Definition finishedNormally (r : option string) : bool :=
  match r with
  | Some s => String.eqb s "STOP" || String.eqb s "MAX_TOKENS"
  | None => false
  end.

(** What the gateway makes of the provider's answer: the result, and the
    text to cache when there is one. *)
Definition readProvider (o : ProviderOutcome) : LlmCallResult :=
  match o with
  | Rejected message =>
      llmError ("LLM API Error: " +:+ orString message "Unknown error")
  | NoResponse blockReason safetyRatings =>
      llmError ("LLM Error: No response received."
        +:+ match nonEmptyOpt blockReason with
           | Some b => " Block Reason: " +:+ b +:+ "."
           | None => ""
           end
        +:+ match safetyRatings with
           | Some r => " Safety Ratings: " +:+ r
           | None => ""
           end)
  | Responded r =>
      match nonEmptyOpt (promptBlockReason r) with
      | Some b =>
          llmError ("LLM Error: Prompt blocked due to " +:+ b +:+ ". "
                    +:+ promptSafetyRatings r)
      | None =>
          if negb (finishedNormally (finishReason r)) then
            llmError ("LLM Error: Incomplete response. Finish Reason: "
                      +:+ match finishReason r with Some f => f | None => "Unknown" end
                      +:+ ". " +:+ candidateSafetyRatings r)
          else
            match responseText r with
            | inl message =>
                llmError ("LLM API Error: " +:+ orString (Some message) "Unknown error")
            | inr t =>
                if Js.isEmpty t
                then llmError "LLM Error: Received empty response text."
                else llmOk t
            end
      end
  end.

Section Gateway.
Context `{Externals}.

Definition callLlm (prompt : string) (useCache : bool) (st : LlmState)
  : LlmCallResult * LlmState :=
  let st := {| cache := cache st;
               gatewayCalls := S (gatewayCalls st);
               providerRequests := providerRequests st |} in
  if negb clientInitialized then
    (llmError "LLM client not initialized. Check API Key.", st)
  else
    match (if useCache then cache st !! prompt else None) with
    | Some cachedResponse => (llmOk cachedResponse, st)
    | None =>
        let answer := provider (length (providerRequests st)) prompt in
        let result := readProvider answer in
        ( result,
          {| cache := match text result with
                      | Some responseText =>
                          if useCache then <[prompt := responseText]> (cache st)
                          else cache st
                      | None => cache st
                      end;
             gatewayCalls := gatewayCalls st;
             providerRequests := providerRequests st ++ [prompt] |} )
    end.

End Gateway.

(** ** The structured-response extractor and the retry-validate loop
       ([callLlmWithRetry]) *)

Module Fence.

(** The text after the first occurrence of [needle]. *)
Fixpoint afterFirst (needle s : string) : option string :=
  if Js.startsWith needle s
  then Some (String.substring (String.length needle) (String.length s) s)
  else match s with
       | EmptyString => None
       | String _ r => afterFirst needle r
       end.

(** The text before the first occurrence of [needle]. *)
Fixpoint beforeFirst (needle s : string) : option string :=
  if Js.startsWith needle s then Some EmptyString
  else match s with
       | EmptyString => None
       | String c r => option_map (String c) (beforeFirst needle r)
       end.

Definition opening : string := "```yaml".
Definition closing : string := "```".

(** The first capture of [/```yaml\s*([\s\S]*?)\s*```/] in [text].
    The match starts at the first opening fence.  The greedy [\s*] takes all
    the white space after it, the lazy group grows until only white space
    separates it from a closing fence, which is the first one met: the
    capture is the text up to that fence without its trailing white space.
    When no closing fence follows the first opening fence none follows a
    later one either, and there is no match. *)
Definition yamlBlock (text : string) : option string :=
  match afterFirst opening text with
  | None => None
  | Some rest =>
      match beforeFirst closing (Js.trimStart rest) with
      | None => None
      | Some inner => Some (Js.trimEnd inner)
      end
  end.

End Fence.

(** What a validator returns: [true], anything else (rendered as the text
    the loop interpolates), or an exception. *)
Inductive Validation : Type :=
| Accepted
| Refused (reason : string)
| Thrown (message : string).

(** A validator also leaves the parsed object as it mutated it. *)
Definition Validator : Type := value -> Validation * value.

Inductive RetryResult : Type :=
| Success (data : value)
| Failure (error : string).

(** The outcome of one pass through the loop body. *)
Inductive Attempt : Type :=
| Done (data : value)
| Again (lastError : string).

Section RetryLoop.
Context `{Externals}.

(** The prompt factory: [inl message] when it throws. *)
Variable promptGenerator : unit -> string + string.
Variable parser : string -> string + value.
Variable validator : Validator.
Variable useCache : bool.

(** The inner [try] block: the fenced block of the response, parsed.
    [inl] is the message of the error thrown. *)
Definition extractBlock (responseText : string) : string + value :=
  match Fence.yamlBlock responseText with
  | Some block =>
      if Js.isEmpty block
      then inl "Could not find YAML block in LLM response."
      else parser block
  | None => inl "Could not find YAML block in LLM response."
  end.

Definition parseFailure (message responseText : string) : string :=
  "Failed to parse LLM response: " +:+ message +:+ ". Response:
" +:+ Js.substring0 500 responseText +:+ "...".

Definition validationFailure (reason : string) (parsedData : value) : string :=
  "LLM response validation failed: " +:+ reason +:+ ". Parsed:
" +:+ Js.substring0 500 (jsonStringify parsedData) +:+ "...".

(** What the outer [catch] records at attempt [i] (counted from 0). *)
Definition interactionError (i : nat) (message : string) : string :=
  "Error during LLM interaction (attempt " +:+ Js.ofNat (i + 1) +:+ "): " +:+ message.

(** The extraction and validation of a response text, at attempt [i]. *)
Definition examine (i : nat) (responseText : string) : Attempt :=
  match extractBlock responseText with
  | inl message => Again (parseFailure message responseText)
  | inr parsedData =>
      match validator parsedData with
      | (Accepted, parsedData') => Done parsedData'
      | (Refused reason, parsedData') =>
          Again (validationFailure reason parsedData')
      | (Thrown message, _) => Again (interactionError i message)
      end
  end.

(** [llmResult.success && llmResult.text]: the text the loop goes on
    with. *)
Definition usableText (llmResult : LlmCallResult) : option string :=
  if success llmResult then nonEmptyOpt (text llmResult) else None.

(** The loop body after the gateway call. *)
Definition afterGateway (i : nat) (llmResult : LlmCallResult) : Attempt :=
  match usableText llmResult with
  | None => Again (orString (error llmResult) "LLM call failed to return text.")
  | Some responseText => examine i responseText
  end.

(** One pass through the body of the [for] loop.  A factory that throws
    is caught by the outer [catch] before the gateway is called. *)
Definition attempt (i : nat) (st : LlmState) : Attempt * LlmState :=
  match promptGenerator tt with
  | inl message => (Again (interactionError i message), st)
  | inr prompt =>
      let '(llmResult, st') := callLlm prompt useCache st in
      (afterGateway i llmResult, st')
  end.

(** The loop with [n] passes left, the next one being pass [i]. *)
Fixpoint retryFrom (n i : nat) (lastError : string) (st : LlmState)
  : RetryResult * LlmState :=
  match n with
  | O => (Failure lastError, st)
  | S n' =>
      match attempt i st with
      | (Done data, st') => (Success data, st')
      | (Again e, st') => retryFrom n' (S i) e st'
      end
  end.

Definition callLlmWithRetry (maxRetries : nat) (st : LlmState)
  : RetryResult * LlmState :=
  retryFrom maxRetries 0 "Failed after multiple retries." st.

End RetryLoop.

(** ** The stage validators ([POST], stages 2 to 5) *)

(** How a part of a validator ends: with a result, with a reason returned,
    or with an exception. *)
Inductive Check (A : Type) : Type :=
| Passes (result : A)
| Refuses (reason : string)
| Throws (message : string).
Arguments Passes {A} result.
Arguments Refuses {A} reason.
Arguments Throws {A} message.

Section Validators.
Context `{Externals}.

(** The index a list entry stands for (file indices, chapter order): a
    number as it is, a string ["<int> # <comment>"] by the integer before
    the [#], anything else by [parseInt] of its text; [inl message] when
    [String(entry)] throws. *)
Definition entryIndex (entry : value) : string + number :=
  match entry with
  | VNum n => inr n
  | VStr s =>
      if Js.includesChar "#" s
      then inr (Num.ofParse (Js.parseInt (Js.trim (Js.beforeChar "#" s))))
      else inr (Num.ofParse (Js.parseInt (Js.trim s)))
  | _ =>
      match jsString entry with
      | inl message => inl message
      | inr s => inr (Num.ofParse (Js.parseInt (Js.trim s)))
      end
  end.

(** [isNaN(idx) || idx < 0 || idx >= len] *)
Definition outOfRange (idx : number) (len : nat) : bool :=
  Num.isNaN idx || Num.lt idx (Num.ofNat 0) || Num.ge idx (Num.ofNat len).

(** [abstractions.map((_, i) => i).filter(i => !set.has(i))] *)
Definition missingFrom (count : nat) (set : list number) : list nat :=
  List.filter (fun i => negb (NumSet.has (Num.ofNat i) set)) (seq 0 count).

(** *** Abstraction discovery *)

(** The loop over the entries of an item.  When [String(idxEntry)] throws,
    the [catch] interpolates [idxEntry] in its message and throws again. *)
Fixpoint collectFileIndices (fileCount : nat) (itemName : string)
    (entries : list value) (indices : list number) : Check (list number) :=
  match entries with
  | [] => Passes indices
  | idxEntry :: rest =>
      match entryIndex idxEntry with
      | inl message => Throws message
      | inr idx =>
          if outOfRange idx fileCount then
            match jsString idxEntry with
            | inl message => Throws message
            | inr shown =>
                Refuses ("Invalid file index " +:+ shown +:+ " in item " +:+ itemName
                         +:+ ". Max index is " +:+ Js.ofZ (Z.of_nat fileCount - 1) +:+ ".")
            end
          else collectFileIndices fileCount itemName rest (indices ++ [idx])
      end
  end.

(** The body of the loop over the items: the reason the item is refused
    for, or the item with its [files] stored. *)
Definition checkAbstraction (fileCount : nat) (item : value) : Check value :=
  if negb (Val.truthy item) || negb (Val.isObjectType item)
     || negb (Val.truthyOpt (Val.get "name" item))
     || negb (Val.truthyOpt (Val.get "description" item))
  then Refuses ("Invalid item structure: " +:+ Js.substring0 100 (jsonStringify item))
  else
    match Val.get "name" item, Val.get "description" item with
    | Some (VStr itemName), Some (VStr _) =>
        match Val.orElse (Val.get "file_indices" item) (Val.get "files" item) with
        | Some (VArr fileIndices) =>
            match collectFileIndices fileCount itemName fileIndices [] with
            | Passes indices =>
                Passes (Val.set "files"
                          (VArr (map VNum (sortAscending (NumSet.ofList indices))))
                          item)
            | Refuses reason => Refuses reason
            | Throws message => Throws message
            end
        | _ => Refuses ("Missing or invalid file indices in item: " +:+ itemName)
        end
    | _, _ =>
        match jsStringOpt (Val.get "name" item) with
        | inl message => Throws message
        | inr shown => Refuses ("Invalid types in item: " +:+ shown)
        end
    end.

(** The loop over the items; an item refused leaves it and the items after
    it as they were. *)
Fixpoint checkAbstractions (fileCount : nat) (items : list value)
  : Validation * list value :=
  match items with
  | [] => (Accepted, [])
  | item :: rest =>
      match checkAbstraction fileCount item with
      | Refuses reason => (Refused reason, items)
      | Throws message => (Thrown message, items)
      | Passes item' =>
          let '(r, rest') := checkAbstractions fileCount rest in
          (r, item' :: rest')
      end
  end.

Definition abstractionsValidator (fileCount : nat) : Validator :=
  fun parsed =>
    match parsed with
    | VArr items =>
        let '(r, items') := checkAbstractions fileCount items in
        (r, VArr items')
    | _ => (Refused "Expected a list of abstractions.", parsed)
    end.

(** *** Relationship inference *)

(** [typeof x === 'number' ? x : parseInt(String(x).split('#')[0].trim(), 10)];
    [inl message] when [String(x)] throws. *)
Definition endpointIndex (x : value) : string + number :=
  match x with
  | VNum n => inr n
  | _ =>
      match jsString x with
      | inl message => inl message
      | inr s => inr (Num.ofParse (Js.parseInt (Js.trim (Js.beforeChar "#" s))))
      end
  end.

(** [rel.from_abstraction !== undefined ? rel.from_abstraction : rel.from] *)
Definition firstDefined (a b : option value) : option value :=
  match a with Some _ => a | None => b end.

(** What the [catch] around the two conversions returns. *)
Definition couldNotParse (rel : value) : string :=
  "Could not parse indices from relationship: "
  +:+ Js.substring0 100 (jsonStringify rel).

(** The body of the loop over the edges: the reason the edge is refused
    for, or the edge with [from] and [to] stored and the two indices. *)
Definition checkRelationship (count : nat) (rel : value)
  : string + (value * number * number) :=
  if negb (Val.truthy rel) || negb (Val.isObjectType rel) then
    inl ("Invalid relationship item structure: "
         +:+ Js.substring0 100 (jsonStringify rel))
  else
    let fromAbstraction := firstDefined (Val.get "from_abstraction" rel) (Val.get "from" rel) in
    let toAbstraction := firstDefined (Val.get "to_abstraction" rel) (Val.get "to" rel) in
    match fromAbstraction, toAbstraction, Val.get "label" rel with
    | Some f, Some t, Some (VStr _) =>
        match endpointIndex f, endpointIndex t with
        | inr fromIdx, inr toIdx =>
            if Num.isNaN fromIdx || Num.isNaN toIdx
               || Num.lt fromIdx (Num.ofNat 0) || Num.ge fromIdx (Num.ofNat count)
               || Num.lt toIdx (Num.ofNat 0) || Num.ge toIdx (Num.ofNat count)
            then
              match jsString f, jsString t with
              | inr shownFrom, inr shownTo =>
                  inl ("Invalid index in relationship: from=" +:+ shownFrom
                       +:+ ", to=" +:+ shownTo)
              | _, _ => inl (couldNotParse rel)
              end
            else inr (Val.set "to" (VNum toIdx) (Val.set "from" (VNum fromIdx) rel),
                      fromIdx, toIdx)
        | _, _ => inl (couldNotParse rel)
        end
    | _, _, _ =>
        inl ("Missing relationship properties in: "
             +:+ Js.substring0 100 (jsonStringify rel))
    end.

(** The loop over the edges, threading [mentionedIndices]. *)
Fixpoint checkRelationships (count : nat) (rels : list value)
    (mentionedIndices : list number) : (string + list number) * list value :=
  match rels with
  | [] => (inr mentionedIndices, [])
  | rel :: rest =>
      match checkRelationship count rel with
      | inl reason => (inl reason, rels)
      | inr (rel', fromIdx, toIdx) =>
          let '(r, rest') :=
            checkRelationships count rest
              (NumSet.add toIdx (NumSet.add fromIdx mentionedIndices)) in
          (r, rel' :: rest')
      end
  end.

Definition missingMessage (missing : list nat) : string :=
  "Validation Error: Not all abstractions are included in relationships. Missing: "
  +:+ Js.join ", " (map Js.ofNat missing)
  +:+ ". Please ensure every abstraction index appears at least once.".

(** The test after the loop: [mentionedIndices.size !== abstractions.length]. *)
Definition coverageVerdict (count : nat) (mentionedIndices : list number) : Validation :=
  if negb (length mentionedIndices =? count)%nat
  then Refused (missingMessage (missingFrom count mentionedIndices))
  else Accepted.

(** [count] is [abstractions.length].  [details] and [relationships] are
    made one array, so both show what the loop stored in the edges. *)
Definition relationshipsValidator (count : nat) : Validator :=
  fun parsed =>
    let summaryIsString :=
      match Val.get "summary" parsed with Some (VStr _) => true | _ => false end in
    if negb (Val.truthy parsed) || negb (Val.isObjectType parsed)
       || negb summaryIsString
    then (Refused "Invalid structure: Expected summary (string)", parsed)
    else if negb (Val.truthyOpt (Val.get "relationships" parsed))
            && negb (Val.truthyOpt (Val.get "details" parsed))
    then (Refused "Invalid structure: Expected relationships or details array", parsed)
    else
      match Val.orElse (Val.get "details" parsed) (Val.get "relationships" parsed) with
      | Some (VArr relArray) =>
          let '(r, relArray') := checkRelationships count relArray [] in
          let parsed' :=
            Val.set "relationships" (VArr relArray')
              (Val.set "details" (VArr relArray') parsed) in
          match r with
          | inl reason => (Refused reason, parsed')
          | inr mentionedIndices => (coverageVerdict count mentionedIndices, parsed')
          end
      | _ => (Refused "Invalid structure: Could not find valid relationships array", parsed)
      end.

(** *** Chapter ordering *)

(** The loop over the entries.  As in the discovery validator, the [catch]
    interpolates the entry whose conversion threw, and throws again. *)
Fixpoint checkOrder (count : nat) (entries : list value)
    (seenIndices orderedIndices : list number)
  : Check (list number * list number) :=
  match entries with
  | [] => Passes (seenIndices, orderedIndices)
  | entry :: rest =>
      match entryIndex entry with
      | inl message => Throws message
      | inr idx =>
          if outOfRange idx count then
            match jsString entry with
            | inl message => Throws message
            | inr shown =>
                Refuses ("Invalid index " +:+ shown +:+ " in ordered list. Max index is "
                         +:+ Js.ofZ (Z.of_nat count - 1) +:+ ".")
            end
          else if NumSet.has idx seenIndices then
            Refuses ("Duplicate index " +:+ numberToString idx
                     +:+ " found in ordered list.")
          else checkOrder count rest (NumSet.add idx seenIndices) (orderedIndices ++ [idx])
      end
  end.

Definition orderValidator (count : nat) : Validator :=
  fun parsed =>
    match parsed with
    | VArr entries =>
        match checkOrder count entries [] [] with
        | Refuses reason => (Refused reason, parsed)
        | Throws message => (Thrown message, parsed)
        | Passes (seenIndices, orderedIndices) =>
            if negb (length orderedIndices =? count)%nat then
              (Refused ("Ordered list length (" +:+ Js.ofNat (length orderedIndices)
                        +:+ ") doesn't match abstraction count (" +:+ Js.ofNat count
                        +:+ "). Missing: "
                        +:+ Js.join "," (map Js.ofNat (missingFrom count seenIndices))),
               parsed)
            else (Accepted, parsed)
        end
    | _ => (Refused "Expected a list for chapter order.", parsed)
    end.

(** *** Chapter authoring *)

Definition isSeparator (c : ascii) : bool :=
  Js.isWhiteSpace c || Ascii.eqb c ":".

(** [[\s:]*] followed by the chapter name, at the head of [s]: some run of
    separators is followed by the name. *)
Fixpoint separatorsThenName (chapterName s : string) : bool :=
  match Js.matchLiteralI chapterName s with
  | Some _ => true
  | None =>
      match s with
      | String c r => if isSeparator c then separatorsThenName chapterName r else false
      | EmptyString => false
      end
  end.

(** Whether [s] matches
    [new RegExp(`^#\\s*Chapter\\s+${num}[\\s:]*${escaped name}`, 'i')].
    The name is escaped character by character, so it stands for itself. *)
Definition headingMatches (chapterNum : nat) (chapterName s : string) : bool :=
  match s with
  | String hash r =>
      if Ascii.eqb hash "#" then
        match Js.matchLiteralI "Chapter" (Js.trimStart r) with
        | Some (String c r') =>
            if Js.isWhiteSpace c then
              match Js.matchLiteralI (Js.ofNat chapterNum) (Js.trimStart r') with
              | Some r'' => separatorsThenName chapterName r''
              | None => false
              end
            else false
        | _ => false
        end
      else false
  | EmptyString => false
  end.

Definition expectedHeading (chapterNum : nat) (chapterName : string) : string :=
  "# Chapter " +:+ Js.ofNat chapterNum +:+ ": " +:+ chapterName.

(** The value of the validator's parameter [parsed] when it returns
    [true]. *)
Definition repairedChapter (chapterNum : nat) (chapterName parsed : string) : string :=
  if negb (headingMatches chapterNum chapterName (Js.trim parsed))
  then expectedHeading chapterNum chapterName +:+ "

" +:+ Js.trim parsed
  else parsed.

(** The validator assigns the repaired text to its own parameter.  A string
    is not an object: the caller's [parsedData] keeps the text it had. *)
Definition chapterValidator (chapterNum : nat) (chapterName : string) : Validator :=
  fun parsedData =>
    match parsedData with
    | VStr parsed =>
        if (String.length parsed <? 10)%nat
        then (Refused "Chapter content seems too short or invalid.", parsedData)
        else
          let parsed := repairedChapter chapterNum chapterName parsed in
          (Accepted, parsedData)
    | _ => (Refused "Chapter content seems too short or invalid.", parsedData)
    end.

End Validators.

(** ** [lib/utils.ts] *)

Module Sanitize.

(** [[a-zA-Z0-9_.-]] *)
Definition isKept (c : ascii) : bool :=
  Js.isLower c || Js.isUpper c || Js.isDigit c
  || Ascii.eqb c "_" || Ascii.eqb c "." || Ascii.eqb c "-".

(** [[_.-]] *)
Definition isEdge (c : ascii) : bool :=
  Ascii.eqb c "_" || Ascii.eqb c "." || Ascii.eqb c "-".

(** [name.replace(/[^a-zA-Z0-9_.-]/g, '_')] *)
Fixpoint replaceOthers (s : string) : string :=
  match s with
  | EmptyString => EmptyString
  | String c r => String (if isKept c then c else "_"%char) (replaceOthers r)
  end.

Fixpoint stripLeading (s : string) : string :=
  match s with
  | EmptyString => EmptyString
  | String c r => if isEdge c then stripLeading r else s
  end.

Fixpoint stripTrailing (s : string) : string :=
  match s with
  | EmptyString => EmptyString
  | String c r =>
      let r' := stripTrailing r in
      if isEdge c && Js.isEmpty r' then EmptyString else String c r'
  end.

(** [s.replace(/^[_.-]+|[_.-]+$/g, '')]: the run of edge characters at the
    start and the one at the end are removed. *)
Definition stripEdges (s : string) : string := stripTrailing (stripLeading s).

(** [s.replace(/__+/g, '_')]: a run of underscores becomes one. *)
Fixpoint collapseUnderscores (s : string) : string :=
  match s with
  | EmptyString => EmptyString
  | String c r =>
      let r' := collapseUnderscores r in
      if Ascii.eqb c "_" && Js.startsWith "_" r' then r' else String c r'
  end.

End Sanitize.

Definition sanitizeFilename (fileName : string) : string :=
  if Js.isEmpty fileName then "untitled"
  else Sanitize.collapseUnderscores (Sanitize.stripEdges (Sanitize.replaceOthers fileName)).

Record RelationshipData : Type := {
  summary : string;
  details : list Relationship;
  relationships : option (list Relationship)
}.

(** The set of indices that the edges mention as [from] or [to]. *)
Definition mentionedIn (edges : list Relationship) : list number :=
  fold_left (fun mentionedIndices rel =>
               NumSet.add (to rel) (NumSet.add (from rel) mentionedIndices))
            edges [].

Definition relatedTo (missingIndex : nat) : Relationship :=
  {| from := Num.ofNat 0; to := Num.ofNat missingIndex; label := "Related to" |}.

(** [missing.forEach(...)]: the new edges pushed on both arrays. *)
Definition pushMissing (updatedRelationships : RelationshipData) (missing : list nat)
  : RelationshipData :=
  fold_left
    (fun updated missingIndex =>
       let newRelationship := relatedTo missingIndex in
       {| summary := summary updated;
          details := details updated ++ [newRelationship];
          relationships :=
            match relationships updated with
            | Some l => Some (l ++ [newRelationship])
            | None => None
            end |})
    missing updatedRelationships.

Definition ensureAllAbstractionsInRelationships
    (rels : RelationshipData) (abstractions : list Abstraction) : RelationshipData :=
  let mentionedIndices := mentionedIn (details rels) in
  let missing := missingFrom (length abstractions) mentionedIndices in
  if (length missing =? 0)%nat then rels
  else
    let updatedRelationships :=
      {| summary := summary rels;
         details := details rels;
         relationships :=
           Some (match relationships rels with
                 | Some l => l
                 | None => details rels
                 end) |} in
    pushMissing updatedRelationships missing.

(** ** The pipeline driver ([POST], from the fetched files on) *)

Inductive Response : Type :=
| JsonError (status : nat) (error : string)
| ZipArchive (zipFileName : string) (entries : gmap string string).

Definition attribution : string :=
  "---

Generated by [AI Codebase Knowledge Builder](https://github.com/The-Pocket/Tutorial-Codebase-Knowledge)".

(** The typed view of accepted data ([const abstractions: Abstraction[] =
    abstractionsResult.data] and the like). *)
Definition asString (o : option value) : string :=
  match o with Some (VStr s) => s | _ => "" end.

Definition asNumber (v : value) : number :=
  match v with VNum n => n | _ => NaN end.

Definition asNumbers (o : option value) : list number :=
  match o with Some (VArr l) => map asNumber l | _ => [] end.

Definition asAbstraction (item : value) : Abstraction :=
  {| name := asString (Val.get "name" item);
     description := asString (Val.get "description" item);
     files := asNumbers (Val.get "files" item) |}.

Definition asRelationship (rel : value) : Relationship :=
  {| from := match Val.get "from" rel with Some v => asNumber v | None => NaN end;
     to := match Val.get "to" rel with Some v => asNumber v | None => NaN end;
     label := asString (Val.get "label" rel) |}.

Definition asRelationships (o : option value) : list Relationship :=
  match o with Some (VArr l) => map asRelationship l | _ => [] end.

(** [entries.map(entry => ...)] with the conversion of the validators:
    the indices, or the message of the first conversion that throws. *)
Fixpoint entryIndices `{Externals} (entries : list value) : string + list number :=
  match entries with
  | [] => inr []
  | entry :: rest =>
      match entryIndex entry with
      | inl message => inl message
      | inr idx =>
          match entryIndices rest with
          | inl message => inl message
          | inr indices => inr (idx :: indices)
          end
      end
  end.

Section Driver.
Context `{Externals}.

Variable projectName : string.
Variable language : string.
Variable fetchedFiles : list FileData.

(** [!result.success || !result.data]: the error to report, or the data. *)
Definition stageData (r : RetryResult) : string + value :=
  match r with
  | Failure e => inl e
  | Success data => if Val.truthy data then inr data else inl "undefined"
  end.

Definition discover (st : LlmState) : RetryResult * LlmState :=
  callLlmWithRetry
    (fun _ => inr (identifyAbstractionsPrompt projectName fetchedFiles language))
    yamlParse
    (abstractionsValidator (length fetchedFiles))
    true 3 st.

(** [abstractionInfoForPrompt.join('\n')] *)
Definition abstractionListing (abstractions : list Abstraction) : string :=
  Js.join "
" (imap (fun i a => Js.ofNat i +:+ " # " +:+ name a) abstractions).

(** [getAnalyzeRelationshipsPrompt] ([lib/prompts.ts], which the sources
    keep in the file [lib/utils.ts]).  Its template interpolates
    [list_lang_note], a name that is declared nowhere (the constant above it
    is [listLangNote]): evaluating the template throws a ReferenceError, at
    every call. *)
Definition getAnalyzeRelationshipsPrompt
    (projectName abstractionListing context language : string) : string + string :=
  inl "list_lang_note is not defined".

Definition infer (abstractions : list Abstraction) (st : LlmState)
  : RetryResult * LlmState :=
  callLlmWithRetry
    (fun _ => getAnalyzeRelationshipsPrompt projectName
                (abstractionListing abstractions)
                (relationshipContext fetchedFiles abstractions) language)
    yamlParse
    (relationshipsValidator (length abstractions))
    true 3 st.

Definition order (abstractions : list Abstraction) (summaryText : string)
    (edges : list Relationship) (st : LlmState) : RetryResult * LlmState :=
  callLlmWithRetry
    (fun _ => inr (orderChaptersPrompt projectName abstractions summaryText edges
                     language))
    yamlParse
    (orderValidator (length abstractions))
    true 3 st.

(** First pass: the filenames and the listing, before any chapter is
    written.  [i] is the position in the chapter order. *)
Definition chapterFilename (chapterNum : nat) (title : string) : string :=
  let sanitized := sanitizeFilename title in
  let safeName :=
    if Js.isEmpty sanitized then "chapter_" +:+ Js.ofNat chapterNum else sanitized in
  Js.padStart2 (Js.ofNat chapterNum) +:+ "_" +:+ safeName +:+ ".md".

Fixpoint chapterFileInfos (abstractions : list Abstraction)
    (chapterOrder : list number) (i : nat) (infos : list ChapterInfo)
  : string + list ChapterInfo :=
  match chapterOrder with
  | [] => inr infos
  | absIndex :: rest =>
      if Num.ge absIndex (Num.ofNat 0)
         && Num.lt absIndex (Num.ofNat (length abstractions))
      then
        let chapterNum := (i + 1)%nat in
        match Num.arrayIndex absIndex ≫= (fun k => abstractions !! k) with
        | None => inl "Cannot read properties of undefined (reading 'name')"
        | Some a =>
            chapterFileInfos abstractions rest (S i)
              (infos ++ [ {| index := absIndex; num := chapterNum;
                             chapterName := name a;
                             filename := chapterFilename chapterNum (name a) |} ])
        end
      else chapterFileInfos abstractions rest (S i) infos
  end.

Definition writeChapter (abstractions : list Abstraction)
    (allInfos : list ChapterInfo) (previousChaptersSummary : string)
    (info : ChapterInfo) (a : Abstraction) (st : LlmState)
  : RetryResult * LlmState :=
  callLlmWithRetry
    (fun _ => inr (writeChapterPrompt projectName fetchedFiles info a allInfos
                     previousChaptersSummary language))
    (fun chapterText => inr (VStr chapterText))
    (chapterValidator (num info) (chapterName info))
    false 3 st.

Definition withAttribution (chapter : string) : string :=
  (if Js.endsWith "

" chapter then chapter else chapter +:+ "

") +:+ attribution.

(** Second pass: the chapters, one after the other; each prompt carries
    the chapters written before.  [inl] is the response the run ends
    with, [inr] the two variables of the loop, [chapterContents] and
    [previousChaptersSummary], when it is over. *)
Fixpoint writeChapters (abstractions : list Abstraction)
    (allInfos todo : list ChapterInfo) (previousChaptersSummary : string)
    (chapterContents : list string) (st : LlmState)
  : (Response + list string * string) * LlmState :=
  match todo with
  | [] => (inr (chapterContents, previousChaptersSummary), st)
  | info :: rest =>
      match Num.arrayIndex (index info) ≫= (fun k => abstractions !! k) with
      | None =>
          (inl (JsonError 500
             "Server error: Cannot read properties of undefined (reading 'files')"), st)
      | Some a =>
          let '(r, st') :=
            writeChapter abstractions allInfos previousChaptersSummary info a st in
          match stageData r with
          | inl e =>
              (inl (JsonError 500
                 ("Failed to write chapter " +:+ Js.ofNat (num info) +:+ " ("
                  +:+ chapterName info +:+ "): " +:+ e)), st')
          | inr (VStr chapter) =>
              let finalChapterContent := withAttribution chapter in
              writeChapters abstractions allInfos rest
                (previousChaptersSummary +:+ "

---

" +:+ finalChapterContent)
                (chapterContents ++ [finalChapterContent]) st'
          | inr _ =>
              (inl (JsonError 500
                 "Server error: finalChapterContent.endsWith is not a function"), st')
          end
      end
  end.

(** [zip.file(info.filename, chapterContents[i])] for every [i] below both
    lengths; a later file replaces an earlier one of the same name. *)
Fixpoint addChapterFiles (infos : list ChapterInfo) (chapterContents : list string)
    (zip : gmap string string) : gmap string string :=
  match infos, chapterContents with
  | info :: infos', chapter :: rest =>
      addChapterFiles infos' rest (<[filename info := chapter]> zip)
  | _, _ => zip
  end.

Definition afterOrdering (abstractions : list Abstraction) (summaryText : string)
    (edges : list Relationship) (orderData : value) (st : LlmState)
  : Response * LlmState :=
  match orderData with
  | VArr entries =>
      match entryIndices entries with
      | inl message =>
          (JsonError 500 ("Server error: " +:+ orString (Some message)
                                                 "Unknown server error"), st)
      | inr chapterOrder =>
      match chapterFileInfos abstractions chapterOrder 0 [] with
      | inl message => (JsonError 500 ("Server error: " +:+ message), st)
      | inr infos =>
          match writeChapters abstractions infos infos "" [] st with
          | (inl response, st') => (response, st')
          | (inr (chapterContents, _), st') =>
              let indexContent :=
                indexDocument projectName summaryText abstractions edges infos in
              let zip :=
                addChapterFiles infos chapterContents
                  (<["index.md" := indexContent]> ∅) in
              (ZipArchive (sanitizeFilename projectName +:+ "_tutorial.zip") zip, st')
          end
      end
      end
  | _ => (JsonError 500 "Server error: orderResult.data.map is not a function", st)
  end.

Definition afterInference (abstractions : list Abstraction)
    (relationshipData : value) (st : LlmState) : Response * LlmState :=
  let summaryText := asString (Val.get "summary" relationshipData) in
  let edges := asRelationships (Val.get "details" relationshipData) in
  let '(r, st') := order abstractions summaryText edges st in
  match stageData r with
  | inl e => (JsonError 500 ("Failed to order chapters: " +:+ e), st')
  | inr orderData => afterOrdering abstractions summaryText edges orderData st'
  end.

Definition afterDiscovery (abstractionData : value) (st : LlmState)
  : Response * LlmState :=
  match abstractionData with
  | VArr items =>
      let abstractions := map asAbstraction items in
      let '(r, st') := infer abstractions st in
      match stageData r with
      | inl e => (JsonError 500 ("Failed to analyze relationships: " +:+ e), st')
      | inr relationshipData => afterInference abstractions relationshipData st'
      end
  | _ => (JsonError 500 "Invalid abstractions data: expected an array", st)
  end.

(** The run, from the fetched files to the response. *)
Definition generateTutorial (st : LlmState) : Response * LlmState :=
  let '(r, st') := discover st in
  match stageData r with
  | inl e => (JsonError 500 ("Failed to identify abstractions: " +:+ e), st')
  | inr abstractionData => afterDiscovery abstractionData st'
  end.

End Driver.

(** ** Scripted surroundings

    A provider that answers its requests from a list, with a fixed parser;
    used to run the pipeline on concrete inputs. *)

Definition answerText (t : string) : ProviderOutcome :=
  Responded {| promptBlockReason := None; promptSafetyRatings := "undefined";
               finishReason := Some "STOP"; candidateSafetyRatings := "undefined";
               responseText := inr t |}.

(** [String(v)] on sequences and mappings, as far as the examples need it:
    a mapping with a property [toString] cannot be converted (no parsed
    value is callable). *)
Definition convert (v : value) : string + string :=
  match v with
  | VObj fields =>
      match Val.lookupField "toString" fields with
      | Some _ => inl "Cannot convert object to primitive value"
      | None => inr "[object Object]"
      end
  | _ => inr "<value>"
  end.

Definition scripted (parse : string -> string + value)
    (answers : list ProviderOutcome) : Externals :=
  {| yamlParse := parse;
     jsonStringify := fun _ => "<json>";
     numberToString := fun _ => "<number>";
     stringOf := convert;
     clientInitialized := true;
     provider := fun n _ => nth n answers (Rejected (Some "no answer scripted"));
     identifyAbstractionsPrompt := fun _ _ _ => "identify abstractions";
     relationshipContext := fun _ _ => "relationship context";
     orderChaptersPrompt := fun _ _ _ _ _ => "order chapters";
     writeChapterPrompt := fun _ _ info _ _ _ _ => "write chapter " +:+ Js.ofNat (num info);
     indexDocument := fun _ _ _ _ _ => "<index>" |}.

(** The state with [k] more gateway invocations counted. *)
Definition withCalls (st : LlmState) (k : nat) : LlmState :=
  {| cache := cache st;
     gatewayCalls := gatewayCalls st + k;
     providerRequests := providerRequests st |}.

Definition oneAnswer : Externals :=
  scripted (fun s => inr (VStr s)) [answerText "an answer"].

(** A provider whose first answer carries a fenced block and whose second
    request is rejected; a validator that refuses everything. *)
Definition answerThenQuota : Externals :=
  scripted (fun s => inr (VStr s))
    [answerText "```yaml
some data
```"; Rejected (Some "quota exceeded")].

Definition refuseAll : Validator := fun v => (Refused "bad", v).

(** A provider whose answer never parses. *)
Definition unparsable : Externals :=
  scripted (fun _ => inl "bad indentation")
    [answerText "```yaml
a: [
```"].

(** ** Statements about one attempt *)

Section AttemptSpec.
Context `{Externals}.

(** What an attempt records when its validator refuses: [e] is the error
    left by an attempt whose gateway call returned [llmResult]. *)
Definition recordedAfter (parser : string -> string + value) (validator : Validator)
    (llmResult : LlmCallResult) (e : string) : Prop :=
  match usableText llmResult with
  | None => e = orString (error llmResult) "LLM call failed to return text."
  | Some responseText =>
      match extractBlock parser responseText with
      | inl message => e = parseFailure message responseText
      | inr parsedData =>
          exists reason parsedData',
            validator parsedData = (Refused reason, parsedData') /\
            e = validationFailure reason parsedData'
      end
  end.

(** Why an attempt whose gateway call returned the text [t] did not end
    the loop.  The cause is a function of the text alone. *)
Inductive Cause : Type :=
| EmptyText
| ExtractionFailed (message : string)
| ValidationRefused (reason : string) (parsedData : value)
| ValidatorThrew (message : string).

Definition causeOf (parser : string -> string + value) (validator : Validator)
    (t : string) : option Cause :=
  if Js.isEmpty t then Some EmptyText
  else
    match extractBlock parser t with
    | inl message => Some (ExtractionFailed message)
    | inr parsedData =>
        match validator parsedData with
        | (Accepted, _) => None
        | (Refused reason, parsedData') => Some (ValidationRefused reason parsedData')
        | (Thrown message, _) => Some (ValidatorThrew message)
        end
    end.

(** The reason that attempt [i] records for the cause: only the message
    for an exception carries the number of the attempt. *)
Definition recorded (cause : Cause) (t : string) (i : nat) : string :=
  match cause with
  | EmptyText => "LLM call failed to return text."
  | ExtractionFailed message => parseFailure message t
  | ValidationRefused reason parsedData => validationFailure reason parsedData
  | ValidatorThrew message => interactionError i message
  end.

(** The response failed extraction or validation. *)
Definition failedChecks (cause : Cause) : Prop :=
  match cause with
  | ExtractionFailed _ | ValidationRefused _ _ => True
  | EmptyText | ValidatorThrew _ => False
  end.

End AttemptSpec.

(** A validator that throws on whatever it is given. *)
Definition throwAll : Validator :=
  fun v => (Thrown "Cannot convert object to primitive value", v).

(** ** Parsed documents used in the examples *)

Definition plain : Externals := scripted (fun s => inr (VStr s)) [].

Definition int (z : Z) : value := VNum (Num.ofZ z).

(** [0.5] and [1.5] *)
Definition half : number := Finite (1 # 2).
Definition oneAndHalf : number := Finite (3 # 2).

Definition edge (f t : value) : value :=
  VObj [("from_abstraction", f); ("to_abstraction", t); ("label", VStr "uses")].

Definition graph (edges : list value) : value :=
  VObj [("summary", VStr "A small project."); ("relationships", VArr edges)].

Definition abstractionItem (title : string) (indices : list value) : value :=
  VObj [("name", VStr title); ("description", VStr "What it is.");
        ("file_indices", VArr indices)].

(** Chapter 2, "Caching Layer" (scenario C of the testable properties). *)
Definition cachingLayer : Abstraction :=
  {| name := "Caching Layer"; description := "Keeps answers."; files := [] |}.

Definition cachingChapter : ChapterInfo :=
  {| index := Num.ofNat 1; num := 2; chapterName := "Caching Layer";
     filename := "02_Caching_Layer.md" |}.

(** The model answers with a chapter that has no heading, inside a fence. *)
Definition fencedChapter : Externals :=
  scripted (fun s => inr (VStr s))
    [answerText "```yaml
The cache keeps every answer.
```"].

(** The model answers with a chapter that has no heading, as plain
    Markdown, at each of the three attempts. *)
Definition plainChapter : Externals :=
  scripted (fun s => inr (VStr s))
    [answerText "The cache keeps every answer.";
     answerText "The cache keeps every answer.";
     answerText "The cache keeps every answer."].

(** An abstraction whose title has no letter or digit of the ASCII range. *)
Definition questionMarks : Abstraction :=
  {| name := "???"; description := "Unknown."; files := [Num.ofNat 0] |}.

(** Two abstractions, as discovery hands them on. *)
Definition gateway : Abstraction :=
  {| name := "Gateway"; description := "Asks the model."; files := [Num.ofNat 0] |}.

(** The documents the fenced blocks of the examples parse to. *)
Definition stageDocuments (block : string) : string + value :=
  if String.eqb block "abstractions" then
    inr (VArr [abstractionItem "Gateway" [VStr "0 # llm.ts"];
               abstractionItem "Caching Layer" [int 0; int 1]])
  else if String.eqb block "relationships" then
    inr (graph [edge (VStr "0 # Gateway") (VStr "1 # Caching Layer")])
  else if String.eqb block "order" then
    inr (VArr [VStr "1 # Caching Layer"; int 0])
  else inl "unexpected block".

(** A run in two abstractions: the provider's answers in the order a
    complete run would ask for them. *)
Definition smallRun : Externals :=
  scripted stageDocuments
    [answerText "```yaml
abstractions
```";
     answerText "```yaml
relationships
```";
     answerText "```yaml
order
```";
     answerText "```yaml
# Chapter 1: Caching Layer
Answers are kept.
```";
     answerText "```yaml
# Chapter 2: Gateway
One request per call.
```"].

(** The stages after inference, on the same two abstractions: the answers
    for the chapter order and for the two chapters. *)
Definition laterStages : Externals :=
  scripted stageDocuments
    [answerText "```yaml
order
```";
     answerText "```yaml
# Chapter 1: Caching Layer
Answers are kept.
```";
     answerText "```yaml
# Chapter 2: Gateway
One request per call.
```"].

(** The relationship data that inference would hand on. *)
Definition inferredGraph : value :=
  VObj [("summary", VStr "A small project.");
        ("details",
         VArr [VObj [("from", int 0); ("to", int 1); ("label", VStr "uses")]])].

(** The model answers discovery with a record whose file index is a
    mapping with a [toString] property. *)
Definition unconvertible : Externals :=
  scripted
    (fun _ => inr (VArr [abstractionItem "Cache" [VObj [("toString", int 1)]]]))
    [answerText "```yaml
- name: Cache
  description: What it is.
  file_indices: [{toString: 1}]
```"].

Definition twoFiles : list FileData :=
  [ {| path := "llm.ts"; content := "export async function callLlm() {}" |};
    {| path := "cache.ts"; content := "const cache = new Map();" |} ].

(** ** Statements about indices *)

(** The abstraction index [i] is mentioned by the edges: it is the [from]
    or the [to] of one of them. *)
Definition mentions (edges : list Relationship) (i : nat) : Prop :=
  exists rel, In rel edges /\
    (Num.sameValueZero (Num.ofNat i) (from rel) = true \/
     Num.sameValueZero (Num.ofNat i) (to rel) = true).

(** The coverage invariant over [{0 .. count-1}]: every abstraction index
    appears in at least one edge. *)
Definition covers (count : nat) (edges : list Relationship) : Prop :=
  forall i, i < count -> mentions edges i.

(** [n] is a finite number in [[0, bound)]. *)
Definition inInterval (bound : nat) (n : number) : Prop :=
  match n with
  | Finite q => (0 <= q)%Q /\ (q < inject_Z (Z.of_nat bound))%Q
  | _ => False
  end.

(** [a < b] holds. *)
Definition below (a b : number) : Prop := Num.lt a b = true.

(** [n] stands for the integer [k]. *)
Definition isIndex (n : number) (k : nat) : Prop := Num.arrayIndex n = Some k.

(** [a] and [b] are different numbers. *)
Definition apart (a b : number) : Prop := Num.sameValueZero a b = false.

(** The list of indices an item's file references are read from:
    [item.file_indices || item.files]. *)
Definition fileIndicesOf (item : value) : option value :=
  Val.orElse (Val.get "file_indices" item) (Val.get "files" item).

(** A normalized list of file indices: numbers of [[0, fileCount)], in
    strictly ascending order, hence without duplicates. *)
Definition normalized (fileCount : nat) (l : list number) : Prop :=
  Forall (inInterval fileCount) l /\
  StronglySorted below l /\
  StronglySorted apart l.

(** The items of accepted data that is a sequence. *)
Definition itemsOf (data : value) : list value :=
  match data with VArr items => items | _ => [] end.

(** [abstractions[n]] *)
Definition abstractionAt (abstractions : list Abstraction) (n : number)
  : option Abstraction :=
  Num.arrayIndex n ≫= (fun k => abstractions !! k).

(** The message the run ends with when a chapter cannot be written. *)
Definition chapterFailure (info : ChapterInfo) (e : string) : string :=
  "Failed to write chapter " +:+ Js.ofNat (num info) +:+ " ("
  +:+ chapterName info +:+ "): " +:+ e.

(** The archive holds the complete document set for [infos]: the index
    document, the document of every chapter under the chapter's filename,
    and nothing else. *)
Definition completeArchive (zip : gmap string string) (indexContent : string)
    (infos : list ChapterInfo) (chapterContents : list string) : Prop :=
  length chapterContents = length infos /\
  zip !! "index.md" = Some indexContent /\
  (forall k info, infos !! k = Some info ->
     exists chapter, chapterContents !! k = Some chapter /\
                     zip !! filename info = Some chapter) /\
  (forall f, is_Some (zip !! f) ->
     f = "index.md" \/ exists info, In info infos /\ f = filename info).

(** The record [item] left the discovery validator as [item']: the
    [files] of [item'] are the indices that the entries of [item] stand for,
    normalized. *)
Definition filesNormalized `{Externals} (fileCount : nat) (item item' : value) : Prop :=
  exists entries indices l,
    fileIndicesOf item = Some (VArr entries) /\
    entryIndices entries = inr indices /\
    Val.get "files" item' = Some (VArr (map VNum l)) /\
    normalized fileCount l /\
    forall x, NumSet.has x l = NumSet.has x indices.

(** [n] is an integer when it is a finite number. *)
Definition integral (n : number) : Prop :=
  match n with
  | Finite q => (q == inject_Z (Qfloor q))%Q
  | _ => True
  end.

(** The ends of the edge are integers. *)
Definition integralEnds (rel : Relationship) : Prop :=
  integral (from rel) /\ integral (to rel).

(** The ends of the edge are numbers of [[0, count)]. *)
Definition endsInRange (count : nat) (rel : Relationship) : Prop :=
  inInterval count (from rel) /\ inInterval count (to rel).

(** ** Sequences of gateway calls *)

Section CallSequences.
Context `{Externals}.

(** The state after the calls [(prompt, useCache)] made one after the
    other. *)
Definition callMany (calls : list (string * bool)) (st : LlmState) : LlmState :=
  fold_left (fun st c => snd (callLlm (fst c) (snd c) st)) calls st.

(** Every cached text is a non-empty text that the provider gave, with a
    normal finish, in answer to a request for that very prompt. *)
Definition cacheSound (st : LlmState) : Prop :=
  forall prompt t,
    cache st !! prompt = Some t ->
    Js.isEmpty t = false /\
    exists n, providerRequests st !! n = Some prompt /\
              readProvider (provider n prompt) = llmOk t.

End CallSequences.

(** A deployment without [GEMINI_API_KEY]: the client is never built. *)
Definition noClient : Externals :=
  {| yamlParse := fun s => inr (VStr s);
     jsonStringify := fun _ => "<json>";
     numberToString := fun _ => "<number>";
     stringOf := convert;
     clientInitialized := false;
     provider := fun _ _ => answerText "never asked";
     identifyAbstractionsPrompt := fun _ _ _ => "identify abstractions";
     relationshipContext := fun _ _ => "relationship context";
     orderChaptersPrompt := fun _ _ _ _ _ => "order chapters";
     writeChapterPrompt := fun _ _ info _ _ _ _ => "write chapter " +:+ Js.ofNat (num info);
     indexDocument := fun _ _ _ _ _ => "<index>" |}.

Definition acceptAll : Validator := fun v => (Accepted, v).

(** [/^\s*$/]: only white space. *)
Fixpoint allWhiteSpace (s : string) : bool :=
  match s with
  | EmptyString => true
  | String c r => Js.isWhiteSpace c && allWhiteSpace r
  end.

(** [/^\d*$/]: decimal digits only. *)
Fixpoint allDigits (s : string) : bool :=
  match s with
  | EmptyString => true
  | String c r => Js.isDigit c && allDigits r
  end.

(** ** What a sanitized filename looks like *)

Fixpoint allKept (s : string) : bool :=
  match s with
  | EmptyString => true
  | String c r => Sanitize.isKept c && allKept r
  end.

Fixpoint allEdge (s : string) : bool :=
  match s with
  | EmptyString => true
  | String c r => Sanitize.isEdge c && allEdge r
  end.

Definition headIsEdge (s : string) : bool :=
  match s with
  | EmptyString => false
  | String c _ => Sanitize.isEdge c
  end.

Fixpoint lastIsEdge (s : string) : bool :=
  match s with
  | EmptyString => false
  | String c r => if Js.isEmpty r then Sanitize.isEdge c else lastIsEdge r
  end.

(** [[a-zA-Z0-9]] somewhere in [s]. *)
Fixpoint hasAlphanumeric (s : string) : bool :=
  match s with
  | EmptyString => false
  | String c r => Js.isLower c || Js.isUpper c || Js.isDigit c || hasAlphanumeric r
  end.

(** Only letters, digits, [_], [.] and [-]; no [_], [.] or [-] at either
    end; no two underscores in a row. *)
Definition cleanName (s : string) : bool :=
  allKept s && negb (headIsEdge s) && negb (lastIsEdge s)
  && negb (Js.includes "__" s).

(** ** [getContentForIndices] ([lib/utils.ts]) *)

(** [`${i} # ${file.path}`] *)
Definition contentKey (i : nat) (file : FileData) : string :=
  Js.ofNat i +:+ " # " +:+ path file.

(** [filesData.forEach((file, i) => ...)] from position [i] on; the object
    [contentMap] is a map from keys to contents. *)
Fixpoint fillContentMap (validIndices : list number) (filesData : list FileData)
    (i : nat) (contentMap : gmap string string) : gmap string string :=
  match filesData with
  | [] => contentMap
  | file :: rest =>
      fillContentMap validIndices rest (S i)
        (if NumSet.has (Num.ofNat i) validIndices
         then <[contentKey i file := content file]> contentMap
         else contentMap)
  end.

Definition getContentForIndices (filesData : list FileData) (indices : list number)
  : gmap string string :=
  let validIndices := NumSet.ofList indices in
  fillContentMap validIndices filesData 0 ∅.

(** ** The chapters written so far, as the next prompt carries them *)

(** [previousChaptersSummary] after the chapters [chapters], starting from
    the empty summary. *)
Fixpoint chaptersSummary (chapters : list string) : string :=
  match chapters with
  | [] => ""
  | chapter :: rest => "

---

" +:+ chapter +:+ chaptersSummary rest
  end.

(** The document of a chapter: the chapter, an empty line when the chapter
    does not end in one, and the attribution footer. *)
Definition chapterDocument (chapter : string) : string :=
  chapter
  +:+ (if Js.endsWith "

" chapter then "" else "

")
  +:+ "---

Generated by [AI Codebase Knowledge Builder](https://github.com/The-Pocket/Tutorial-Codebase-Knowledge)".

(** A provider that answers every request with the same fenced chapter. *)
Definition chapterWriter : Externals :=
  scripted (fun s => inr (VStr s))
    [answerText "```yaml
# Chapter 1: Gateway

The gateway asks the model.
```";
     answerText "```yaml
The cache keeps every answer.
```"].

Definition gatewayChapter : ChapterInfo :=
  {| index := Num.ofNat 0; num := 1; chapterName := "Gateway";
     filename := "01_Gateway.md" |}.

Definition twoChapters : list ChapterInfo := [gatewayChapter; cachingChapter].

(** The chapter-writing pass over [twoChapters]. *)
Definition chapterRun : (Response + list string * string) * LlmState :=
  @writeChapters chapterWriter "demo" "english" twoFiles [gateway; cachingLayer]
    twoChapters twoChapters "" [] initialState.

Definition chapterRunContents : list string :=
  match fst chapterRun with inr (contents, _) => contents | inl _ => [] end.

Definition chapterRunSummary : string :=
  match fst chapterRun with inr (_, previous) => previous | inl _ => "" end.

(** ** [lib/github.ts]: requests with retry *)

Module Github.

(** What [fetchWithRetry] reads of a [Response]. *)
Record Reply : Type := {
  status : nat;
  statusText : string;
  rateLimitRemaining : option string   (* headers.get('X-RateLimit-Remaining') *)
}.

(** The outcome of one [fetch]: the promise rejects with an error of this
    message, or resolves with a response. *)
Inductive Outcome : Type :=
| Rejects (message : string)
| Resolves (response : Reply).

(** [response.ok]: a status in the range 200 to 299. *)
Definition ok (response : Reply) : bool :=
  (200 <=? status response)%nat && (status response <=? 299)%nat.

(** [response.status === 403 &&
     response.headers.get('X-RateLimit-Remaining') === '0'] *)
Definition rateLimited (response : Reply) : bool :=
  (status response =? 403)%nat
  && match rateLimitRemaining response with
     | Some remaining => String.eqb remaining "0"
     | None => false
     end.

Definition apiError (url : string) (response : Reply) : string :=
  "GitHub API Error: " +:+ Js.ofNat (status response) +:+ " "
  +:+ statusText response +:+ " for URL " +:+ url.

Section Fetch.

(** The network: the outcome of the request for [url] that is the [n]-th
    request sent. *)
Variable fetch : nat -> string -> Outcome.

(** [fetchWithRetry(url, options, retries)] when [sent] requests went out
    before it: the error it throws ([inl], by its message) or the response
    it returns, and the number of requests sent by then.  The recursive call
    is returned without [await], so what it throws is not caught again by
    the caller's [catch]. *)
Fixpoint fetchWithRetry (url : string) (retries : nat) (sent : nat)
  : (string + Reply) * nat :=
  match fetch sent url with
  | Rejects message =>
      match retries with
      | S retries' => fetchWithRetry url retries' (S sent)
      | O => (inl message, S sent)
      end
  | Resolves response =>
      if rateLimited response then
        match retries with
        | S retries' => fetchWithRetry url retries' (S sent)
        | O => (inl "GitHub Rate Limit exceeded after multiple retries.", S sent)
        end
      else if negb (ok response) && negb (status response =? 404)%nat then
        match retries with
        | S retries' => fetchWithRetry url retries' (S sent)
        | O => (inl (apiError url response), S sent)
        end
      else (inr response, S sent)
  end.

(** A response that [fetchWithRetry] hands back as it is. *)
Definition passes (response : Reply) : bool :=
  negb (rateLimited response)
  && (ok response || (status response =? 404)%nat).

Definition outcomePasses (o : Outcome) : bool :=
  match o with
  | Rejects _ => false
  | Resolves response => passes response
  end.

End Fetch.

(** A network that rejects once, then answers 403 with no quota left, then
    answers 404. *)
Definition flaky (n : nat) (url : string) : Outcome :=
  match n with
  | 0 => Rejects "socket hang up"
  | 1 => Resolves {| status := 403; statusText := "Forbidden";
                     rateLimitRemaining := Some "0" |}
  | _ => Resolves {| status := 404; statusText := "Not Found";
                     rateLimitRemaining := Some "58" |}
  end.

End Github.

(** ** The pattern fields of the form ([POST], reading the request) *)

Module Form.

(** [s.split(c)] for a one-character separator: the pieces between the
    separators, empty pieces included; never the empty list. *)
Fixpoint split (c : ascii) (s : string) : list string :=
  match s with
  | EmptyString => [EmptyString]
  | String d r =>
      if Ascii.eqb d c then EmptyString :: split c r
      else match split c r with
           | piece :: rest => String d piece :: rest
           | [] => [String d EmptyString]
           end
  end.

(** A value of [formData.entries()]. *)
Inductive EntryValue : Type :=
| Text (value : string)
| UploadedFile.

(** What the loop over the entries stores under [includePatterns] or
    [excludePatterns]. *)
Definition patternsField (value : EntryValue) : list string :=
  match value with
  | Text value =>
      if negb (Js.isEmpty (Js.trim value))
      then List.filter (fun s => negb (Js.isEmpty s)) (map Js.trim (split "," value))
      else []
  | UploadedFile => []
  end.

(** [input && input.length > 0 ? input : defaults] *)
Definition effectivePatterns (input : option (list string)) (defaults : list string)
  : list string :=
  match input with
  | Some patterns => if (0 <? length patterns)%nat then patterns else defaults
  | None => defaults
  end.

(** Only white space and commas. *)
Fixpoint onlySeparators (s : string) : bool :=
  match s with
  | EmptyString => true
  | String c r => (Js.isWhiteSpace c || Ascii.eqb c ",") && onlySeparators r
  end.

(** A pattern as the field stores it: not empty, trimmed, without comma. *)
Definition isPattern (p : string) : Prop :=
  Js.isEmpty p = false /\ Js.trim p = p /\ Js.includesChar "," p = false.

(** [raw] is [p] with white space around it. *)
Definition padded (raw p : string) : Prop :=
  exists ws ws', raw = ws +:+ p +:+ ws' /\
                 allWhiteSpace ws = true /\ allWhiteSpace ws' = true.

End Form.

(** ** [lib/local-crawl.ts]: the common root directory of an archive *)

From Equations Require Import Equations.

Module LocalCrawl.

(** The text before the last [c] of [s]; [None] when [s] has no [c]. *)
Fixpoint beforeLast (c : ascii) (s : string) : option string :=
  match s with
  | EmptyString => None
  | String d r =>
      match beforeLast c r with
      | Some t => Some (String d t)
      | None => if Ascii.eqb d c then Some EmptyString else None
      end
  end.

(** [s.substring(0, s.lastIndexOf('/'))]; without a slash the index is -1
    and the substring is empty. *)
Definition cutAtLastSlash (s : string) : string :=
  match beforeLast "/" s with Some t => t | None => EmptyString end.

(** [s.substring(0, s.lastIndexOf('/') + 1)] *)
Definition throughLastSlash (s : string) : string :=
  match beforeLast "/" s with Some t => t +:+ "/" | None => EmptyString end.

(** The body of the [while] loop. *)
Definition parentPrefix (commonPrefix : string) : string :=
  let commonPrefix := cutAtLastSlash commonPrefix in
  if Js.includesChar "/" commonPrefix then throughLastSlash commonPrefix
  else EmptyString.

(** [while (commonPrefix && !relativePath.startsWith(commonPrefix))
       commonPrefix = parent(commonPrefix)] *)
Equations narrow (relativePath : string) (commonPrefix : string) : string
  by wf (String.length commonPrefix) lt :=
narrow relativePath EmptyString := EmptyString;
narrow relativePath (String c r) :=
  if Js.startsWith (String c r) relativePath then String c r
  else narrow relativePath (parentPrefix (String c r)).
Next Obligation.
  assert (Hlast : forall s t, beforeLast "/" s = Some t ->
                              String.length t < String.length s).
  { induction s as [|d s IH]; intros t; simpl; [discriminate|].
    destruct (beforeLast "/" s) as [t'|].
    - intros [= <-]. specialize (IH t' eq_refl). simpl. lia.
    - destruct (Ascii.eqb d "/"); [|discriminate]. intros [= <-]. simpl. lia. }
  assert (Hslash : forall t, String.length (t +:+ "/") = S (String.length t)).
  { induction t as [|x t IH]; simpl; [reflexivity|]. by rewrite IH. }
  unfold parentPrefix, cutAtLastSlash, throughLastSlash.
  destruct (beforeLast "/" (String c r)) as [t|] eqn:Ht; [|simpl; lia].
  apply Hlast in Ht. destruct (Js.includesChar "/" t); [|simpl in *; lia].
  destruct (beforeLast "/" t) as [t'|] eqn:Ht'; [|simpl in *; lia].
  apply Hlast in Ht'. rewrite Hslash. simpl in Ht. lia.
Qed.

(** An entry of the archive: its path and whether it is a directory. *)
Record ZipEntry : Type := {
  relativePath : string;
  dir : bool
}.

(** The callback of the first [zip.forEach]; [None] is [null]. *)
Definition seeEntry (commonPrefix : option string) (entry : ZipEntry)
  : option string :=
  if negb (dir entry) then
    match commonPrefix with
    | None =>
        Some (if Js.includesChar "/" (relativePath entry)
              then throughLastSlash (relativePath entry)
              else EmptyString)
    | Some commonPrefix => Some (narrow (relativePath entry) commonPrefix)
    end
  else commonPrefix.

(** [const rootDir = commonPrefix || ''] after the loop over the entries. *)
Definition rootDir (entries : list ZipEntry) : string :=
  match fold_left seeEntry entries None with
  | Some commonPrefix => commonPrefix
  | None => EmptyString
  end.

(** [relativePath.replace(/\\/g, '/')] *)
Fixpoint normalizeSeparators (s : string) : string :=
  match s with
  | EmptyString => EmptyString
  | String c r =>
      String (if Ascii.eqb c "\" then "/"%char else c) (normalizeSeparators r)
  end.

(** The path a file is matched and stored under. *)
Definition pathForMatching (rootDir relativePath : string) : string :=
  let normalizedPath := normalizeSeparators relativePath in
  if Js.startsWith rootDir normalizedPath
  then String.substring (String.length rootDir) (String.length normalizedPath)
         normalizedPath
  else normalizedPath.

(** A directory prefix: empty, or ending in a slash. *)
Definition isDirPrefix (s : string) : Prop :=
  s = EmptyString \/ exists t, s = t +:+ "/".

Definition fileEntry (p : string) : ZipEntry :=
  {| relativePath := p; dir := false |}.

(** A folder that was zipped: its directory entries and three files. *)
Definition zippedFolder : list ZipEntry :=
  [ {| relativePath := "proj/"; dir := true |};
    fileEntry "proj/src/lib/llm.ts";
    {| relativePath := "proj/src/"; dir := true |};
    fileEntry "proj/src/app.ts";
    fileEntry "proj/README.md" ].

(** After the entries [seen], the prefix is a directory prefix that every
    file seen starts with. *)
Definition prefixOfAll (commonPrefix : option string) (seen : list ZipEntry) : Prop :=
  match commonPrefix with
  | Some p =>
      isDirPrefix p /\
      Forall (fun entry => dir entry = false ->
                           Js.startsWith p (relativePath entry) = true) seen
  | None => Forall (fun entry => dir entry = true) seen
  end.

End LocalCrawl.
(** * Properties *)

(** ** Sanity checks of the string primitives *)

Example parseInt_plain : Js.parseInt "12" = Some 12%Z.
Proof. reflexivity. Qed.

Example parseInt_comment : Js.parseInt (Js.trim (Js.beforeChar "#" "3 # src/a.ts")) = Some 3%Z.
Proof. reflexivity. Qed.

Example parseInt_prefix : Js.parseInt " -7px" = Some (-7)%Z.
Proof. reflexivity. Qed.

Example parseInt_nan : Js.parseInt "abc" = None.
Proof. reflexivity. Qed.

Example padStart2_one : Js.padStart2 (Js.ofNat 3) = "03".
Proof. reflexivity. Qed.

Example trim_both : Js.trim "  a b
 " = "a b".
Proof. reflexivity. Qed.

(** ** The extractor on concrete responses *)

Example yamlBlock_plain :
  Fence.yamlBlock "Here you go:
```yaml
- 1 # b
- 0 # a
```
Done." = Some "- 1 # b
- 0 # a".
Proof. reflexivity. Qed.

Example yamlBlock_unfenced : Fence.yamlBlock "# Chapter 1: Cache" = None.
Proof. reflexivity. Qed.

Example yamlBlock_unclosed : Fence.yamlBlock "```yaml
- 1" = None.
Proof. reflexivity. Qed.

Example yamlBlock_empty : Fence.yamlBlock "```yaml   ```" = Some "".
Proof. reflexivity. Qed.

(** ** The completion gateway *)

Section GatewayFacts.
Context `{Externals}.

Lemma readProvider_success (o : ProviderOutcome) :
  success (readProvider o) = true ->
  exists t, readProvider o = llmOk t /\ Js.isEmpty t = false.
Proof.
  destruct o as [m | b s | r]; simpl; try discriminate.
  destruct (nonEmptyOpt (promptBlockReason r)); simpl; try discriminate.
  destruct (finishedNormally (finishReason r)); simpl; try discriminate.
  destruct (responseText r) as [m | t]; simpl; try discriminate.
  destruct (Js.isEmpty t) eqn:E; simpl; try discriminate.
  intros _. exists t. auto.
Qed.

Lemma callLlm_counts (prompt : string) (useCache : bool) (st : LlmState) :
  gatewayCalls (snd (callLlm prompt useCache st)) = S (gatewayCalls st).
Proof.
  unfold callLlm. destruct clientInitialized; simpl; [|reflexivity].
  destruct useCache; [destruct (cache st !! prompt)|]; reflexivity.
Qed.

(** A call that finds the prompt in the cache answers from it and sends
    nothing to the provider. *)
Lemma callLlm_hit (prompt t : string) (st : LlmState) :
  clientInitialized = true ->
  cache st !! prompt = Some t ->
  callLlm prompt true st = (llmOk t, withCalls st 1).
Proof.
  intros Hinit Hhit. unfold callLlm, withCalls. rewrite Hinit. simpl.
  rewrite Hhit. repeat f_equal. lia.
Qed.

(** A successful cache-enabled call leaves its text in the cache. *)
Lemma callLlm_success_cached (prompt : string) (st st1 : LlmState) (r : LlmCallResult) :
  callLlm prompt true st = (r, st1) ->
  success r = true ->
  clientInitialized = true /\
  exists t, r = llmOk t /\ cache st1 !! prompt = Some t.
Proof.
  unfold callLlm. destruct clientInitialized; simpl.
  2:{ intros [= <- <-]. discriminate. }
  destruct (cache st !! prompt) as [t|] eqn:Hc.
  - intros [= <- <-] _. split; [reflexivity|]. exists t. auto.
  - intros [= <- <-] Hs. split; [reflexivity|].
    destruct (readProvider_success _ Hs) as (t & -> & _).
    exists t. split; [reflexivity|]. simpl. apply lookup_insert_eq.
Qed.

End GatewayFacts.

(** C5. For every prompt: when a call to the completion gateway with the
    cache enabled succeeds, the next call with the same prompt and the cache
    enabled sends no request to the provider (the list of provider requests
    and the cache are as the first call left them, only the invocation is
    counted) and succeeds with the text of the first call. *)
Theorem callLlm_second_call_from_cache `{Externals}
    (prompt : string) (st st1 : LlmState) (first : LlmCallResult) :
  callLlm prompt true st = (first, st1) ->
  success first = true ->
  exists t,
    text first = Some t /\
    callLlm prompt true st1 = (llmOk t, withCalls st1 1) /\
    providerRequests (withCalls st1 1) = providerRequests st1.
Proof.
  intros Hcall Hs.
  destruct (callLlm_success_cached _ _ _ _ Hcall Hs) as (Hinit & t & -> & Hc).
  exists t. split; [reflexivity|]. split; [|reflexivity].
  by apply callLlm_hit.
Qed.

Lemma callLlm_second_call_from_cache_witness :
  exists t,
    text (fst (@callLlm oneAnswer "a prompt" true initialState)) = Some t /\
    @callLlm oneAnswer "a prompt" true
       (snd (@callLlm oneAnswer "a prompt" true initialState))
    = (llmOk t, withCalls (snd (@callLlm oneAnswer "a prompt" true initialState)) 1) /\
    providerRequests (withCalls (snd (@callLlm oneAnswer "a prompt" true initialState)) 1)
    = providerRequests (snd (@callLlm oneAnswer "a prompt" true initialState)).
Proof.
  apply (@callLlm_second_call_from_cache oneAnswer "a prompt" initialState
           (snd (@callLlm oneAnswer "a prompt" true initialState))
           (fst (@callLlm oneAnswer "a prompt" true initialState))).
  - reflexivity.
  - reflexivity.
Defined.
(** ** The retry-validate loop *)

Section LoopFacts.
Context `{Externals}.
Variable promptGenerator : unit -> string + string.
Variable parser : string -> string + value.
Variable validator : Validator.
Variable useCache : bool.

Local Abbreviation attempt_ := (attempt promptGenerator parser validator useCache).
Local Abbreviation retryFrom_ := (retryFrom promptGenerator parser validator useCache).
Local Abbreviation afterGateway_ := (afterGateway parser validator).

(** A failure of the loop carries what its last attempt recorded. *)
Lemma retryFrom_Failure_last (n i : nat) (lastError e : string) (st st' : LlmState) :
  retryFrom_ (S n) i lastError st = (Failure e, st') ->
  exists stLast, attempt_ (i + n) stLast = (Again e, st').
Proof.
  revert i lastError st. induction n as [|n IH]; intros i lastError st.
  - simpl. destruct (attempt_ i st) as [[data|e0] st1] eqn:Ha; [discriminate|].
    intros [= <- <-]. exists st. by rewrite Nat.add_0_r.
  - change (retryFrom_ (S (S n)) i lastError st)
      with (match attempt_ i st with
            | (Done data, st1) => (Success data, st1)
            | (Again e1, st1) => retryFrom_ (S n) (S i) e1 st1
            end).
    destruct (attempt_ i st) as [[data|e0] st1]; [discriminate|].
    intros Hrun. destruct (IH _ _ _ Hrun) as [stLast Hlast].
    exists stLast. by replace (i + S n) with (S i + n) by lia.
Qed.

(** A factory that throws: no attempt reaches the gateway. *)
Lemma attempt_throws (message : string) (i : nat) (st : LlmState) :
  promptGenerator tt = inl message ->
  attempt_ i st = (Again (interactionError i message), st).
Proof. intros Hthrows. unfold attempt. by rewrite Hthrows. Qed.

Lemma retryFrom_throws (message : string) (n i : nat) (lastError : string)
    (st : LlmState) :
  promptGenerator tt = inl message ->
  retryFrom_ (S n) i lastError st = (Failure (interactionError (i + n) message), st).
Proof.
  intros Hthrows. revert i lastError. induction n as [|n IH]; intros i lastError.
  - simpl. rewrite (attempt_throws message) by assumption. by rewrite Nat.add_0_r.
  - change (retryFrom_ (S (S n)) i lastError st)
      with (match attempt_ i st with
            | (Done data, st1) => (Success data, st1)
            | (Again e1, st1) => retryFrom_ (S n) (S i) e1 st1
            end).
    rewrite (attempt_throws message) by assumption. rewrite IH.
    by replace (S i + n) with (i + S n) by lia.
Qed.

(** From here on the factory returns a prompt. *)
Variable prompt : string.
Hypothesis returns : promptGenerator tt = inr prompt.

Lemma attempt_unfold (i : nat) (st : LlmState) :
  attempt_ i st =
  (afterGateway_ i (fst (callLlm prompt useCache st)),
   snd (callLlm prompt useCache st)).
Proof.
  unfold attempt. rewrite returns. destruct (callLlm _ _ _). reflexivity.
Qed.

Lemma attempt_counts (i : nat) (st : LlmState) :
  gatewayCalls (snd (attempt_ i st)) = S (gatewayCalls st).
Proof. rewrite attempt_unfold. simpl. apply callLlm_counts. Qed.

(** A validator that refuses whatever it is given never ends the loop:
    the attempt records a reason. *)
Lemma attempt_refused (i : nat) (st : LlmState) :
  (forall v, exists reason v', validator v = (Refused reason, v')) ->
  exists e,
    fst (attempt_ i st) = Again e /\
    recordedAfter parser validator (fst (callLlm prompt useCache st)) e.
Proof.
  intros Href. rewrite attempt_unfold. simpl.
  unfold afterGateway, recordedAfter, examine.
  destruct (usableText _) as [t|]; [|eauto].
  destruct (extractBlock parser t) as [m|v]; [eauto|].
  destruct (Href v) as (reason & v' & Hv). rewrite Hv.
  exists (validationFailure reason v'). split; [reflexivity|].
  exists reason, v'. split; reflexivity.
Qed.

Lemma retryFrom_refused (n i : nat) (lastError : string) (st : LlmState) :
  (forall v, exists reason v', validator v = (Refused reason, v')) ->
  exists e st' stLast,
    retryFrom_ (S n) i lastError st = (Failure e, st') /\
    gatewayCalls st' = gatewayCalls st + S n /\
    gatewayCalls stLast = gatewayCalls st + n /\
    snd (callLlm prompt useCache stLast) = st' /\
    recordedAfter parser validator
      (fst (callLlm prompt useCache stLast)) e.
Proof.
  intros Href. revert i lastError st.
  induction n as [|n IH]; intros i lastError st.
  - destruct (attempt_refused i st Href) as (e & He & Hrec).
    pose proof (attempt_counts i st) as Hc.
    exists e, (snd (attempt_ i st)), st. simpl.
    destruct (attempt_ i st) as [a st'] eqn:Ha. simpl in *. subst a.
    repeat split; try lia; [|assumption].
    rewrite attempt_unfold in Ha. by inversion Ha.
  - destruct (attempt_refused i st Href) as (e0 & He0 & _).
    pose proof (attempt_counts i st) as Hc.
    change (retryFrom_ (S (S n)) i lastError st)
      with (match attempt_ i st with
            | (Done data, st') => (Success data, st')
            | (Again e, st') => retryFrom_ (S n) (S i) e st'
            end).
    destruct (attempt_ i st) as [a st1]. simpl in *. subst a.
    destruct (IH (S i) e0 st1) as (e & st' & stLast & Hr & Hc1 & Hc2 & Hs & Hrec).
    exists e, st', stLast. repeat split; try assumption; lia.
Qed.

End LoopFacts.




(** ** Retrying against the cache *)

Lemma withCalls_0 (st : LlmState) : withCalls st 0 = st.
Proof. destruct st. unfold withCalls. simpl. f_equal. lia. Qed.

Lemma withCalls_withCalls (st : LlmState) (k m : nat) :
  withCalls (withCalls st k) m = withCalls st (k + m).
Proof. unfold withCalls. simpl. f_equal. lia. Qed.

Section CachedRetries.
Context `{Externals}.
Variable promptGenerator : unit -> string + string.
Variable prompt : string.
Variable parser : string -> string + value.
Variable validator : Validator.
Hypothesis returns : promptGenerator tt = inr prompt.

Local Abbreviation attempt_ := (attempt promptGenerator parser validator true).
Local Abbreviation retryFrom_ := (retryFrom promptGenerator parser validator true).
Local Abbreviation afterGateway_ := (afterGateway parser validator).

(** What an attempt makes of a text that the gateway returned with
    success: the loop ends, or the cause of the failure is recorded. *)
Lemma afterGateway_cause (j : nat) (t : string) :
  afterGateway_ j (llmOk t)
  = match causeOf parser validator t with
    | Some cause => Again (recorded cause t j)
    | None =>
        match extractBlock parser t with
        | inr parsedData => Done (snd (validator parsedData))
        | inl message => Again (parseFailure message t)
        end
    end.
Proof.
  unfold afterGateway, usableText, causeOf, examine. simpl.
  destruct (Js.isEmpty t); [reflexivity|].
  destruct (extractBlock parser t) as [m|v]; [reflexivity|].
  by destruct (validator v) as [[|reason|m] v'].
Qed.

Variable t : string.
Variable cause : Cause.
Variable st1 : LlmState.
Hypothesis initialized : clientInitialized = true.
Hypothesis cached : cache st1 !! prompt = Some t.
Hypothesis fails : causeOf parser validator t = Some cause.

Lemma callLlm_pinned (k : nat) :
  callLlm prompt true (withCalls st1 k) = (llmOk t, withCalls st1 (S k)).
Proof.
  rewrite (callLlm_hit _ t) by assumption.
  rewrite withCalls_withCalls. repeat f_equal. lia.
Qed.

Lemma attempt_pinned (k j : nat) :
  attempt_ j (withCalls st1 k) = (Again (recorded cause t j), withCalls st1 (S k)).
Proof.
  unfold attempt. rewrite returns, callLlm_pinned, afterGateway_cause. by rewrite fails.
Qed.

Lemma retryFrom_pinned (n j k : nat) (lastError : string) :
  retryFrom_ (S n) j lastError (withCalls st1 k)
  = (Failure (recorded cause t (j + n)), withCalls st1 (k + S n)).
Proof.
  revert j k lastError. induction n as [|n IH]; intros j k lastError.
  - simpl. rewrite attempt_pinned. by rewrite Nat.add_0_r, Nat.add_1_r.
  - change (retryFrom_ (S (S n)) j lastError (withCalls st1 k))
      with (match attempt_ j (withCalls st1 k) with
            | (Done data, st') => (Success data, st')
            | (Again e, st') => retryFrom_ (S n) (S j) e st'
            end).
    rewrite attempt_pinned, IH.
    replace (S j + n) with (j + S n) by lia.
    replace (S k + S n) with (k + S (S n)) by lia. reflexivity.
Qed.

End CachedRetries.




(** The same on a response that does not parse: the three attempts record
    the one extraction failure, and the provider is asked once. *)
Example cached_unparsable_response :
  @callLlmWithRetry unparsable (fun _ => inr "a prompt") (@yamlParse unparsable)
    refuseAll true 3 initialState
  = (Failure (@parseFailure "bad indentation" "```yaml
a: [
```"),
     {| cache := {["a prompt" := "```yaml
a: [
```"]}; gatewayCalls := 3; providerRequests := ["a prompt"] |}).
Proof. vm_compute. reflexivity. Qed.

(** ** The validators on concrete documents *)

Example order_accepts_1_0 :
  fst (@orderValidator plain 2 (VArr [int 1; int 0])) = Accepted.
Proof. reflexivity. Qed.

Example order_accepts_comments :
  fst (@orderValidator plain 2 (VArr [VStr "1 # Cache"; VStr "0 # Gateway"])) = Accepted.
Proof. reflexivity. Qed.

Example order_refuses_0_0 :
  fst (@orderValidator plain 2 (VArr [int 0; int 0]))
  = Refused "Duplicate index <number> found in ordered list.".
Proof. reflexivity. Qed.

Example order_refuses_short :
  fst (@orderValidator plain 2 (VArr [int 1]))
  = Refused "Ordered list length (1) doesn't match abstraction count (2). Missing: 0".
Proof. reflexivity. Qed.

Example relationships_accepts_single_edge :
  fst (@relationshipsValidator plain 2 (graph [edge (int 0) (int 1)])) = Accepted.
Proof. reflexivity. Qed.

Example relationships_stores_indices :
  snd (@relationshipsValidator plain 2 (graph [edge (VStr "0 # Gateway") (VStr "1 # Cache")]))
  = VObj [("summary", VStr "A small project.");
          ("relationships",
           VArr [VObj [("from_abstraction", VStr "0 # Gateway");
                       ("to_abstraction", VStr "1 # Cache");
                       ("label", VStr "uses");
                       ("from", int 0); ("to", int 1)]]);
          ("details",
           VArr [VObj [("from_abstraction", VStr "0 # Gateway");
                       ("to_abstraction", VStr "1 # Cache");
                       ("label", VStr "uses");
                       ("from", int 0); ("to", int 1)]])].
Proof. reflexivity. Qed.

Example relationships_lists_missing :
  fst (@relationshipsValidator plain 3 (graph [edge (int 0) (int 0)]))
  = Refused "Validation Error: Not all abstractions are included in relationships. Missing: 1, 2. Please ensure every abstraction index appears at least once.".
Proof. reflexivity. Qed.

Example abstractions_normalizes_files :
  snd (@abstractionsValidator plain 3
         (VArr [abstractionItem "Cache" [VStr "2 # b.ts"; int 0; VStr "2"; int 0]]))
  = VArr [VObj [("name", VStr "Cache"); ("description", VStr "What it is.");
                ("file_indices", VArr [VStr "2 # b.ts"; int 0; VStr "2"; int 0]);
                ("files", VArr [int 0; int 2])]].
Proof. reflexivity. Qed.

Example abstractions_refuses_out_of_range :
  fst (@abstractionsValidator plain 3 (VArr [abstractionItem "Cache" [int 3]]))
  = Refused "Invalid file index <number> in item Cache. Max index is 2.".
Proof. reflexivity. Qed.

(** An entry that is a mapping with a [toString] field that is no function
    has no string form: the conversion throws, the handler of the validator
    converts the entry again for its message, and the validator throws. *)
Example abstractions_throws_on_entry :
  fst (@abstractionsValidator plain 3
         (VArr [abstractionItem "Cache" [VObj [("toString", int 1)]]]))
  = Thrown "Cannot convert object to primitive value".
Proof. reflexivity. Qed.

Example abstractions_throws_on_name :
  fst (@abstractionsValidator plain 3
         (VArr [VObj [("name", VObj [("toString", int 1)]);
                      ("description", VStr "What it is.");
                      ("file_indices", VArr [int 0])]]))
  = Thrown "Cannot convert object to primitive value".
Proof. reflexivity. Qed.

Example order_throws_on_entry :
  fst (@orderValidator plain 2 (VArr [int 1; VObj [("toString", int 1)]]))
  = Thrown "Cannot convert object to primitive value".
Proof. reflexivity. Qed.

(** The handler of the relationships validator writes the relation with
    [JSON.stringify], which does not throw here: the validator refuses. *)
Example relationships_refuses_unconvertible :
  fst (@relationshipsValidator plain 2
         (graph [edge (VObj [("toString", int 1)]) (int 1)]))
  = Refused "Could not parse indices from relationship: <json>".
Proof. reflexivity. Qed.

Example heading_matches_variants :
  headingMatches 2 "Caching Layer" "# Chapter 2: Caching Layer" = true /\
  headingMatches 2 "Caching Layer" "#chapter  2 caching layer
text" = true /\
  headingMatches 2 "Caching Layer" "# Chapter 2 - Caching Layer" = false /\
  headingMatches 2 "Caching Layer" "# Chapter 20: Caching Layer" = false /\
  headingMatches 2 "Caching Layer" "## Chapter 2: Caching Layer" = false.
Proof. repeat split; reflexivity. Qed.

Example sanitizeFilename_examples :
  sanitizeFilename "Caching Layer" = "Caching_Layer" /\
  sanitizeFilename "  LLM -- (gateway) " = "LLM_--_gateway" /\
  sanitizeFilename "a  &  b" = "a_b" /\
  sanitizeFilename "???" = "" /\
  sanitizeFilename "" = "untitled".
Proof. repeat split; reflexivity. Qed.

(** ** Chapter authoring: the heading contract *)

(** When the heading is there, the validator's repair leaves the text as it
    is. *)
Lemma repairedChapter_heading_present (chapterNum : nat) (title parsed : string) :
  headingMatches chapterNum title (Js.trim parsed) = true ->
  repairedChapter chapterNum title parsed = parsed.
Proof. intros Hm. unfold repairedChapter. by rewrite Hm. Qed.

(** When it is not, the repaired text is the expected heading, an empty
    line and the trimmed text. *)
Lemma repairedChapter_heading_missing (chapterNum : nat) (title parsed : string) :
  headingMatches chapterNum title (Js.trim parsed) = false ->
  repairedChapter chapterNum title parsed
  = expectedHeading chapterNum title +:+ "

" +:+ Js.trim parsed.
Proof. intros Hm. unfold repairedChapter. by rewrite Hm. Qed.

(** The data the loop returns is the text the validator was given, with or
    without heading: the repair stays in the validator. *)
Lemma chapterValidator_keeps_data (chapterNum : nat) (title : string) (v : value) :
  snd (chapterValidator chapterNum title v) = v.
Proof.
  destruct v; try reflexivity. simpl.
  by destruct (String.length s <? 10)%nat.
Qed.

Lemma chapterValidator_total (chapterNum : nat) (title : string) (v : value) m v' :
  chapterValidator chapterNum title v <> (Thrown m, v').
Proof.
  destruct v; try discriminate. simpl.
  by destruct (String.length s <? 10)%nat.
Qed.

(** C1 (what the code does at the failing inputs).  Chapter 2, "Caching
    Layer"; the model's text has no heading.
    - Sent inside a fence, the text is accepted; the validator computes the
      text with the heading prepended, but the body the stage goes on with is
      the text as the model wrote it, without heading.
    - Sent as plain Markdown, the text never reaches the validator: the loop
      looks for a fenced block, finds none at each of the three attempts, and
      the stage fails. *)
Theorem chapter_repair_is_lost :
  repairedChapter 2 "Caching Layer" "The cache keeps every answer."
    = "# Chapter 2: Caching Layer

The cache keeps every answer." /\
  fst (@writeChapter fencedChapter "demo" "english" [] [cachingLayer]
         [cachingChapter] "" cachingChapter cachingLayer initialState)
    = Success (VStr "The cache keeps every answer.") /\
  headingMatches 2 "Caching Layer" "The cache keeps every answer." = false /\
  fst (@writeChapter plainChapter "demo" "english" [] [cachingLayer]
         [cachingChapter] "" cachingChapter cachingLayer initialState)
    = Failure "Failed to parse LLM response: Could not find YAML block in LLM response.. Response:
The cache keeps every answer...." /\
  gatewayCalls (snd (@writeChapter plainChapter "demo" "english" [] [cachingLayer]
         [cachingChapter] "" cachingChapter cachingLayer initialState)) = 3.
Proof. repeat split; reflexivity. Qed.

(** ** Sets of numbers *)

Section NumberFacts.

Lemma sameValueZero_refl (a : number) : Num.sameValueZero a a = true.
Proof.
  destruct a as [|s|q]; simpl; [reflexivity|by destruct s|].
  apply Qeq_bool_iff. reflexivity.
Qed.

Lemma sameValueZero_sym (a b : number) :
  Num.sameValueZero a b = Num.sameValueZero b a.
Proof.
  destruct a as [|s|x], b as [|t|y]; simpl; try reflexivity.
  - by destruct s, t.
  - apply eq_true_iff_eq. rewrite !Qeq_bool_iff. split; intros E; by symmetry.
Qed.

Lemma sameValueZero_trans (a b c : number) :
  Num.sameValueZero a b = true -> Num.sameValueZero b c = true ->
  Num.sameValueZero a c = true.
Proof.
  destruct a as [|s|x], b as [|t|y], c as [|u|z]; simpl; try discriminate; auto.
  - destruct s, t, u; simpl; auto.
  - rewrite !Qeq_bool_iff. intros -> ->. reflexivity.
Qed.

Lemma has_true (x : number) (s : list number) :
  NumSet.has x s = true <-> exists y, In y s /\ Num.sameValueZero x y = true.
Proof. unfold NumSet.has. apply existsb_exists. Qed.

Lemma has_app (x : number) (s s' : list number) :
  NumSet.has x (s ++ s') = NumSet.has x s || NumSet.has x s'.
Proof. unfold NumSet.has. apply existsb_app. Qed.

Lemma has_add (x y : number) (s : list number) :
  NumSet.has x (NumSet.add y s) = NumSet.has x s || Num.sameValueZero x y.
Proof.
  unfold NumSet.add. destruct (NumSet.has y s) eqn:Hy.
  - destruct (Num.sameValueZero x y) eqn:Hxy; [|by rewrite orb_false_r].
    rewrite orb_true_r. apply has_true in Hy as (z & Hz & Hyz).
    apply has_true. exists z. split; [assumption|].
    by apply sameValueZero_trans with y.
  - rewrite has_app. simpl. by rewrite orb_false_r.
Qed.

Lemma has_mentionedIn_from (edges : list Relationship) (acc : list number) (x : number) :
  NumSet.has x
    (fold_left (fun s rel => NumSet.add (to rel) (NumSet.add (from rel) s)) edges acc)
    = true <->
  NumSet.has x acc = true \/
  exists rel, In rel edges /\
    (Num.sameValueZero x (from rel) = true \/ Num.sameValueZero x (to rel) = true).
Proof.
  revert acc. induction edges as [|rel edges IH]; intros acc; simpl.
  - split; [auto|]. intros [Ha | (rel & [] & _)]. assumption.
  - rewrite IH, !has_add, !orb_true_iff. split.
    + intros [[[Ha | Hf] | Ht] | (r & Hr & Hx)]; eauto 6.
    + intros [Ha | (r & [<- | Hr] & Hx)]; [auto | | eauto].
      destruct Hx; auto.
Qed.

Lemma has_mentionedIn (edges : list Relationship) (i : nat) :
  NumSet.has (Num.ofNat i) (mentionedIn edges) = true <-> mentions edges i.
Proof.
  unfold mentionedIn, mentions. rewrite has_mentionedIn_from. simpl.
  split; [intros [Hf | Hm]; [discriminate | assumption] | auto].
Qed.

Lemma in_missingFrom (count : nat) (s : list number) (m : nat) :
  In m (missingFrom count s) <-> m < count /\ NumSet.has (Num.ofNat m) s = false.
Proof.
  unfold missingFrom. rewrite filter_In, in_seq, negb_true_iff. intuition lia.
Qed.

Lemma NoDup_missingFrom (count : nat) (s : list number) :
  List.NoDup (missingFrom count s).
Proof. unfold missingFrom. apply List.NoDup_filter, seq_NoDup. Qed.

End NumberFacts.

(** ** The recovery utility [ensureAllAbstractionsInRelationships] *)

Section Ensure.

Lemma pushMissing_spec (missing : list nat) (s : string)
    (d : list Relationship) (r : list Relationship) :
  pushMissing {| summary := s; details := d; relationships := Some r |} missing
  = {| summary := s;
       details := d ++ map relatedTo missing;
       relationships := Some (r ++ map relatedTo missing) |}.
Proof.
  unfold pushMissing.
  revert d r. induction missing as [|m missing IH]; intros d r; simpl.
  - by rewrite !app_nil_r.
  - rewrite IH. by rewrite <- !app_assoc.
Qed.

Lemma missing_nil_covers (count : nat) (edges : list Relationship) :
  missingFrom count (mentionedIn edges) = [] <-> covers count edges.
Proof.
  split.
  - intros Hnil i Hi. apply has_mentionedIn.
    destruct (NumSet.has (Num.ofNat i) (mentionedIn edges)) eqn:Hh; [reflexivity|].
    assert (Hin : In i (missingFrom count (mentionedIn edges)))
      by (apply in_missingFrom; auto).
    rewrite Hnil in Hin. destruct Hin.
  - intros Hcov.
    destruct (missingFrom count (mentionedIn edges)) as [|m l] eqn:Hm; [reflexivity|].
    assert (Hin : In m (missingFrom count (mentionedIn edges)))
      by (rewrite Hm; left; reflexivity).
    apply in_missingFrom in Hin as [Hlt Hno].
    apply Hcov, has_mentionedIn in Hlt. congruence.
Qed.

End Ensure.

(** C7. For every relationship data [r] over the abstraction list [a]:
    - when every index below [|a|] is already the [from] or the [to] of an
      edge of [r], the result is [r];
    - otherwise the result is [r] with one edge from abstraction 0, labelled
      "Related to", appended for each missing index: the missing indices,
      each once, are exactly the indices below [|a|] that no edge of [r]
      mentions;
    - in both cases the edges of the result cover [{0 .. |a|-1}]. *)
Theorem ensureAllAbstractionsInRelationships_spec
    (r : RelationshipData) (a : list Abstraction) :
  let missing := missingFrom (length a) (mentionedIn (details r)) in
  let result := ensureAllAbstractionsInRelationships r a in
  (covers (length a) (details r) -> result = r) /\
  (~ covers (length a) (details r) ->
     summary result = summary r /\
     details result = details r ++ map relatedTo missing /\
     relationships result
       = Some (match relationships r with Some l => l | None => details r end
               ++ map relatedTo missing)) /\
  List.NoDup missing /\
  (forall m, In m missing <-> m < length a /\ ~ mentions (details r) m) /\
  covers (length a) (details result).
Proof.
  intros missing result.
  assert (Hmiss : forall m, In m missing <-> m < length a /\ ~ mentions (details r) m).
  { intros m. unfold missing. rewrite in_missingFrom, <- has_mentionedIn.
    by rewrite not_true_iff_false. }
  assert (Hres : missing <> [] ->
            result = {| summary := summary r;
                        details := details r ++ map relatedTo missing;
                        relationships :=
                          Some (match relationships r with
                                | Some l => l | None => details r end
                                ++ map relatedTo missing) |}).
  { intros Hne. unfold result, ensureAllAbstractionsInRelationships.
    fold missing. destruct missing as [|m l] eqn:Hm; [congruence|].
    change (length (m :: l) =? 0)%nat with false. cbv iota.
    apply (pushMissing_spec (m :: l)). }
  split; [|split; [|split; [|split]]].
  - intros Hcov. apply missing_nil_covers in Hcov.
    unfold result, ensureAllAbstractionsInRelationships. by rewrite Hcov.
  - intros Hncov. rewrite Hres; [auto|].
    intros Hnil. apply Hncov, missing_nil_covers. exact Hnil.
  - apply NoDup_missingFrom.
  - exact Hmiss.
  - intros i Hi.
    destruct (NumSet.has (Num.ofNat i) (mentionedIn (details r))) eqn:Hh.
    + apply has_mentionedIn in Hh as (rel & Hin & Hx).
      exists rel. split; [|assumption].
      destruct missing as [|m l] eqn:Hm.
      * unfold result, ensureAllAbstractionsInRelationships. fold missing.
        by rewrite Hm.
      * rewrite Hres by discriminate. simpl. apply in_or_app. by left.
    + assert (Hin : In i missing).
      { apply Hmiss. split; [assumption|]. rewrite <- has_mentionedIn. congruence. }
      rewrite Hres by (intros E; rewrite E in Hin; destruct Hin).
      exists (relatedTo i). split.
      * simpl. apply in_or_app. right. by apply in_map.
      * right. apply (sameValueZero_refl (Num.ofNat i)).
Qed.

(** ** Chapter filenames *)

Section Decimal.

Lemma append_String (c : ascii) (s t : string) :
  String c s +:+ t = String c (s +:+ t).
Proof. reflexivity. Qed.

Lemma digit_not_space (c : ascii) :
  Js.isDigit c = true -> Js.isWhiteSpace c = false.
Proof.
  unfold Js.isDigit, Js.isWhiteSpace. cbv zeta.
  rewrite andb_true_iff, !N.leb_le. intros [H1 H2].
  rewrite !orb_false_iff, andb_false_iff, !N.leb_gt, !N.eqb_neq. lia.
Qed.

(** Reading back the digits written for [d], in front of a character that
    is not a digit. *)
Lemma readDigits_string_of_uint (d : Decimal.uint) (c : ascii) (rest : string)
    (acc : nat) (seen : bool) :
  Js.isDigit c = false ->
  Js.readDigits (NilEmpty.string_of_uint d +:+ String c rest) (Z.of_nat acc) seen
  = match d with
    | Decimal.Nil => if seen then Some (Z.of_nat acc) else None
    | _ => Some (Z.of_nat (Nat.of_uint_acc d acc))
    end.
Proof.
  intros Hc. revert acc seen.
  assert (Hstop : forall a s,
            Js.readDigits (String c rest) (Z.of_nat a) s
            = if s then Some (Z.of_nat a) else None).
  { intros a s. simpl. by rewrite Hc. }
  assert (Hstep : forall k a, (k < 10)%nat ->
            (10 * Z.of_nat a + Z.of_nat k)%Z
            = Z.of_nat (k + Nat.tail_mul 10 a)).
  { intros k a _. rewrite Nat.tail_mul_spec. lia. }
  induction d as [|d IH|d IH|d IH|d IH|d IH|d IH|d IH|d IH|d IH|d IH];
    intros acc seen; [apply Hstop|..];
    cbn [NilEmpty.string_of_uint Nat.of_uint_acc];
    rewrite append_String; cbn [Js.readDigits];
    match goal with
    | |- context [Js.isDigit ?ch] =>
        change (Js.isDigit ch) with true; cbv iota;
        change (Js.digitValue ch) with (Z.of_nat (Z.to_nat (Js.digitValue ch)))
    end;
    rewrite Hstep by (vm_compute; lia);
    rewrite IH; destruct d; reflexivity.
Qed.

Lemma ofNat_head (n : nat) :
  exists c r, Js.ofNat n = String c r /\ Js.isDigit c = true.
Proof.
  unfold Js.ofNat, NilZero.string_of_uint.
  destruct (Nat.to_uint n); simpl; eauto.
Qed.

Lemma readDigits_ofNat (n : nat) (c : ascii) (rest : string) (seen : bool) :
  Js.isDigit c = false ->
  Js.readDigits (Js.ofNat n +:+ String c rest) 0%Z seen = Some (Z.of_nat n).
Proof.
  intros Hc. unfold Js.ofNat, NilZero.string_of_uint.
  pose proof (Unsigned.of_to n) as Hn. unfold Nat.of_uint in Hn.
  destruct (Nat.to_uint n) eqn:Hd;
    try (rewrite (readDigits_string_of_uint _ c rest 0 seen Hc); by rewrite Hn).
  simpl in Hn. subst n. simpl. by rewrite Hc.
Qed.

(** The ordinal can be read back from a padded ordinal followed by an
    underscore. *)
Lemma parseInt_padded (n : nat) (rest : string) :
  Js.parseInt (Js.padStart2 (Js.ofNat n) +:+ "_" +:+ rest) = Some (Z.of_nat n).
Proof.
  assert (Hu : Js.isDigit "_" = false) by reflexivity.
  pose proof (fun seen => readDigits_ofNat n "_" rest seen Hu) as Hread.
  destruct (ofNat_head n) as (c & r & Hs & Hd).
  assert (Hparse : forall s, Js.parseInt (String c s) = Js.readDigits (String c s) 0%Z false).
  { intros s. unfold Js.parseInt. simpl. rewrite (digit_not_space c Hd).
    assert (Ascii.eqb c "-" = false /\ Ascii.eqb c "+" = false) as [-> ->];
      [|reflexivity].
    destruct c as [[] [] [] [] [] [] [] []]; try discriminate Hd; split; reflexivity. }
  unfold Js.padStart2. rewrite Hs in *.
  destruct r as [|c' r']; simpl String.length; cbv iota.
  - change (Js.readDigits (String c ("_" +:+ rest)) 0%Z true = Some (Z.of_nat n)).
    apply (Hread true).
  - change (String c (String c' r') +:+ "_" +:+ rest)
      with (String c ((String c' r') +:+ "_" +:+ rest)).
    rewrite Hparse. apply (Hread false).
Qed.

End Decimal.

Lemma parseInt_chapterFilename (chapterNum : nat) (title : string) :
  Js.parseInt (chapterFilename chapterNum title) = Some (Z.of_nat chapterNum).
Proof. unfold chapterFilename. apply parseInt_padded. Qed.

Section FileInfos.
Variable abstractions : list Abstraction.

(** The first pass numbers the chapters by their position: the numbers
    grow, and each filename is the one derived from number and title. *)
Lemma chapterFileInfos_invariant (chapterOrder : list number) (i : nat)
    (acc infos : list ChapterInfo) :
  chapterFileInfos abstractions chapterOrder i acc = inr infos ->
  Forall (fun info => num info <= i) acc ->
  StronglySorted lt (map num acc) ->
  Forall (fun info => filename info = chapterFilename (num info) (chapterName info)) acc ->
  StronglySorted lt (map num infos) /\
  Forall (fun info => filename info = chapterFilename (num info) (chapterName info)) infos.
Proof.
  revert i acc. induction chapterOrder as [|absIndex rest IH]; intros i acc; simpl.
  - intros [= <-]. auto.
  - intros Hrun Hle Hsorted Hnames.
    assert (Hle' : Forall (fun info => num info <= S i) acc).
    { eapply Forall_impl; [exact Hle|]. simpl. intros. lia. }
    destruct (Num.ge absIndex (Num.ofNat 0) && Num.lt absIndex _); [|by eapply IH].
    destruct (Num.arrayIndex absIndex ≫= _) as [a|]; [|discriminate].
    eapply IH; [exact Hrun|..].
    + apply Forall_app. split; [assumption|]. constructor; [simpl; lia|constructor].
    + rewrite map_app. simpl.
      clear -Hle Hsorted. induction acc as [|x acc IHacc]; simpl.
      * constructor; constructor.
      * inversion Hle; subst. inversion Hsorted; subst.
        constructor; [by apply IHacc|].
        apply Forall_app. split; [assumption|]. constructor; [lia|constructor].
    + apply Forall_app. split; [assumption|]. constructor; [reflexivity|constructor].
Qed.

End FileInfos.

Lemma StronglySorted_lt_NoDup (l : list nat) : StronglySorted lt l -> List.NoDup l.
Proof.
  induction 1 as [|x l Hs IH Hx]; constructor; [|assumption].
  intros Hin. rewrite List.Forall_forall in Hx. specialize (Hx x Hin). lia.
Qed.

Lemma chapterFileInfos_filenames_NoDup (abstractions : list Abstraction)
    (chapterOrder : list number) (infos : list ChapterInfo) :
  chapterFileInfos abstractions chapterOrder 0 [] = inr infos ->
  List.NoDup (map filename infos).
Proof.
  intros Hrun.
  destruct (chapterFileInfos_invariant abstractions chapterOrder 0 [] infos Hrun)
    as [Hsorted Hnames]; [constructor..|].
  apply (NoDup_map_inv Js.parseInt). rewrite map_map.
  rewrite (map_ext_in _ (fun info => Some (Z.of_nat (num info)))).
  - rewrite <- (map_map num (fun k => Some (Z.of_nat k))).
    apply Finite.Injective_map_NoDup.
    + intros x y [= E]. lia.
    + by apply StronglySorted_lt_NoDup.
  - intros info Hin. rewrite List.Forall_forall in Hnames.
    rewrite (Hnames info Hin). apply parseInt_chapterFilename.
Qed.

(** C8 (amended). The filenames are computed from the chapter order and
    the abstractions alone, in the first pass, before any chapter is
    written.  Each is the chapter number padded to two digits, an underscore,
    the sanitized title (or [chapter_<number>] when the sanitized title is
    empty) and [.md]; the chapter numbers grow along the list, and two
    different chapters have different filenames. *)
Theorem chapter_filenames_distinct (abstractions : list Abstraction)
    (chapterOrder : list number) (infos : list ChapterInfo) :
  chapterFileInfos abstractions chapterOrder 0 [] = inr infos ->
  Forall (fun info =>
            filename info
            = Js.padStart2 (Js.ofNat (num info)) +:+ "_"
              +:+ (if Js.isEmpty (sanitizeFilename (chapterName info))
                   then "chapter_" +:+ Js.ofNat (num info)
                   else sanitizeFilename (chapterName info))
              +:+ ".md") infos /\
  StronglySorted lt (map num infos) /\
  (forall i j a b,
     infos !! i = Some a -> infos !! j = Some b -> i <> j ->
     filename a <> filename b).
Proof.
  intros Hrun.
  destruct (chapterFileInfos_invariant abstractions chapterOrder 0 [] infos Hrun)
    as [Hsorted Hnames]; [constructor..|].
  split; [exact Hnames|]. split; [exact Hsorted|].
  pose proof (chapterFileInfos_filenames_NoDup _ _ _ Hrun) as Hnodup.
  intros i j a b Ha Hb Hij Heq.
  apply NoDup_ListNoDup in Hnodup.
  change (map filename infos) with (filename <$> infos) in Hnodup.
  apply Hij. apply (NoDup_lookup (filename <$> infos) i j (filename a)).
  - exact Hnodup.
  - by rewrite list_lookup_fmap, Ha.
  - by rewrite list_lookup_fmap, Hb, Heq.
Qed.

Lemma chapter_filenames_distinct_witness :
  Forall (fun info =>
            filename info
            = Js.padStart2 (Js.ofNat (num info)) +:+ "_"
              +:+ (if Js.isEmpty (sanitizeFilename (chapterName info))
                   then "chapter_" +:+ Js.ofNat (num info)
                   else sanitizeFilename (chapterName info))
              +:+ ".md")
    [ {| index := Num.ofNat 1; num := 1; chapterName := "Caching Layer";
         filename := "01_Caching_Layer.md" |};
      {| index := Num.ofNat 0; num := 2; chapterName := "???";
         filename := "02_chapter_2.md" |} ] /\
  StronglySorted lt
    (map num
       [ {| index := Num.ofNat 1; num := 1; chapterName := "Caching Layer";
            filename := "01_Caching_Layer.md" |};
         {| index := Num.ofNat 0; num := 2; chapterName := "???";
            filename := "02_chapter_2.md" |} ]) /\
  (forall i j a b,
     [ {| index := Num.ofNat 1; num := 1; chapterName := "Caching Layer";
          filename := "01_Caching_Layer.md" |};
       {| index := Num.ofNat 0; num := 2; chapterName := "???";
          filename := "02_chapter_2.md" |} ] !! i = Some a ->
     [ {| index := Num.ofNat 1; num := 1; chapterName := "Caching Layer";
          filename := "01_Caching_Layer.md" |};
       {| index := Num.ofNat 0; num := 2; chapterName := "???";
          filename := "02_chapter_2.md" |} ] !! j = Some b ->
     i <> j -> filename a <> filename b).
Proof.
  apply (chapter_filenames_distinct [questionMarks; cachingLayer]
           [Num.ofNat 1; Num.ofNat 0]).
  reflexivity.
Defined.

(** C8 as stated fails on a title without ASCII letters or digits: its
    sanitized form is empty, and the filename is not the padded number, an
    underscore, the sanitized title and [.md]. *)
Lemma chapter_filename_counterexample :
  chapterFileInfos [questionMarks] [Num.ofNat 0] 0 []
    = inr [ {| index := Num.ofNat 0; num := 1; chapterName := "???";
               filename := "01_chapter_1.md" |} ] /\
  sanitizeFilename "???" = "" /\
  "01_chapter_1.md"
    <> Js.padStart2 (Js.ofNat 1) +:+ "_" +:+ sanitizeFilename "???" +:+ ".md".
Proof.
  split; [reflexivity|]. split; [reflexivity|].
  vm_compute. discriminate.
Qed.

(** ** Abstraction discovery: the file indices *)

Section Order.

Lemma below_Finite (a b : Q) : below (Finite a) (Finite b) <-> (a < b)%Q.
Proof.
  unfold below. simpl. rewrite negb_true_iff, <- not_true_iff_false, Qle_bool_iff.
  split; [apply Qnot_le_lt | apply Qlt_not_le].
Qed.

Lemma apart_Finite (a b : Q) : apart (Finite a) (Finite b) <-> ~ (a == b)%Q.
Proof.
  unfold apart. simpl. by rewrite <- not_true_iff_false, Qeq_bool_iff.
Qed.

Lemma inInterval_finite (bound : nat) (n : number) :
  inInterval bound n -> exists q, n = Finite q.
Proof. destruct n; simpl; [tauto|tauto|eauto]. Qed.

Lemma below_apart (a b : number) : below a b -> apart a b.
Proof.
  destruct a as [|s|x], b as [|t|y]; unfold below, apart; simpl; try discriminate;
    try reflexivity.
  - destruct s, t; simpl; try discriminate; reflexivity.
  - intros Hlt. apply (below_Finite x y) in Hlt. apply (apart_Finite x y).
    intros E. rewrite E in Hlt. by apply Qlt_irrefl in Hlt.
Qed.

Lemma below_trans (bound : nat) (a b c : number) :
  inInterval bound a -> inInterval bound b -> inInterval bound c ->
  below a b -> below b c -> below a c.
Proof.
  intros [x ->]%inInterval_finite [y ->]%inInterval_finite [z ->]%inInterval_finite.
  rewrite !below_Finite. apply Qlt_trans.
Qed.

(** Two numbers of the interval that are apart are ordered one way or the
    other. *)
Lemma apart_below (bound : nat) (a b : number) :
  inInterval bound a -> inInterval bound b ->
  apart a b -> Num.lt a b = false -> below b a.
Proof.
  intros [x ->]%inInterval_finite [y ->]%inInterval_finite.
  rewrite apart_Finite, below_Finite. simpl.
  rewrite negb_false_iff, Qle_bool_iff. intros Hne Hle.
  apply Qle_lt_or_eq in Hle as [Hlt | Heq]; [assumption|].
  exfalso. apply Hne. by symmetry.
Qed.

Lemma inRange_inInterval (n : number) (bound : nat) :
  outOfRange n bound = false -> inInterval bound n.
Proof.
  unfold outOfRange. rewrite !orb_false_iff. intros [[Hnan Hlt] Hge].
  destruct n as [|s|q]; simpl in *; [discriminate| by destruct s |].
  rewrite negb_false_iff, Qle_bool_iff in Hlt.
  rewrite <- not_true_iff_false, Qle_bool_iff in Hge.
  split; [exact Hlt | by apply Qnot_le_lt].
Qed.

Lemma inInterval_inRange (n : number) (bound : nat) :
  inInterval bound n -> outOfRange n bound = false.
Proof.
  destruct n as [|s|q]; simpl; [tauto|tauto|]. intros [H0 Hb].
  unfold outOfRange. simpl. rewrite !orb_false_iff, negb_false_iff.
  split; [by apply Qle_bool_iff|].
  rewrite <- not_true_iff_false, Qle_bool_iff. by apply Qlt_not_le.
Qed.

End Order.

Section SetAndSort.
Variable bound : nat.

Lemma StronglySorted_snoc {A} (R : A -> A -> Prop) (l : list A) (x : A) :
  StronglySorted R l -> (forall y, In y l -> R y x) ->
  StronglySorted R (l ++ [x]).
Proof.
  induction 1 as [|y l Hs IH Hy]; intros Hx; simpl.
  - constructor; constructor.
  - constructor.
    + apply IH. intros z Hz. apply Hx. by right.
    + apply Forall_app. split; [assumption|].
      constructor; [apply Hx; by left | constructor].
Qed.

Lemma add_spec (x : number) (s : list number) :
  Forall (inInterval bound) s -> inInterval bound x -> StronglySorted apart s ->
  Forall (inInterval bound) (NumSet.add x s) /\
  StronglySorted apart (NumSet.add x s).
Proof.
  intros Hs Hx Hd. unfold NumSet.add.
  destruct (NumSet.has x s) eqn:Hh; [auto|]. split.
  - apply Forall_app. split; [assumption|]. by constructor.
  - apply StronglySorted_snoc; [assumption|].
    intros y Hy. unfold apart. rewrite sameValueZero_sym.
    apply not_true_iff_false. intros Hxy.
    assert (NumSet.has x s = true) by (apply has_true; eauto). congruence.
Qed.

Lemma ofList_spec (l acc : list number) :
  Forall (inInterval bound) l ->
  Forall (inInterval bound) acc -> StronglySorted apart acc ->
  Forall (inInterval bound) (fold_left (fun s x => NumSet.add x s) l acc) /\
  StronglySorted apart (fold_left (fun s x => NumSet.add x s) l acc).
Proof.
  revert acc. induction l as [|x l IH]; intros acc Hl Ha Hd; simpl; [auto|].
  inversion Hl; subst.
  destruct (add_spec x acc) as [Ha' Hd']; auto.
Qed.

(** Inserting a number that is apart from the members keeps the order
    strict. *)
Lemma insertSorted_spec (x : number) (l : list number) :
  inInterval bound x -> Forall (inInterval bound) l ->
  (forall y, In y l -> apart y x) ->
  StronglySorted below l ->
  StronglySorted below (insertSorted x l) /\
  (forall z, In z (insertSorted x l) <-> z = x \/ In z l).
Proof.
  intros Hx. induction l as [|y r IH]; intros Hl Hap Hs; simpl.
  - split; [constructor; constructor | intros z; simpl; intuition congruence].
  - inversion Hl as [|? ? Hy Hr]; subst. inversion Hs as [|? ? Hsr Hyr]; subst.
    assert (Hyx : apart y x) by (apply Hap; by left).
    unfold apart in Hyx. rewrite Hyx, orb_false_r.
    destruct (Num.lt y x) eqn:Hlt.
    + destruct IH as [IHs IHin]; auto.
      { intros z Hz. apply Hap. by right. }
      split.
      * constructor; [assumption|]. apply List.Forall_forall. intros z Hz.
        apply IHin in Hz as [-> | Hz]; [exact Hlt|].
        rewrite List.Forall_forall in Hyr. by apply Hyr.
      * intros z. simpl. rewrite IHin. intuition congruence.
    + assert (Hxy : below x y) by (eapply apart_below; eauto).
      split; [|intros z; simpl; intuition congruence].
      constructor; [by constructor|]. constructor; [assumption|].
      apply List.Forall_forall. intros z Hz.
      rewrite List.Forall_forall in Hyr, Hr.
      apply (below_trans bound x y z); auto.
Qed.

Lemma sortAscending_spec (l acc : list number) :
  Forall (inInterval bound) l -> StronglySorted apart l ->
  Forall (inInterval bound) acc -> StronglySorted below acc ->
  (forall a x, In a acc -> In x l -> apart a x) ->
  Forall (inInterval bound) (fold_left (fun acc x => insertSorted x acc) l acc) /\
  StronglySorted below (fold_left (fun acc x => insertSorted x acc) l acc).
Proof.
  revert acc. induction l as [|x l IH]; intros acc Hl Hd Ha Hs Hap; simpl; [auto|].
  inversion Hl as [|? ? Hx Hl']; subst. inversion Hd as [|? ? Hd' Hxl]; subst.
  destruct (insertSorted_spec x acc) as [Hs' Hin]; auto.
  { intros y Hy. apply Hap; [assumption | by left]. }
  apply IH; auto.
  - apply List.Forall_forall. intros z Hz. apply Hin in Hz as [-> | Hz]; [assumption|].
    rewrite List.Forall_forall in Ha. by apply Ha.
  - intros a z Ha' Hz. apply Hin in Ha' as [-> | Ha'].
    + rewrite List.Forall_forall in Hxl. by apply Hxl.
    + apply Hap; [assumption | by right].
Qed.

Lemma StronglySorted_below_apart (l : list number) :
  StronglySorted below l -> StronglySorted apart l.
Proof.
  induction 1 as [|x l Hs IH Hx]; constructor; [assumption|].
  eapply Forall_impl; [exact Hx|]. intros y. apply below_apart.
Qed.

(** [[...new Set(indices)].sort((a, b) => a - b)] of in-range indices is
    normalized. *)
Lemma normalize_indices (indices : list number) :
  Forall (inInterval bound) indices ->
  normalized bound (sortAscending (NumSet.ofList indices)).
Proof.
  intros Hl. unfold normalized, sortAscending, NumSet.ofList.
  destruct (ofList_spec indices []) as [Hs Hd]; auto; [constructor..|].
  destruct (sortAscending_spec
              (fold_left (fun s x => NumSet.add x s) indices []) [])
    as [Hi Hsorted]; auto; [constructor.. | intros a x [] |].
  split; [assumption|]. split; [assumption|].
  by apply StronglySorted_below_apart.
Qed.

Lemma has_ofList (x : number) (l acc : list number) :
  NumSet.has x (fold_left (fun s y => NumSet.add y s) l acc)
  = NumSet.has x acc || NumSet.has x l.
Proof.
  revert acc. induction l as [|y l IH]; intros acc; cbn [fold_left].
  - by rewrite orb_false_r.
  - rewrite IH, has_add.
    change (NumSet.has x (y :: l)) with (Num.sameValueZero x y || NumSet.has x l).
    by rewrite orb_assoc.
Qed.

Lemma has_insertSorted (x y : number) (l : list number) :
  NumSet.has x (insertSorted y l) = Num.sameValueZero x y || NumSet.has x l.
Proof.
  induction l as [|z r IH]; [reflexivity|].
  cbn [insertSorted]. destruct (Num.lt z y || Num.sameValueZero z y); [|reflexivity].
  change (NumSet.has x (z :: insertSorted y r))
    with (Num.sameValueZero x z || NumSet.has x (insertSorted y r)).
  change (NumSet.has x (z :: r)) with (Num.sameValueZero x z || NumSet.has x r).
  rewrite IH. by rewrite !orb_assoc, (orb_comm (Num.sameValueZero x z)).
Qed.

Lemma has_sortAscending (x : number) (l acc : list number) :
  NumSet.has x (fold_left (fun acc y => insertSorted y acc) l acc)
  = NumSet.has x acc || NumSet.has x l.
Proof.
  revert acc. induction l as [|y l IH]; intros acc; cbn [fold_left].
  - by rewrite orb_false_r.
  - rewrite IH, has_insertSorted.
    change (NumSet.has x (y :: l)) with (Num.sameValueZero x y || NumSet.has x l).
    by rewrite (orb_comm (Num.sameValueZero x y)), orb_assoc.
Qed.

(** Normalizing neither adds nor loses an index. *)
Lemma has_normalized (x : number) (indices : list number) :
  NumSet.has x (sortAscending (NumSet.ofList indices)) = NumSet.has x indices.
Proof.
  unfold sortAscending, NumSet.ofList. by rewrite has_sortAscending, has_ofList.
Qed.

End SetAndSort.

Section AbstractionsValidator.
Context `{Externals}.
Variable fileCount : nat.

Lemma lookup_assign_same (k : string) (x : value) (fields : list (string * value)) :
  Val.lookupField k (Val.assignField k x fields) = Some x.
Proof.
  induction fields as [|[k' y] r IH]; simpl.
  - by rewrite String.eqb_refl.
  - destruct (String.eqb k k') eqn:E; simpl; [by rewrite String.eqb_refl|].
    by rewrite E.
Qed.

Lemma collectFileIndices_passes (itemName : string) (entries : list value)
    (acc indices : list number) :
  collectFileIndices fileCount itemName entries acc = Passes indices ->
  exists converted,
    entryIndices entries = inr converted /\
    indices = acc ++ converted /\
    (Forall (inInterval fileCount) acc ->
     Forall (inInterval fileCount) indices).
Proof.
  revert acc. induction entries as [|entry rest IH]; intros acc; simpl.
  - intros [= <-]. exists []. by rewrite app_nil_r.
  - destruct (entryIndex entry) as [message|idx]; [discriminate|].
    destruct (outOfRange idx fileCount) eqn:Hr.
    { destruct (jsString entry); discriminate. }
    intros Hrun. destruct (IH _ Hrun) as (converted & -> & -> & Hall).
    exists (idx :: converted). split; [reflexivity|]. split.
    + by rewrite <- app_assoc.
    + intros Hacc. apply Hall.
      apply Forall_app. split; [assumption|].
      constructor; [by apply inRange_inInterval | constructor].
Qed.

(** An entry that stands for no number of the range, or for none at all,
    stops the loop. *)
Lemma collectFileIndices_stops (itemName : string) (entries : list value)
    (acc : list number) (entry : value) :
  In entry entries ->
  (forall idx, entryIndex entry = inr idx -> outOfRange idx fileCount = true) ->
  forall indices, collectFileIndices fileCount itemName entries acc <> Passes indices.
Proof.
  revert acc. induction entries as [|e rest IH]; intros acc; simpl; [tauto|].
  intros [-> | Hin] Hbad indices.
  - destruct (entryIndex entry) as [message|idx]; [discriminate|].
    rewrite (Hbad idx eq_refl). destruct (jsString entry); discriminate.
  - destruct (entryIndex e) as [message|idx]; [discriminate|].
    destruct (outOfRange idx fileCount); [destruct (jsString e); discriminate|].
    by apply IH.
Qed.

(** An item that passes the loop body has its [files] normalized. *)
Lemma checkAbstraction_passes (item item' : value) :
  checkAbstraction fileCount item = Passes item' ->
  filesNormalized fileCount item item'.
Proof.
  unfold checkAbstraction, filesNormalized.
  destruct (negb (Val.truthy item) || _ || _ || _); [discriminate|].
  destruct item as [| | | |items|fields];
    try (destruct (jsStringOpt _); discriminate).
  destruct (Val.get "name" (VObj fields)) as [[| | |itemName| |]|];
    try (destruct (jsStringOpt _); discriminate).
  destruct (Val.get "description" (VObj fields)) as [[| | |d| |]|];
    try (destruct (jsStringOpt _); discriminate).
  unfold fileIndicesOf.
  destruct (Val.orElse _ _) as [[| | | |fileIndices|]|]; try discriminate.
  destruct (collectFileIndices fileCount itemName fileIndices []) as [indices| |] eqn:Hc;
    try discriminate.
  destruct (collectFileIndices_passes _ _ _ _ Hc) as (converted & Hconv & Hindices & Hrange).
  simpl in Hindices. subst indices.
  intros [= <-]. exists fileIndices, converted, (sortAscending (NumSet.ofList converted)).
  split; [reflexivity|]. split; [assumption|]. split; [|split].
  - simpl. apply lookup_assign_same.
  - apply normalize_indices. apply Hrange. constructor.
  - intros x. by rewrite has_normalized.
Qed.

(** An item with an entry that is not in range does not pass. *)
Lemma checkAbstraction_stops (item : value) (entries : list value) (entry : value) :
  fileIndicesOf item = Some (VArr entries) ->
  In entry entries ->
  (forall idx, entryIndex entry = inr idx -> outOfRange idx fileCount = true) ->
  forall item', checkAbstraction fileCount item <> Passes item'.
Proof.
  unfold checkAbstraction, fileIndicesOf. intros Hf Hin Hbad item'.
  destruct (negb (Val.truthy item) || _ || _ || _); [discriminate|].
  destruct (Val.get "name" item) as [[| | |itemName| |]|];
    try (destruct (jsStringOpt _); discriminate).
  destruct (Val.get "description" item) as [[| | |d| |]|];
    try (destruct (jsStringOpt _); discriminate).
  rewrite Hf.
  pose proof (collectFileIndices_stops itemName entries [] entry Hin Hbad) as Hstop.
  destruct (collectFileIndices fileCount itemName entries []) as [indices| |];
    [by destruct (Hstop indices) | discriminate | discriminate].
Qed.

Lemma checkAbstractions_accepted (items items' : list value) :
  checkAbstractions fileCount items = (Accepted, items') ->
  Forall2 (filesNormalized fileCount) items items'.
Proof.
  revert items'. induction items as [|item rest IH]; intros items'; simpl.
  - intros [= <-]. constructor.
  - destruct (checkAbstraction fileCount item) as [item1|reason|message] eqn:Hc;
      try discriminate.
    destruct (checkAbstractions fileCount rest) as [r rest'] eqn:Hrest.
    intros [= -> <-].
    constructor; [by apply checkAbstraction_passes | by apply IH].
Qed.

Lemma checkAbstractions_stops (items : list value) (item : value) :
  In item items ->
  (forall item', checkAbstraction fileCount item <> Passes item') ->
  fst (checkAbstractions fileCount items) <> Accepted.
Proof.
  induction items as [|item0 rest IH]; simpl; [tauto|].
  intros [-> | Hin] Hbad.
  - destruct (checkAbstraction fileCount item) as [item1| |];
      [by destruct (Hbad item1) | discriminate | discriminate].
  - destruct (checkAbstraction fileCount item0) as [item1| |]; try discriminate.
    pose proof (IH Hin Hbad) as Hr.
    by destruct (checkAbstractions fileCount rest).
Qed.

End AbstractionsValidator.

(** What the discovery validator guarantees of the [files] it stores.  For
    every output it accepts, each record leaves with a [files] list that
    holds the numbers its entries stand for, in strictly ascending order,
    without duplicates, each a finite number [q] with [0 <= q < fileCount];
    and an output with a record one of whose entries stands for NaN, for a
    negative number or for a number not below [fileCount], or has no string
    form, is not accepted: the validator returns a reason or throws. *)
Lemma abstractions_files_interval `{Externals} (fileCount : nat) (parsed : value) :
  (forall parsed',
     abstractionsValidator fileCount parsed = (Accepted, parsed') ->
     exists items items',
       parsed = VArr items /\ parsed' = VArr items' /\
       Forall2 (filesNormalized fileCount) items items') /\
  (forall items item entries entry,
     parsed = VArr items -> In item items ->
     fileIndicesOf item = Some (VArr entries) -> In entry entries ->
     (forall idx, entryIndex entry = inr idx ->
        Num.isNaN idx = true \/ below idx (Num.ofNat 0) \/
        Num.ge idx (Num.ofNat fileCount) = true) ->
     exists message,
       fst (abstractionsValidator fileCount parsed) = Refused message \/
       fst (abstractionsValidator fileCount parsed) = Thrown message).
Proof.
  split.
  - intros parsed'. unfold abstractionsValidator.
    destruct parsed as [| | | |items|]; try discriminate.
    destruct (checkAbstractions fileCount items) as [r items'] eqn:Hc.
    intros [= -> <-]. pose proof (checkAbstractions_accepted _ _ _ Hc) as Hall.
    exists items, items'. auto.
  - intros items item entries entry -> Hin Hf Hentry Hbad.
    assert (Hout : forall idx, entryIndex entry = inr idx ->
                               outOfRange idx fileCount = true).
    { intros idx Hidx. specialize (Hbad idx Hidx).
      unfold outOfRange, below in *. rewrite !orb_true_iff. tauto. }
    pose proof (checkAbstractions_stops fileCount items item Hin
                  (checkAbstraction_stops fileCount item entries entry Hf Hentry Hout))
      as Hr.
    unfold abstractionsValidator.
    destruct (checkAbstractions fileCount items) as [[|reason|message] items'];
      simpl in *; [by destruct Hr | eauto | eauto].
Qed.

(** ** The pipeline driver *)

Section LoopSuccess.
Context `{Externals}.
Variable promptGenerator : unit -> string + string.
Variable parser : string -> string + value.
Variable validator : Validator.
Variable useCache : bool.

(** Data comes out of the loop only through the validator. *)
Lemma attempt_Done (i : nat) (st st' : LlmState) (data : value) :
  attempt promptGenerator parser validator useCache i st = (Done data, st') ->
  exists v, validator v = (Accepted, data).
Proof.
  unfold attempt, afterGateway, examine.
  destruct (promptGenerator tt) as [message|prompt]; [discriminate|].
  destruct (callLlm _ _ _) as [r st1].
  destruct (usableText r) as [t|]; [|discriminate].
  destruct (extractBlock parser t) as [m|v]; [discriminate|].
  destruct (validator v) as [[|reason|m] v'] eqn:Hv; try discriminate.
  intros [= <- _]. eauto.
Qed.

Lemma retryFrom_Success (n i : nat) (lastError : string) (st st' : LlmState)
    (data : value) :
  retryFrom promptGenerator parser validator useCache n i lastError st
    = (Success data, st') ->
  exists v, validator v = (Accepted, data).
Proof.
  revert i lastError st. induction n as [|n IH]; intros i lastError st; simpl.
  - discriminate.
  - destruct (attempt _ _ _ _ i st) as [[d|e] st1] eqn:Ha.
    + intros [= <- _]. by eapply attempt_Done.
    + apply IH.
Qed.

End LoopSuccess.

Section AcceptedData.
Context `{Externals}.

Lemma abstractionsValidator_accepted (fileCount : nat) (v data : value) :
  abstractionsValidator fileCount v = (Accepted, data) ->
  exists items, data = VArr items.
Proof.
  unfold abstractionsValidator. destruct v as [| | | |items|]; try discriminate.
  destruct (checkAbstractions fileCount items) as [r items'].
  intros [= _ <-]. eauto.
Qed.

Lemma relationshipsValidator_accepted (count : nat) (v data : value) :
  relationshipsValidator count v = (Accepted, data) ->
  Val.truthy data = true.
Proof.
  unfold relationshipsValidator.
  destruct (negb (Val.truthy v) || negb (Val.isObjectType v) || _) eqn:Hguard;
    [discriminate|].
  destruct (negb (Val.truthyOpt _) && _); [discriminate|].
  destruct (Val.orElse _ _) as [[| | | |relArray|]|]; try discriminate.
  destruct (checkRelationships count relArray []) as [r relArray'].
  apply orb_false_iff in Hguard as [Hguard Hsummary].
  apply orb_false_iff in Hguard as [Htruthy Hobject].
  destruct v as [| | | |items|fields]; try discriminate.
  destruct r as [reason|m]; [discriminate|]. by intros [= _ <-].
Qed.

Lemma checkOrder_passes (count : nat) (entries : list value)
    (seen ordered seen' ordered' : list number) :
  checkOrder count entries seen ordered = Passes (seen', ordered') ->
  exists chapterOrder,
    entryIndices entries = inr chapterOrder /\
    ordered' = ordered ++ chapterOrder /\
    Forall (fun idx => outOfRange idx count = false) chapterOrder.
Proof.
  revert seen ordered. induction entries as [|entry rest IH]; intros seen ordered; simpl.
  - intros [= _ <-]. exists []. by rewrite app_nil_r.
  - destruct (entryIndex entry) as [message|idx]; [discriminate|].
    destruct (outOfRange idx count) eqn:Hr; [destruct (jsString entry); discriminate|].
    destruct (NumSet.has idx seen); [discriminate|].
    intros Hrun. destruct (IH _ _ Hrun) as (chapterOrder & -> & -> & Hall).
    exists (idx :: chapterOrder).
    split; [reflexivity|]. split; [by rewrite <- app_assoc | by constructor].
Qed.

(** An accepted chapter order has one entry for each abstraction, each in
    range; the validator leaves it as parsed. *)
Lemma orderValidator_accepted (count : nat) (v data : value) :
  orderValidator count v = (Accepted, data) ->
  exists entries chapterOrder,
    data = VArr entries /\ entryIndices entries = inr chapterOrder /\
    length chapterOrder = count /\
    Forall (fun idx => outOfRange idx count = false) chapterOrder.
Proof.
  unfold orderValidator. destruct v as [| | | |entries|]; try discriminate.
  destruct (checkOrder count entries [] []) as [[seen ordered]|reason|message] eqn:Hc;
    try discriminate.
  destruct (length ordered =? count)%nat eqn:Hlen; [|discriminate].
  intros [= <-]. apply checkOrder_passes in Hc as (chapterOrder & Hconv & -> & Hall).
  exists entries, chapterOrder. split; [reflexivity|]. split; [assumption|].
  split; [|assumption]. by apply Nat.eqb_eq in Hlen.
Qed.

Lemma inRange_guard (idx : number) (count : nat) :
  outOfRange idx count = false ->
  Num.ge idx (Num.ofNat 0) && Num.lt idx (Num.ofNat count) = true.
Proof.
  intros Hr. apply inRange_inInterval in Hr.
  destruct idx as [|s|q]; simpl in *; try tauto. destruct Hr as [H0 Hlt].
  apply andb_true_iff. split; [by apply Qle_bool_iff|].
  apply negb_true_iff, not_true_iff_false. rewrite Qle_bool_iff.
  by apply Qlt_not_le.
Qed.

Lemma chapterFileInfos_length (abstractions : list Abstraction)
    (chapterOrder : list number) (i : nat) (acc infos : list ChapterInfo) :
  Forall (fun idx => outOfRange idx (length abstractions) = false) chapterOrder ->
  chapterFileInfos abstractions chapterOrder i acc = inr infos ->
  length infos = length acc + length chapterOrder.
Proof.
  revert i acc. induction chapterOrder as [|idx rest IH]; intros i acc Hall; simpl.
  - intros [= <-]. lia.
  - inversion Hall as [|? ? Hidx Hrest]; subst.
    rewrite (inRange_guard _ _ Hidx).
    destruct (Num.arrayIndex idx ≫= _) as [a|]; [|discriminate].
    intros Hrun. rewrite (IH _ _ Hrest Hrun), length_app. simpl. lia.
Qed.

End AcceptedData.

Section Chapters.
Context `{Externals}.
Variable projectName : string.
Variable language : string.
Variable fetchedFiles : list FileData.
Variable abstractions : list Abstraction.
Variable allInfos : list ChapterInfo.

Local Abbreviation writeChapters_ :=
  (writeChapters projectName language fetchedFiles abstractions allInfos).
Local Abbreviation writeChapter_ :=
  (writeChapter projectName language fetchedFiles abstractions allInfos).

(** The second pass either writes every chapter or ends the run with an
    error response. *)
Lemma writeChapters_result (todo : list ChapterInfo) (previous : string)
    (contents : list string) (st : LlmState) :
  match writeChapters_ todo previous contents st with
  | (inl response, _) => exists message, response = JsonError 500 message
  | (inr (contents', _), _) => length contents' = length contents + length todo
  end.
Proof.
  revert previous contents st.
  induction todo as [|info rest IH]; intros previous contents st; simpl; [lia|].
  destruct (Num.arrayIndex (index info) ≫= _) as [a|]; [|eauto].
  destruct (writeChapter _ _ _ _ _ _ _ _ _) as [r st1].
  destruct (stageData r) as [e|[| | |chapter| |]]; eauto.
  specialize (IH (previous +:+ "

---

" +:+ withAttribution chapter) (contents ++ [withAttribution chapter]) st1).
  destruct (writeChapters _ _ _ _ _ _ _ _ _) as [[response|[contents' previous']] st2];
    [assumption|].
  rewrite IH, length_app. simpl. lia.
Qed.

(** The chapters are written in order: the loop over [done ++ todo] is the
    loop over [done] followed, when it did not end the run, by the loop over
    [todo] from the variables it left. *)
Lemma writeChapters_app (done todo : list ChapterInfo) (previous : string)
    (contents : list string) (st : LlmState) :
  writeChapters_ (done ++ todo) previous contents st
  = match writeChapters_ done previous contents st with
    | (inl response, st') => (inl response, st')
    | (inr (contents', previous'), st') => writeChapters_ todo previous' contents' st'
    end.
Proof.
  revert previous contents st.
  induction done as [|info rest IH]; intros previous contents st; simpl; [reflexivity|].
  destruct (Num.arrayIndex (index info) ≫= _) as [a|]; [|reflexivity].
  destruct (writeChapter _ _ _ _ _ _ _ _ _) as [r st1].
  destruct (stageData r) as [e|[| | |chapter| |]]; try reflexivity.
  apply IH.
Qed.

(** A chapter whose loop fails ends the run there. *)
Lemma writeChapters_failure (info : ChapterInfo) (rest : list ChapterInfo)
    (a : Abstraction) (previous : string) (contents : list string)
    (st st1 : LlmState) (e : string) :
  abstractionAt abstractions (index info) = Some a ->
  writeChapter_ previous info a st = (Failure e, st1) ->
  writeChapters_ (info :: rest) previous contents st
  = (inl (JsonError 500 (chapterFailure info e)), st1).
Proof.
  unfold abstractionAt. intros Ha Hw. simpl. by rewrite Ha, Hw.
Qed.

End Chapters.

Section Archive.

Lemma addChapterFiles_other (infos : list ChapterInfo) (contents : list string)
    (zip : gmap string string) (f : string) :
  ~ In f (map filename infos) ->
  addChapterFiles infos contents zip !! f = zip !! f.
Proof.
  revert contents zip. induction infos as [|info infos IH]; intros contents zip Hf;
    [reflexivity|].
  destruct contents as [|chapter contents]; [reflexivity|]. simpl.
  rewrite IH by (intros Hin; apply Hf; by right).
  apply lookup_insert_ne. intros E. apply Hf. by left.
Qed.

Lemma addChapterFiles_lookup (infos : list ChapterInfo) (contents : list string)
    (zip : gmap string string) (k : nat) (info : ChapterInfo) (chapter : string) :
  List.NoDup (map filename infos) ->
  infos !! k = Some info -> contents !! k = Some chapter ->
  addChapterFiles infos contents zip !! filename info = Some chapter.
Proof.
  revert contents zip k. induction infos as [|info0 infos IH];
    intros contents zip k Hnd; [discriminate|].
  destruct contents as [|chapter0 contents]; [by destruct k|].
  inversion Hnd as [|? ? Hnotin Hnd']; subst.
  destruct k as [|k]; simpl.
  - intros [= ->] [= ->]. rewrite addChapterFiles_other by assumption.
    apply lookup_insert_eq.
  - by apply IH.
Qed.

Lemma addChapterFiles_dom (infos : list ChapterInfo) (contents : list string)
    (zip : gmap string string) (f : string) :
  is_Some (addChapterFiles infos contents zip !! f) ->
  is_Some (zip !! f) \/ exists info, In info infos /\ f = filename info.
Proof.
  revert contents zip. induction infos as [|info infos IH]; intros contents zip;
    [simpl; auto|].
  destruct contents as [|chapter contents]; [simpl; auto|]. simpl.
  intros Hf. apply IH in Hf as [Hf | (i & Hi & ->)]; [|eauto].
  destruct (decide (filename info = f)) as [<- | Hne]; [eauto|].
  rewrite lookup_insert_ne in Hf by assumption. auto.
Qed.

End Archive.

Section Run.
Context `{Externals}.
Variable projectName : string.
Variable language : string.
Variable fetchedFiles : list FileData.

Local Abbreviation discover_ := (discover projectName language fetchedFiles).
Local Abbreviation infer_ := (infer projectName language fetchedFiles).
Local Abbreviation order_ := (order projectName language).

Lemma discover_Success (st st1 : LlmState) (data : value) :
  discover_ st = (Success data, st1) ->
  exists items, data = VArr items.
Proof.
  unfold discover, callLlmWithRetry. intros Hrun.
  apply retryFrom_Success in Hrun as [v Hv].
  by eapply abstractionsValidator_accepted.
Qed.

(** The prompt of the inference stage cannot be built: each of the three
    attempts ends in the [catch] of the loop, and none calls the gateway. *)
Lemma infer_fails (abstractions : list Abstraction) (st : LlmState) :
  infer_ abstractions st
  = (Failure (interactionError 2 "list_lang_note is not defined"), st).
Proof.
  unfold infer, callLlmWithRetry.
  by rewrite (retryFrom_throws _ _ _ _ "list_lang_note is not defined").
Qed.

Lemma order_Success (abstractions : list Abstraction) (summaryText : string)
    (edges : list Relationship) (st st1 : LlmState) (data : value) :
  order_ abstractions summaryText edges st = (Success data, st1) ->
  exists entries chapterOrder,
    data = VArr entries /\ entryIndices entries = inr chapterOrder /\
    length chapterOrder = length abstractions /\
    Forall (fun idx => outOfRange idx (length abstractions) = false) chapterOrder.
Proof.
  unfold order, callLlmWithRetry. intros Hrun.
  apply retryFrom_Success in Hrun as [v Hv].
  by eapply orderValidator_accepted.
Qed.

Lemma stageData_inr (r : RetryResult) (data : value) :
  stageData r = inr data -> r = Success data.
Proof.
  destruct r as [d|e]; simpl; [|discriminate].
  destruct (Val.truthy d); [by intros [= ->] | discriminate].
Qed.

Lemma index_not_chapter (infos : list ChapterInfo) :
  Forall (fun info => filename info = chapterFilename (num info) (chapterName info)) infos ->
  ~ In "index.md" (map filename infos).
Proof.
  intros Hnames Hin. apply in_map_iff in Hin as (info & Hf & Hin).
  rewrite List.Forall_forall in Hnames. rewrite (Hnames info Hin) in Hf.
  pose proof (parseInt_chapterFilename (num info) (chapterName info)) as Hp.
  rewrite Hf in Hp. discriminate.
Qed.

(** The archive that the run builds from the chapters written. *)
Lemma archive_complete (abstractions : list Abstraction) (chapterOrder : list number)
    (infos : list ChapterInfo) (chapterContents : list string) (indexContent : string) :
  chapterFileInfos abstractions chapterOrder 0 [] = inr infos ->
  length chapterContents = length infos ->
  completeArchive
    (addChapterFiles infos chapterContents (<["index.md" := indexContent]> ∅))
    indexContent infos chapterContents.
Proof.
  intros Hinfos Hw.
  pose proof (chapterFileInfos_filenames_NoDup _ _ _ Hinfos) as Hnodup.
  destruct (chapterFileInfos_invariant abstractions _ 0 [] infos Hinfos)
    as [_ Hnames]; [constructor..|].
  split; [exact Hw|]. split; [|split].
  - rewrite addChapterFiles_other by (by apply index_not_chapter).
    apply lookup_insert_eq.
  - intros k info Hk.
    assert (Hlt : k < length chapterContents).
    { rewrite Hw. by eapply lookup_lt_Some. }
    apply lookup_lt_is_Some in Hlt as [chapter Hc].
    exists chapter. split; [assumption|]. by eapply addChapterFiles_lookup.
  - intros f Hf. apply addChapterFiles_dom in Hf as [Hf | Hf]; [|by right].
    left. destruct (decide ("index.md" = f)) as [<- | Hne]; [reflexivity|].
    rewrite lookup_insert_ne, lookup_empty in Hf by assumption.
    by destruct Hf.
Qed.

(** What the run makes of an accepted chapter order: an error, or the
    archive of the chapters that the second pass wrote. *)
Lemma afterOrdering_result (abstractions : list Abstraction) (summaryText : string)
    (edges : list Relationship) (entries : list value) (chapterOrder : list number)
    (st : LlmState) :
  entryIndices entries = inr chapterOrder ->
  length chapterOrder = length abstractions ->
  Forall (fun idx => outOfRange idx (length abstractions) = false) chapterOrder ->
  match afterOrdering projectName language fetchedFiles abstractions summaryText
          edges (VArr entries) st with
  | (JsonError status _, _) => status = 500
  | (ZipArchive zipFileName zip, st') =>
      zipFileName = sanitizeFilename projectName +:+ "_tutorial.zip" /\
      exists infos chapterContents previous,
        chapterFileInfos abstractions chapterOrder 0 [] = inr infos /\
        length infos = length abstractions /\
        writeChapters projectName language fetchedFiles abstractions infos infos
          "" [] st = (inr (chapterContents, previous), st') /\
        completeArchive zip
          (indexDocument projectName summaryText abstractions edges infos)
          infos chapterContents
  end.
Proof.
  intros Hconv Hlen Hrange. unfold afterOrdering. rewrite Hconv.
  destruct (chapterFileInfos abstractions chapterOrder 0 [])
    as [message|infos] eqn:Hinfos; [reflexivity|].
  pose proof (writeChapters_result projectName language fetchedFiles abstractions
                infos infos "" [] st) as Hw.
  destruct (writeChapters _ _ _ _ _ _ _ _ _) as [[response|[contents previous]] st']
    eqn:Hwritten.
  { destruct Hw as [message ->]. reflexivity. }
  simpl in Hw. split; [reflexivity|].
  exists infos, contents, previous. split; [reflexivity|]. split.
  { rewrite (chapterFileInfos_length abstractions chapterOrder 0 [] infos Hrange Hinfos).
    simpl. exact Hlen. }
  split; [exact Hwritten|]. by eapply archive_complete.
Qed.

End Run.

(** A clause about a stage: the results named in its premises are the
    results the run has met. *)
Ltac stage_clause :=
  intros; cbn [itemsOf] in *;
  repeat match goal with
  | H : (_, _) = (_, _) |- _ =>
      first [discriminate H | injection H as ? ?; subst; cbn [itemsOf] in *]
  | H : inr _ = inr _ |- _ => injection H as ?; subst
  | H1 : ?x = _, H2 : ?x = _ |- _ => rewrite H1 in H2
  end.


(** ** Whole runs *)

(** The run stops at inference: discovery has asked the provider once,
    and no attempt of inference reaches the gateway. *)
Example smallRun_stops_at_inference :
  @generateTutorial smallRun "demo" "english" twoFiles initialState
  = (JsonError 500 "Failed to analyze relationships: Error during LLM interaction (attempt 3): list_lang_note is not defined",
     {| cache := {["identify abstractions" := "```yaml
abstractions
```"]};
        gatewayCalls := 1;
        providerRequests := ["identify abstractions"] |}).
Proof. vm_compute. reflexivity. Qed.

(** The stages after inference, on two abstractions. *)
Example laterStages_archive :
  fst (@afterInference laterStages "demo" "english" twoFiles [gateway; cachingLayer]
         inferredGraph initialState)
  = ZipArchive "demo_tutorial.zip"
      (<["02_Gateway.md" := "# Chapter 2: Gateway
One request per call.

" +:+ attribution]>
       (<["01_Caching_Layer.md" := "# Chapter 1: Caching Layer
Answers are kept.

" +:+ attribution]>
        (<["index.md" := "<index>"]> ∅))).
Proof. vm_compute. reflexivity. Qed.

Example laterStages_requests :
  providerRequests
    (snd (@afterInference laterStages "demo" "english" twoFiles [gateway; cachingLayer]
            inferredGraph initialState))
  = ["order chapters"; "write chapter 1"; "write chapter 2"].
Proof. vm_compute. reflexivity. Qed.

Example no_provider_run :
  @generateTutorial plain "demo" "english" twoFiles initialState
  = (JsonError 500 "Failed to identify abstractions: LLM API Error: no answer scripted",
     {| cache := ∅; gatewayCalls := 3;
        providerRequests := ["identify abstractions"; "identify abstractions";
                             "identify abstractions"] |}).
Proof. vm_compute. reflexivity. Qed.


Example abstractions_files_interval_example :
  exists items items',
    VArr [abstractionItem "Cache" [VStr "2 # b.ts"; int 0; VStr "2"; int 0]] = VArr items /\
    VArr [VObj [("name", VStr "Cache"); ("description", VStr "What it is.");
                ("file_indices", VArr [VStr "2 # b.ts"; int 0; VStr "2"; int 0]);
                ("files", VArr [int 0; int 2])]] = VArr items' /\
    Forall2 (@filesNormalized plain 3) items items'.
Proof.
  apply (proj1 (@abstractions_files_interval plain 3
                  (VArr [abstractionItem "Cache" [VStr "2 # b.ts"; int 0; VStr "2"; int 0]]))).
  reflexivity.
Qed.

Lemma ensureAllAbstractionsInRelationships_spec_witness :
  details (ensureAllAbstractionsInRelationships
             {| summary := "s";
                details := [ {| from := Num.ofNat 0; to := Num.ofNat 0; label := "uses" |} ];
                relationships := None |}
             [gateway; cachingLayer])
  = [ {| from := Num.ofNat 0; to := Num.ofNat 0; label := "uses" |};
      {| from := Num.ofNat 0; to := Num.ofNat 1; label := "Related to" |} ].
Proof.
  apply (proj1 (proj2 (ensureAllAbstractionsInRelationships_spec
           {| summary := "s";
              details := [ {| from := Num.ofNat 0; to := Num.ofNat 0; label := "uses" |} ];
              relationships := None |}
           [gateway; cachingLayer]))).
  intros Hcov. destruct (Hcov 1) as (rel & [<- | []] & [Hf | Ht]); [simpl; lia | |];
    discriminate.
Defined.

(** ** Indices that are not integers *)

(** C4 (what the code does at the failing input).  With two abstractions,
    the order [[0.5, 1.5]] passes the validator: each entry is a number, not
    NaN, not negative, below 2, not seen before, and the list has two
    entries.  Neither entry is an abstraction index, and both indices are
    missing from the order; the first pass over the order then reads
    [abstractions[0.5]], which is undefined. *)
Theorem order_accepts_fractions `{Externals} :
  orderValidator 2 (VArr [VNum half; VNum oneAndHalf])
    = (Accepted, VArr [VNum half; VNum oneAndHalf]) /\
  Num.arrayIndex half = None /\ Num.arrayIndex oneAndHalf = None /\
  missingFrom 2 [half; oneAndHalf] = [0; 1] /\
  chapterFileInfos [gateway; cachingLayer] [half; oneAndHalf] 0 []
    = inl "Cannot read properties of undefined (reading 'name')".
Proof. repeat split; reflexivity. Qed.

(** C3 (what the code does at the failing input).  With two abstractions,
    the graph whose only edge goes from [0.5] to [1.5] passes the validator:
    both ends are numbers in range and the set of mentioned numbers has two
    members.  No abstraction index is mentioned: 0 and 1 are both missing,
    and no reason is given. *)
Theorem relationships_accepts_fractions `{Externals} :
  fst (relationshipsValidator 2 (graph [edge (VNum half) (VNum oneAndHalf)])) = Accepted /\
  asRelationships
    (Val.get "details"
       (snd (relationshipsValidator 2 (graph [edge (VNum half) (VNum oneAndHalf)]))))
    = [ {| from := half; to := oneAndHalf; label := "uses" |} ] /\
  missingFrom 2 (mentionedIn [ {| from := half; to := oneAndHalf; label := "uses" |} ])
    = [0; 1] /\
  ~ covers 2 [ {| from := half; to := oneAndHalf; label := "uses" |} ].
Proof.
  split; [reflexivity|]. split; [reflexivity|]. split; [reflexivity|].
  intros Hcov. destruct (Hcov 0) as (rel & [<- | []] & [Hf | Ht]); [lia | |];
    discriminate.
Qed.

(** C6 (what the code does at the failing input).  With two files, the
    record whose file indices are [[0.5, 1, 0.5]] passes the validator: each
    entry is a number, not NaN, not negative, below 2.  The record leaves
    with [files = [0.5, 1]]: [0.5] is the position of no file, it equals no
    index of the file list, and the lookup of the contents passes over it
    without a word. *)
Theorem abstractions_accepts_fractions `{Externals} :
  abstractionsValidator (length twoFiles)
    (VArr [abstractionItem "Cache" [VNum half; int 1; VNum half]])
  = (Accepted,
     VArr [VObj [("name", VStr "Cache"); ("description", VStr "What it is.");
                 ("file_indices", VArr [VNum half; int 1; VNum half]);
                 ("files", VArr [VNum half; int 1])]]) /\
  Num.arrayIndex half = None /\
  (forall i file, twoFiles !! i = Some file ->
                  Num.sameValueZero (Num.ofNat i) half = false) /\
  getContentForIndices twoFiles [half; Num.ofNat 1]
  = {["1 # cache.ts" := "const cache = new Map();"]}.
Proof.
  split; [reflexivity|]. split; [reflexivity|]. split.
  - intros [|[|i]] file; [reflexivity | reflexivity | discriminate].
  - reflexivity.
Qed.


(** ** Indices that are integers *)

Section Integral.

Lemma integral_ofParse (r : option Z) : integral (Num.ofParse r).
Proof.
  destruct r as [z|]; [|exact I].
  unfold Num.ofParse, Num.ofZ, integral. by rewrite Qfloor_Z.
Qed.

(** Except for a number, what an entry stands for is an integer or NaN. *)
Lemma entryIndex_integral `{Externals} (entry : value) (idx : number) :
  (forall n, entry = VNum n -> integral n) ->
  entryIndex entry = inr idx -> integral idx.
Proof.
  intros Hnum. destruct entry; simpl;
    try (intros [= <-]; first [apply integral_ofParse | exact I]);
    try (destruct (stringOf _); [discriminate|]; intros [= <-]; apply integral_ofParse).
  - intros [= <-]. by apply Hnum.
  - destruct (Js.includesChar "#" s); intros [= <-]; apply integral_ofParse.
Qed.

Lemma endpointIndex_integral `{Externals} (x : value) (idx : number) :
  (forall n, x = VNum n -> integral n) ->
  endpointIndex x = inr idx -> integral idx.
Proof.
  intros Hnum. destruct x; simpl;
    try (intros [= <-]; first [apply integral_ofParse | exact I | by apply Hnum]);
    try (destruct (stringOf _); [discriminate|]; intros [= <-]; apply integral_ofParse).
Qed.

(** The indices of entries none of which is a number with a fraction are
    integers. *)
Lemma entryIndices_integral `{Externals} (entries : list value) (indices : list number) :
  Forall (fun entry => forall n, entry = VNum n -> integral n) entries ->
  entryIndices entries = inr indices -> Forall integral indices.
Proof.
  revert indices. induction entries as [|entry rest IH]; intros indices Hall; simpl.
  - intros [= <-]. constructor.
  - inversion Hall as [|? ? Hentry Hrest]; subst.
    destruct (entryIndex entry) as [message|idx] eqn:He; [discriminate|].
    destruct (entryIndices rest) as [message|converted]; [discriminate|].
    intros [= <-]. constructor; [by eapply entryIndex_integral | by apply IH].
Qed.

Lemma sameValueZero_ofNat (i j : nat) :
  Num.sameValueZero (Num.ofNat i) (Num.ofNat j) = true <-> i = j.
Proof.
  unfold Num.ofNat, Num.ofZ. cbn [Num.sameValueZero].
  rewrite Qeq_bool_iff, inject_Z_injective. lia.
Qed.

(** An integer of the interval is an index below the bound. *)
Lemma integral_index (count : nat) (n : number) :
  inInterval count n -> integral n ->
  exists k, isIndex n k /\ k < count /\ Num.sameValueZero n (Num.ofNat k) = true.
Proof.
  destruct n as [|s|q]; simpl; try tauto. intros [H0 Hlt] Hq.
  assert (Hz0 : (0 <= Qfloor q)%Z).
  { rewrite Hq in H0. change 0%Q with (inject_Z 0) in H0. by rewrite Zle_Qle. }
  assert (Hzc : (Qfloor q < Z.of_nat count)%Z).
  { rewrite Hq in Hlt. by rewrite Zlt_Qlt. }
  exists (Z.to_nat (Qfloor q)). unfold isIndex. simpl.
  assert (Hb : Qeq_bool q (inject_Z (Qfloor q)) = true) by by apply Qeq_bool_iff.
  rewrite Hb. assert (Hle : (0 <=? Qfloor q)%Z = true) by by apply Z.leb_le.
  rewrite Hle. split; [reflexivity|]. split; [lia|].
  apply Qeq_bool_iff. by rewrite Z2Nat.id.
Qed.

Lemma isIndex_sameValueZero (n : number) (k : nat) :
  isIndex n k -> Num.sameValueZero n (Num.ofNat k) = true.
Proof.
  unfold isIndex. destruct n as [|s|q]; simpl; try discriminate.
  destruct (Qeq_bool q (inject_Z (Qfloor q))) eqn:Hq; [|discriminate].
  destruct (0 <=? Qfloor q)%Z eqn:Hz; [|discriminate]. simpl.
  intros [= <-]. apply Z.leb_le in Hz. by rewrite Z2Nat.id.
Qed.

Lemma isIndex_inInterval (n : number) (k count : nat) :
  isIndex n k -> k < count -> inInterval count n.
Proof.
  intros Hk Hlt. pose proof (isIndex_sameValueZero n k Hk) as Hs.
  destruct n as [|s|q]; simpl in *; try discriminate.
  apply Qeq_bool_iff in Hs. rewrite Hs. split.
  - change 0%Q with (inject_Z 0). rewrite <- Zle_Qle. lia.
  - rewrite <- Zlt_Qlt. lia.
Qed.

(** The pigeonhole behind the size test: [count] different integers of
    [[0, count)] are all of them. *)
Lemma full_set (count : nat) (s : list number) :
  StronglySorted apart s -> Forall (inInterval count) s -> Forall integral s ->
  length s = count ->
  forall i, i < count -> NumSet.has (Num.ofNat i) s = true.
Proof.
  intros Hap Hin Hint Hlen.
  assert (Hks : exists ks : list nat,
             length ks = length s /\ List.NoDup ks /\
             Forall (fun k => k < count) ks /\
             forall k, In k ks -> NumSet.has (Num.ofNat k) s = true).
  { clear Hlen. induction s as [|n s IH].
    { exists []. split; [reflexivity|]. split; [constructor|].
      split; [constructor|]. intros k []. }
    inversion Hap as [|? ? Hap' Hn]; subst. inversion Hin; subst. inversion Hint; subst.
    destruct IH as (ks & Hl & Hnd & Hb & Hm); auto.
    destruct (integral_index count n) as (k & _ & Hk & Hs); auto.
    exists (k :: ks). split; [simpl; by rewrite Hl|]. split; [|split].
    - constructor; [|assumption]. intros Hk'. apply Hm, has_true in Hk' as (y & Hy & Hky).
      rewrite List.Forall_forall in Hn. specialize (Hn y Hy). unfold apart in Hn.
      rewrite (sameValueZero_trans n (Num.ofNat k) y) in Hn; [discriminate|assumption..].
    - by constructor.
    - intros k' [<- | Hk']; apply has_true.
      + exists n. split; [by left|]. by rewrite sameValueZero_sym.
      + apply Hm, has_true in Hk' as (y & Hy & Hky). exists y. split; [by right|assumption]. }
  destruct Hks as (ks & Hl & Hnd & Hb & Hm). intros i Hi. apply Hm.
  apply (NoDup_length_incl Hnd (l' := seq 0 count)).
  - rewrite length_seq. lia.
  - intros k Hk. apply in_seq. rewrite List.Forall_forall in Hb.
    specialize (Hb k Hk). lia.
  - apply in_seq. lia.
Qed.

End Integral.

Section RelationshipsValidator.
Context `{Externals}.
Variable count : nat.

Lemma lookup_assign_other (k k' : string) (x : value) (fields : list (string * value)) :
  k <> k' ->
  Val.lookupField k (Val.assignField k' x fields) = Val.lookupField k fields.
Proof.
  intros Hne. induction fields as [|[k0 y] r IH]; simpl.
  - by apply String.eqb_neq in Hne as ->.
  - destruct (String.eqb k' k0) eqn:E'; simpl.
    + apply String.eqb_eq in E' as <-. by apply String.eqb_neq in Hne as ->.
    + destruct (String.eqb k k0); [reflexivity | assumption].
Qed.

(** An edge that passes the loop body leaves with its two indices stored,
    both in range. *)
Lemma checkRelationship_inr (rel rel' : value) (f t : number) :
  checkRelationship count rel = inr (rel', f, t) ->
  from (asRelationship rel') = f /\ to (asRelationship rel') = t /\
  inInterval count f /\ inInterval count t.
Proof.
  unfold checkRelationship.
  destruct (negb (Val.truthy rel) || negb (Val.isObjectType rel)); [discriminate|].
  destruct rel as [| | | |items|fields]; try discriminate.
  destruct (firstDefined _ _) as [fv|]; [|discriminate].
  destruct (firstDefined _ _) as [tv|]; [|discriminate].
  destruct (Val.get "label" (VObj fields)) as [[| | |l| |]|]; try discriminate.
  destruct (endpointIndex fv) as [message|fromIdx]; [discriminate|].
  destruct (endpointIndex tv) as [message|toIdx]; [discriminate|].
  destruct (Num.isNaN fromIdx || _ || _ || _ || _ || _) eqn:Hr;
    [destruct (jsString fv), (jsString tv); discriminate|].
  intros [= <- <- <-].
  repeat (apply orb_false_iff in Hr as [Hr ?]).
  split; [|split; [|split]].
  - unfold asRelationship. simpl.
    rewrite lookup_assign_other by discriminate. by rewrite lookup_assign_same.
  - unfold asRelationship. simpl. by rewrite lookup_assign_same.
  - apply inRange_inInterval. unfold outOfRange. by rewrite !orb_false_iff.
  - apply inRange_inInterval. unfold outOfRange. by rewrite !orb_false_iff.
Qed.

Lemma checkRelationships_inr (rels rels' : list value) (acc mentioned : list number) :
  checkRelationships count rels acc = (inr mentioned, rels') ->
  mentioned
    = fold_left (fun s rel => NumSet.add (to rel) (NumSet.add (from rel) s))
        (map asRelationship rels') acc /\
  Forall (endsInRange count) (map asRelationship rels').
Proof.
  revert rels' acc. induction rels as [|rel rest IH]; intros rels' acc; simpl.
  - intros [= <- <-]. split; [reflexivity | constructor].
  - destruct (checkRelationship count rel) as [reason|[[rel' f] t]] eqn:Hc;
      [discriminate|].
    destruct (checkRelationships count rest _) as [r rest'] eqn:Hrest.
    intros [= -> <-]. destruct (IH _ _ Hrest) as [-> Hall].
    destruct (checkRelationship_inr _ _ _ _ Hc) as (Hf & Ht & Hif & Hit).
    cbn [map fold_left]. rewrite Hf, Ht. split; [reflexivity|].
    constructor; [|assumption]. unfold endsInRange. by rewrite Hf, Ht.
Qed.

Lemma mentioned_from (edges : list Relationship) (acc : list number) :
  Forall (endsInRange count) edges -> Forall integralEnds edges ->
  StronglySorted apart acc -> Forall (inInterval count) acc -> Forall integral acc ->
  let s := fold_left (fun s rel => NumSet.add (to rel) (NumSet.add (from rel) s))
             edges acc in
  StronglySorted apart s /\ Forall (inInterval count) s /\ Forall integral s.
Proof.
  revert acc. induction edges as [|rel edges IH]; intros acc Hr Hi Hap Hin Hint; simpl;
    [auto|].
  inversion Hr as [|? ? [Hf Ht] Hr']; subst. inversion Hi as [|? ? [Hif Hit] Hi']; subst.
  assert (Hadd : forall x s, integral x -> Forall integral s ->
                   Forall integral (NumSet.add x s)).
  { intros x s Hx Hs. unfold NumSet.add. destruct (NumSet.has x s); [assumption|].
    apply Forall_app. split; [assumption | by constructor]. }
  destruct (add_spec count (from rel) acc) as [Hin1 Hap1]; [assumption..|].
  destruct (add_spec count (to rel) (NumSet.add (from rel) acc)) as [Hin2 Hap2];
    [assumption..|].
  apply IH; auto.
Qed.

(** On edges whose ends are integers, the validator accepts only graphs
    that cover every abstraction index. *)
Lemma relationships_coverage_integral (parsed parsed' : value) :
  relationshipsValidator count parsed = (Accepted, parsed') ->
  Forall integralEnds (asRelationships (Val.get "details" parsed')) ->
  covers count (asRelationships (Val.get "details" parsed')).
Proof.
  unfold relationshipsValidator.
  destruct (negb (Val.truthy parsed) || negb (Val.isObjectType parsed) || _) eqn:Hguard;
    [discriminate|].
  destruct (negb (Val.truthyOpt _) && _); [discriminate|].
  destruct (Val.orElse _ _) as [[| | | |relArray|]|]; try discriminate.
  destruct (checkRelationships count relArray []) as [r relArray'] eqn:Hc.
  apply orb_false_iff in Hguard as [Hguard Hsummary].
  apply orb_false_iff in Hguard as [Htruthy Hobject].
  destruct parsed as [| | | |items|fields]; try discriminate.
  destruct r as [reason|mentioned]; [discriminate|].
  unfold coverageVerdict.
  destruct (length mentioned =? count)%nat eqn:Hlen; [|discriminate].
  intros [= <-]. simpl Val.get.
  rewrite lookup_assign_other by discriminate. rewrite lookup_assign_same.
  simpl asRelationships. intros Hint.
  destruct (checkRelationships_inr _ _ _ _ Hc) as [-> Hrange].
  destruct (mentioned_from (map asRelationship relArray') []) as (Hap & Hin & Hi);
    auto; [constructor..|].
  intros i Hi'. apply has_mentionedIn.
  apply (full_set count); auto. by apply Nat.eqb_eq.
Qed.

(** And when such edges leave an index out, the test after the loop
    refuses with the list of the indices that no edge mentions. *)
Lemma coverage_refusal_integral (edges : list Relationship) :
  Forall (endsInRange count) edges -> Forall integralEnds edges ->
  ~ covers count edges ->
  coverageVerdict count (mentionedIn edges)
    = Refused (missingMessage (missingFrom count (mentionedIn edges))) /\
  forall m, In m (missingFrom count (mentionedIn edges))
            <-> m < count /\ ~ mentions edges m.
Proof.
  intros Hrange Hint Hncov. split.
  - unfold coverageVerdict.
    destruct (length (mentionedIn edges) =? count)%nat eqn:Hlen; [|reflexivity].
    exfalso. apply Hncov.
    destruct (mentioned_from edges []) as (Hap & Hin & Hi); auto; [constructor..|].
    intros i Hi'. apply has_mentionedIn.
    apply (full_set count); auto. by apply Nat.eqb_eq.
  - intros m. rewrite in_missingFrom, <- has_mentionedIn.
    by rewrite not_true_iff_false.
Qed.

Lemma relationshipsValidator_total (v : value) m v' :
  relationshipsValidator count v <> (Thrown m, v').
Proof.
  unfold relationshipsValidator.
  destruct (negb (Val.truthy v) || _ || _); [discriminate|].
  destruct (negb (Val.truthyOpt _) && _); [discriminate|].
  destruct (Val.orElse _ _) as [[| | | |relArray|]|]; try discriminate.
  destruct (checkRelationships count relArray []) as [[reason|mentioned] relArray'];
    [discriminate|].
  unfold coverageVerdict. destruct (negb _); discriminate.
Qed.

End RelationshipsValidator.

Section OrderValidator.
Context `{Externals}.
Variable count : nat.

(** What [checkOrder] accepts, on entries that stand for integers: indices
    below [count], no two of them equal, none seen before. *)
Lemma checkOrder_integral (entries : list value) (indices seen ordered : list number) :
  entryIndices entries = inr indices -> Forall integral indices ->
  (exists result, checkOrder count entries seen ordered = Passes result) <->
  exists l : list nat,
    Forall2 isIndex indices l /\
    Forall (fun k => k < count) l /\ List.NoDup l /\
    forall k, In k l -> NumSet.has (Num.ofNat k) seen = false.
Proof.
  revert indices seen ordered.
  induction entries as [|entry rest IH]; intros indices seen ordered Hconv Hint.
  - simpl in Hconv. injection Hconv as <-.
    split; [|simpl; eauto]. intros _. exists []. repeat split; try constructor.
    intros k [].
  - simpl in Hconv.
    destruct (entryIndex entry) as [message|idx] eqn:He; [discriminate|].
    destruct (entryIndices rest) as [message|converted] eqn:Hrest; [discriminate|].
    injection Hconv as <-.
    inversion Hint as [|? ? Hentry Hints]; subst. simpl. rewrite He. split.
    + intros [result Hrun].
      destruct (outOfRange idx count) eqn:Hr; [destruct (jsString entry); discriminate|].
      destruct (NumSet.has idx seen) eqn:Hseen; [discriminate|].
      apply inRange_inInterval in Hr.
      destruct (integral_index count _ Hr Hentry) as (k & Hk & Hlt & Hs).
      destruct (proj1 (IH _ _ _ eq_refl Hints) (ex_intro _ result Hrun))
        as (l & Hl & Hb & Hnd & Hfresh).
      assert (Hk' : forall k', In k' l ->
                NumSet.has (Num.ofNat k') seen = false /\ k' <> k).
      { intros k' Hin. specialize (Hfresh k' Hin). rewrite has_add in Hfresh.
        apply orb_false_iff in Hfresh as [Hf1 Hf2]. split; [assumption|].
        intros ->. rewrite sameValueZero_sym, Hs in Hf2. discriminate. }
      exists (k :: l). split; [by constructor|]. split; [by constructor|]. split.
      * constructor; [|assumption]. intros Hin. by destruct (Hk' k Hin).
      * intros k' [<- | Hin]; [|by destruct (Hk' k' Hin)].
        apply not_true_iff_false. intros Hh. apply has_true in Hh as (y & Hy & Hky).
        assert (NumSet.has idx seen = true); [|congruence].
        apply has_true. exists y. split; [assumption|].
        by apply sameValueZero_trans with (Num.ofNat k).
    + intros (l & Hl & Hb & Hnd & Hfresh).
      inversion Hl as [|? k ? l' Hk Hl']; subst.
      inversion Hb; subst. inversion Hnd; subst.
      pose proof (isIndex_sameValueZero _ _ Hk) as Hs.
      rewrite (inInterval_inRange _ count) by (by eapply isIndex_inInterval).
      assert (Hseen : NumSet.has idx seen = false).
      { apply not_true_iff_false. intros Hh. apply has_true in Hh as (y & Hy & Hey).
        assert (NumSet.has (Num.ofNat k) seen = true);
          [|rewrite Hfresh in *; [discriminate | by left]].
        apply has_true. exists y. split; [assumption|].
        apply sameValueZero_trans with idx; [|assumption].
        by rewrite sameValueZero_sym. }
      rewrite Hseen. apply (IH converted); [reflexivity | assumption |].
      exists l'. repeat split; try assumption.
      intros k' Hin. rewrite has_add, (Hfresh k') by (by right). simpl.
      apply not_true_iff_false. intros Hkk.
      assert (k' = k); [|congruence].
      apply sameValueZero_ofNat.
      apply sameValueZero_trans with idx; assumption.
Qed.

(** On entries that stand for integers, the validator accepts exactly the
    permutations of [0 .. count-1]. *)
Lemma order_permutation_integral (entries : list value) (indices : list number) :
  entryIndices entries = inr indices -> Forall integral indices ->
  fst (orderValidator count (VArr entries)) = Accepted <->
  exists l : list nat,
    Forall2 isIndex indices l /\
    Permutation l (seq 0 count).
Proof.
  intros Hconv Hint. unfold orderValidator.
  pose proof (checkOrder_integral entries indices [] [] Hconv Hint) as Hiff. split.
  - destruct (checkOrder count entries [] []) as [[seen ordered]|reason|message] eqn:Hc;
      try discriminate.
    destruct (length ordered =? count)%nat eqn:Hlen; [|discriminate]. intros _.
    destruct (proj1 Hiff (ex_intro _ _ eq_refl)) as (l & Hl & Hb & Hnd & _).
    exists l. split; [assumption|].
    apply checkOrder_passes in Hc as (converted & Hconv' & -> & _).
    rewrite Hconv in Hconv'. injection Hconv' as <-.
    apply Nat.eqb_eq in Hlen. simpl in Hlen.
    assert (Hll : length l = count) by (by rewrite <- (Forall2_length _ _ _ Hl)).
    apply NoDup_Permutation_bis; [assumption | |].
    + rewrite length_seq. lia.
    + intros k Hk. apply in_seq.
      rewrite List.Forall_forall in Hb. specialize (Hb k Hk). lia.
  - intros (l & Hl & Hperm).
    assert (Hex : exists result, checkOrder count entries [] [] = Passes result).
    { apply Hiff. exists l. split; [assumption|]. split; [|split].
      - apply List.Forall_forall. intros k Hk.
        apply (Permutation_in _ Hperm), in_seq in Hk. lia.
      - apply (Permutation_NoDup (Permutation_sym Hperm)), seq_NoDup.
      - reflexivity. }
    destruct Hex as [[seen ordered] Hc]. rewrite Hc.
    apply checkOrder_passes in Hc as (converted & Hconv' & -> & _).
    rewrite Hconv in Hconv'. injection Hconv' as <-. simpl.
    rewrite (Forall2_length _ _ _ Hl), (Permutation_length Hperm), length_seq.
    by rewrite Nat.eqb_refl.
Qed.

(** On records whose entries stand for integers, the [files] that the
    discovery validator stores are positions of the file list. *)
Lemma abstractions_files_integral (item item' : value) :
  filesNormalized count item item' ->
  (forall entries, fileIndicesOf item = Some (VArr entries) ->
     Forall (fun entry => forall n, entry = VNum n -> integral n) entries) ->
  exists l, Val.get "files" item' = Some (VArr (map VNum l)) /\
            Forall (fun x => exists k, isIndex x k /\ k < count) l.
Proof.
  intros (entries & indices & l & Hf & Hconv & Hfiles & (Hin & _ & _) & Hsame) Hint.
  exists l. split; [assumption|].
  pose proof (entryIndices_integral entries indices (Hint entries Hf) Hconv) as Hi.
  apply List.Forall_forall. intros x Hx.
  rewrite List.Forall_forall in Hin. specialize (Hin x Hx).
  assert (Hh : NumSet.has x indices = true).
  { rewrite <- Hsame. apply has_true. exists x. split; [assumption|].
    apply sameValueZero_refl. }
  apply has_true in Hh as (y & Hy & Hxy).
  rewrite List.Forall_forall in Hi. specialize (Hi y Hy).
  assert (Hix : integral x).
  { destruct x as [|sx|qx], y as [|sy|qy]; simpl in *; try tauto; try discriminate.
    apply Qeq_bool_iff in Hxy. by rewrite Hxy. }
  destruct (integral_index count x Hin Hix) as (k & Hk & Hlt & _). eauto.
Qed.

End OrderValidator.

(** * Further properties of the code *)

(** ** The completion gateway over sequences of calls *)

Section GatewaySequences.
Context `{Externals}.

Lemma readProvider_text (o : ProviderOutcome) (t : string) :
  text (readProvider o) = Some t ->
  readProvider o = llmOk t /\ Js.isEmpty t = false.
Proof.
  destruct o as [m | b s | r]; simpl; try discriminate.
  destruct (nonEmptyOpt (promptBlockReason r)); simpl; try discriminate.
  destruct (finishedNormally (finishReason r)); simpl; try discriminate.
  destruct (responseText r) as [m | t']; simpl; try discriminate.
  destruct (Js.isEmpty t') eqn:E; simpl; try discriminate.
  intros [= <-]. auto.
Qed.

(** One call: what it may do to the cache and to the list of requests. *)
Lemma callLlm_step (prompt : string) (useCache : bool) (st : LlmState) :
  let st' := snd (callLlm prompt useCache st) in
  (cache st' = cache st /\ providerRequests st' = providerRequests st /\
   (clientInitialized = false \/
    useCache = true /\ is_Some (cache st !! prompt))) \/
  (clientInitialized = true /\
   (useCache = true -> cache st !! prompt = None) /\
   providerRequests st' = providerRequests st ++ [prompt] /\
   (cache st' = cache st \/
    exists t, useCache = true /\
              readProvider (provider (length (providerRequests st)) prompt) = llmOk t /\
              Js.isEmpty t = false /\
              cache st' = <[prompt := t]> (cache st))).
Proof.
  unfold callLlm. destruct clientInitialized; simpl; [|left; auto].
  destruct useCache.
  - destruct (cache st !! prompt) as [t|] eqn:Hc; simpl.
    + left. split; [reflexivity|]. split; [reflexivity|].
      right. split; [reflexivity|]. eauto.
    + right. split; [reflexivity|]. split; [reflexivity|]. split; [reflexivity|].
      destruct (text (readProvider (provider (length (providerRequests st)) prompt)))
        as [t|] eqn:Ht; [|by left].
      destruct (readProvider_text _ _ Ht) as (Hr & Hne).
      right. exists t. auto.
  - right. split; [reflexivity|]. split; [discriminate|]. split; [reflexivity|].
    left. by destruct (text _).
Qed.

(** X1. An entry of the cache is never replaced or removed: whatever calls
    follow, with or without the cache, for this prompt or another, the prompt
    stays bound to the same text. *)
Theorem cache_entries_are_final (calls : list (string * bool)) (st : LlmState)
    (prompt t : string) :
  cache st !! prompt = Some t ->
  cache (callMany calls st) !! prompt = Some t.
Proof.
  revert st. induction calls as [|[p u] calls IH]; intros st Hc; [exact Hc|].
  apply IH. simpl.
  destruct (callLlm_step p u st) as [(Hcache & _) | (_ & Hmiss & _ & [Hcache | Hins])].
  - by rewrite Hcache.
  - by rewrite Hcache.
  - destruct Hins as (t' & -> & _ & _ & ->).
    rewrite lookup_insert_ne; [assumption|].
    intros <-. rewrite Hmiss in Hc by reflexivity. discriminate.
Qed.

Lemma cacheSound_step (prompt : string) (useCache : bool) (st : LlmState) :
  cacheSound st -> cacheSound (snd (callLlm prompt useCache st)).
Proof.
  intros Hst.
  destruct (callLlm_step prompt useCache st)
    as [(Hcache & Hreq & _) | (_ & _ & Hreq & [Hcache | Hins])];
    intros p t Hp.
  - rewrite Hcache in Hp. rewrite Hreq. by apply Hst.
  - rewrite Hcache in Hp. destruct (Hst p t Hp) as (Hne & n & Hn & Hr).
    split; [assumption|]. exists n. rewrite Hreq. split; [by apply lookup_app_l_Some|].
    assumption.
  - destruct Hins as (t' & _ & Hr & Hne & Hcache). rewrite Hcache in Hp. rewrite Hreq.
    destruct (decide (prompt = p)) as [<- | Hneq].
    + rewrite lookup_insert_eq in Hp. injection Hp as <-. split; [assumption|].
      exists (length (providerRequests st)). split; [|assumption].
      by rewrite lookup_app_r, Nat.sub_diag by lia.
    + rewrite lookup_insert_ne in Hp by assumption.
      destruct (Hst p t Hp) as (Hne' & n & Hn & Hr').
      split; [assumption|]. exists n. split; [by apply lookup_app_l_Some|]. assumption.
Qed.

(** X2. Starting from the empty cache, after any sequence of calls every
    cached text is non-empty and is the text of a normally finished answer
    that the provider gave to a request for that very prompt. *)
Theorem cache_holds_provider_answers (calls : list (string * bool)) :
  cacheSound (callMany calls initialState).
Proof.
  assert (Hall : forall st, cacheSound st -> cacheSound (callMany calls st)).
  { induction calls as [|[p u] calls IH]; intros st Hst; [exact Hst|].
    apply IH. by apply cacheSound_step. }
  apply Hall. intros p t Hp. simpl in Hp. by rewrite lookup_empty in Hp.
Qed.

(** X3. Once a prompt is cached, cache-enabled calls never send it to the
    provider again: over any sequence of calls in which this prompt is only
    called with the cache enabled, the number of provider requests for it
    does not change. *)
Theorem cached_prompt_is_not_requested_again (calls : list (string * bool))
    (st : LlmState) (prompt t : string) :
  cache st !! prompt = Some t ->
  Forall (fun c => fst c = prompt -> snd c = true) calls ->
  count_occ string_dec (providerRequests (callMany calls st)) prompt
  = count_occ string_dec (providerRequests st) prompt.
Proof.
  revert st. induction calls as [|[p u] calls IH]; intros st Hc Hcalls; [reflexivity|].
  inversion Hcalls as [|? ? Hpu Hrest]; subst. simpl in Hpu.
  assert (Hc' : cache (snd (callLlm p u st)) !! prompt = Some t)
    by apply (cache_entries_are_final [(p, u)] st prompt t Hc).
  simpl. rewrite (IH _ Hc' Hrest).
  destruct (callLlm_step p u st) as [(_ & -> & _) | (_ & Hmiss & -> & _)];
    [reflexivity|].
  rewrite count_occ_app. simpl.
  destruct (string_dec p prompt) as [-> | Hne]; [|lia].
  rewrite Hmiss in Hc by (by apply Hpu). discriminate.
Qed.

End GatewaySequences.

Lemma cached_prompt_is_not_requested_again_witness :
  count_occ string_dec
    (providerRequests
       (@callMany oneAnswer [("a prompt", true); ("another", false); ("a prompt", true)]
          (snd (@callLlm oneAnswer "a prompt" true initialState))))
    "a prompt"
  = count_occ string_dec
      (providerRequests (snd (@callLlm oneAnswer "a prompt" true initialState)))
      "a prompt".
Proof.
  apply (@cached_prompt_is_not_requested_again oneAnswer
           [("a prompt", true); ("another", false); ("a prompt", true)]
           (snd (@callLlm oneAnswer "a prompt" true initialState))
           "a prompt" "an answer").
  - reflexivity.
  - repeat (apply List.Forall_cons;
            [simpl; intros E; first [reflexivity | discriminate E] |]).
    apply List.Forall_nil.
Defined.

Lemma cache_entries_are_final_witness :
  cache (@callMany oneAnswer [("another", true); ("a prompt", false)]
           (snd (@callLlm oneAnswer "a prompt" true initialState))) !! "a prompt"
  = Some "an answer".
Proof.
  apply (@cache_entries_are_final oneAnswer [("another", true); ("a prompt", false)]
           (snd (@callLlm oneAnswer "a prompt" true initialState))).
  reflexivity.
Defined.

(** ** The retry-validate loop: accounting, success, missing client *)

Section LoopAccounting.
Context `{Externals}.
Variable promptGenerator : unit -> string + string.
Variable parser : string -> string + value.
Variable validator : Validator.
Variable useCache : bool.
Variable prompt : string.
Hypothesis returns : promptGenerator tt = inr prompt.

Local Abbreviation attempt' := (attempt promptGenerator parser validator useCache).
Local Abbreviation retryFrom' := (retryFrom promptGenerator parser validator useCache).

(** What [retryFrom] spends: [k] gateway calls, [m] of which reached the
    provider. *)
Lemma retryFrom_spends (n i : nat) (lastError : string) (st : LlmState) :
  let r := retryFrom' n i lastError st in
  exists k m,
    k <= n /\ m <= k /\
    gatewayCalls (snd r) = gatewayCalls st + k /\
    providerRequests (snd r) = providerRequests st ++ repeat prompt m /\
    (forall e, fst r = Failure e -> k = n) /\
    (useCache = false -> clientInitialized = true -> m = k).
Proof.
  revert i lastError st. induction n as [|n IH]; intros i lastError st.
  - exists 0, 0. simpl. rewrite app_nil_r. repeat split; auto; lia.
  - simpl. rewrite (attempt_unfold _ _ _ _ prompt returns).
    set (st1 := snd (callLlm prompt useCache st)).
    assert (Hcalls : gatewayCalls st1 = S (gatewayCalls st)) by apply callLlm_counts.
    assert (Hreq : exists m1, m1 <= 1 /\
              providerRequests st1 = providerRequests st ++ repeat prompt m1 /\
              (useCache = false -> clientInitialized = true -> m1 = 1)).
    { destruct (callLlm_step prompt useCache st)
        as [(_ & Hr & Hwhy) | (_ & _ & Hr & _)]; fold st1 in Hr.
      - exists 0. simpl. rewrite app_nil_r. split; [lia|]. split; [assumption|].
        intros Hu Hi. destruct Hwhy as [Hw | [Hw _]]; congruence.
      - exists 1. simpl. auto. }
    destruct Hreq as (m1 & Hm1 & Hreq & Hall).
    destruct (afterGateway _ _ i _) as [data | e].
    + exists 1, m1. simpl. repeat split; auto; try lia. discriminate.
    + destruct (IH (S i) e st1) as (k & m & Hk & Hm & Hc & Hr & Hf & Hu).
      exists (S k), (m1 + m). rewrite Hc, Hr, Hreq, Hcalls, <- app_assoc, repeat_app.
      repeat split; auto; try lia.
      * intros e' He'. f_equal. by eapply Hf.
      * intros Hu1 Hi. rewrite (Hall Hu1 Hi), (Hu Hu1 Hi). reflexivity.
Qed.

Lemma retryFrom_succeeds (n i : nat) (lastError : string) (st st' : LlmState)
    (data : value) :
  retryFrom' n i lastError st = (Success data, st') ->
  exists k stLast llmResult responseText block v,
    k < n /\
    gatewayCalls st' = gatewayCalls st + S k /\
    callLlm prompt useCache stLast = (llmResult, st') /\
    success llmResult = true /\
    text llmResult = Some responseText /\
    Fence.yamlBlock responseText = Some block /\
    Js.isEmpty block = false /\
    parser block = inr v /\
    validator v = (Accepted, data).
Proof.
  revert i lastError st. induction n as [|n IH]; intros i lastError st; simpl.
  - discriminate.
  - destruct (attempt' i st) as [[d|e] st1] eqn:Ha.
    + intros [= <- <-]. exists 0, st. revert Ha. unfold attempt. rewrite returns.
      destruct (callLlm _ _ st) as [r st1'] eqn:Hcall.
      unfold afterGateway, usableText, examine, extractBlock.
      destruct (success r) eqn:Hs; [|discriminate].
      destruct (text r) as [t|] eqn:Ht; simpl; [|discriminate].
      destruct (Js.isEmpty t); [discriminate|].
      destruct (Fence.yamlBlock t) as [block|] eqn:Hb; [|discriminate].
      destruct (Js.isEmpty block) eqn:Hne; [discriminate|].
      destruct (parser block) as [m|v] eqn:Hp; [discriminate|].
      destruct (validator v) as [[|reason|m] v'] eqn:Hv; try discriminate.
      intros [= <- <-]. exists r, t, block, v.
      assert (Hc := callLlm_counts prompt useCache st).
      rewrite Hcall in Hc. simpl in Hc.
      repeat split; auto; lia.
    + intros Hr. destruct (IH _ _ _ Hr)
        as (k & stLast & r & t & block & v & Hk & Hc & Hrest).
      exists (S k), stLast, r, t, block, v.
      assert (Hc1 := attempt_counts promptGenerator parser validator useCache
                       prompt returns i st).
      rewrite Ha in Hc1. simpl in Hc1.
      split; [lia|]. split; [lia|]. exact Hrest.
Qed.

Lemma retryFrom_without_client (n i : nat) (lastError : string) (st : LlmState) :
  clientInitialized = false ->
  retryFrom' (S n) i lastError st
  = (Failure "LLM client not initialized. Check API Key.", withCalls st (S n)).
Proof.
  intros Hno.
  assert (Hattempt : forall j s,
            attempt' j s = (Again "LLM client not initialized. Check API Key.",
                            withCalls s 1)).
  { intros j s. unfold attempt, callLlm, withCalls. rewrite returns, Hno. simpl.
    by rewrite Nat.add_1_r. }
  revert i lastError st. induction n as [|n IH]; intros i lastError st.
  - simpl. by rewrite Hattempt.
  - change (retryFrom' (S (S n)) i lastError st)
      with (match attempt' i st with
            | (Done data, st') => (Success data, st')
            | (Again e, st') => retryFrom' (S n) (S i) e st'
            end).
    rewrite Hattempt, IH, withCalls_withCalls. reflexivity.
Qed.

End LoopAccounting.

(** X4. The loop makes at most [maxRetries] gateway calls.  When the
    prompt factory returns a prompt: exactly that many when it fails (with
    [maxRetries = 0]: none); the only prompt it sends to the provider is its
    own, at most once per gateway call, and exactly once per call when the
    cache is off and the client exists.  When the factory throws: every
    attempt ends in the [catch] of the loop, the gateway is not called and
    the state is as it was, and the loop fails with the message of the
    exception behind the number of the last attempt (with [maxRetries = 0]:
    with the default message). *)
Theorem retry_loop_accounting `{Externals}
    (promptGenerator : unit -> string + string) (parser : string -> string + value)
    (validator : Validator) (useCache : bool) (maxRetries : nat) (st : LlmState) :
  let r := callLlmWithRetry promptGenerator parser validator useCache maxRetries st in
  match promptGenerator tt with
  | inr prompt =>
      exists k m,
        k <= maxRetries /\ m <= k /\
        gatewayCalls (snd r) = gatewayCalls st + k /\
        providerRequests (snd r) = providerRequests st ++ repeat prompt m /\
        (forall e, fst r = Failure e -> k = maxRetries) /\
        (useCache = false -> clientInitialized = true -> m = k)
  | inl message =>
      r = (Failure
             match maxRetries with
             | 0 => "Failed after multiple retries."
             | S n => "Error during LLM interaction (attempt " +:+ Js.ofNat (n + 1)
                      +:+ "): " +:+ message
             end,
           st)
  end.
Proof.
  cbv zeta. destruct (promptGenerator tt) as [message|prompt] eqn:Hfactory.
  - unfold callLlmWithRetry. destruct maxRetries as [|n]; [reflexivity|].
    by rewrite (retryFrom_throws _ _ _ _ message).
  - by apply retryFrom_spends.
Qed.

(** The two cases on concrete runs: a prompt whose three attempts fail,
    and the prompt of the inference stage, which cannot be built. *)
Example retry_loop_accounting_examples :
  @callLlmWithRetry answerThenQuota (fun _ => inr "a prompt") (fun s => inr (VStr s))
    refuseAll false 3 initialState
  = (Failure "LLM API Error: no answer scripted",
     {| cache := ∅; gatewayCalls := 3;
        providerRequests := ["a prompt"; "a prompt"; "a prompt"] |}) /\
  @callLlmWithRetry answerThenQuota
    (fun _ => getAnalyzeRelationshipsPrompt "demo" "0 # Gateway" "context" "english")
    (fun s => inr (VStr s)) refuseAll false 3 initialState
  = (Failure "Error during LLM interaction (attempt 3): list_lang_note is not defined",
     initialState).
Proof. split; vm_compute; reflexivity. Qed.

(** X5. Data leaves the loop only through the extractor, the parser and the
    validator: a successful run ended at its first accepted attempt, the
    [k+1]-th gateway call with [k < maxRetries]; the factory returned a
    prompt, the call with it returned a text with a non-empty fenced block,
    the parser read the block and the validator accepted the parsed value,
    leaving the data returned. *)
Theorem retry_loop_success `{Externals}
    (promptGenerator : unit -> string + string) (parser : string -> string + value)
    (validator : Validator) (useCache : bool) (maxRetries : nat)
    (st st' : LlmState) (data : value) :
  callLlmWithRetry promptGenerator parser validator useCache maxRetries st
    = (Success data, st') ->
  exists prompt k stLast llmResult responseText block v,
    promptGenerator tt = inr prompt /\
    k < maxRetries /\
    gatewayCalls st' = gatewayCalls st + S k /\
    callLlm prompt useCache stLast = (llmResult, st') /\
    success llmResult = true /\
    text llmResult = Some responseText /\
    Fence.yamlBlock responseText = Some block /\
    Js.isEmpty block = false /\
    parser block = inr v /\
    validator v = (Accepted, data).
Proof.
  intros Hrun. destruct (promptGenerator tt) as [message|prompt] eqn:Hfactory.
  - exfalso. unfold callLlmWithRetry in Hrun. destruct maxRetries as [|n];
      [discriminate|].
    by rewrite (retryFrom_throws _ _ _ _ message) in Hrun.
  - exists prompt. 
    destruct (retryFrom_succeeds promptGenerator parser validator useCache prompt
                Hfactory _ _ _ _ _ _ Hrun)
      as (k & stLast & r & t & block & v & Hrest).
    exists k, stLast, r, t, block, v. split; [reflexivity | exact Hrest].
Qed.

Lemma retry_loop_success_witness :
  exists prompt k stLast llmResult responseText block v,
    @inr string string "a prompt" = inr prompt /\
    k < 3 /\
    gatewayCalls (snd (@callLlmWithRetry answerThenQuota (fun _ => inr "a prompt")
                         (fun s => inr (VStr s)) acceptAll true 3 initialState))
      = gatewayCalls initialState + S k /\
    @callLlm answerThenQuota prompt true stLast
      = (llmResult,
         snd (@callLlmWithRetry answerThenQuota (fun _ => inr "a prompt")
                (fun s => inr (VStr s)) acceptAll true 3 initialState)) /\
    success llmResult = true /\
    text llmResult = Some responseText /\
    Fence.yamlBlock responseText = Some block /\
    Js.isEmpty block = false /\
    inr (VStr block) = @inr string value v /\
    acceptAll v = (Accepted, VStr "some data").
Proof.
  apply (@retry_loop_success answerThenQuota (fun _ => inr "a prompt")
           (fun s => inr (VStr s)) acceptAll true 3 initialState).
  reflexivity.
Defined.

(** X6. Without a client (no API key), and with a prompt factory that
    returns a prompt, the loop fails after [maxRetries] gateway calls with
    the gateway's message, and neither the cache nor the provider is
    touched. *)
Theorem retry_loop_without_client `{Externals}
    (promptGenerator : unit -> string + string) (prompt : string)
    (parser : string -> string + value)
    (validator : Validator) (useCache : bool) (maxRetries : nat) (st : LlmState) :
  promptGenerator tt = inr prompt ->
  clientInitialized = false ->
  1 <= maxRetries ->
  callLlmWithRetry promptGenerator parser validator useCache maxRetries st
  = (Failure "LLM client not initialized. Check API Key.", withCalls st maxRetries).
Proof.
  intros Hreturns Hno Hn. destruct maxRetries as [|n]; [lia|].
  by apply (retryFrom_without_client promptGenerator parser validator useCache prompt).
Qed.

Lemma retry_loop_without_client_witness :
  @callLlmWithRetry noClient (fun _ => inr "a prompt") (fun s => inr (VStr s))
     acceptAll true 3 initialState
  = (Failure "LLM client not initialized. Check API Key.", withCalls initialState 3).
Proof.
  apply (@retry_loop_without_client noClient (fun _ => inr "a prompt") "a prompt");
    [reflexivity | reflexivity | lia].
Defined.

(** X7. Without a client, a run that has its files ends in discovery:
    status 500 with the gateway's message, after the three gateway calls of
    the first stage, and nothing was sent to the provider. *)
Theorem run_without_client `{Externals}
    (projectName language : string) (fetchedFiles : list FileData) (st : LlmState) :
  clientInitialized = false ->
  generateTutorial projectName language fetchedFiles st
  = (JsonError 500
       "Failed to identify abstractions: LLM client not initialized. Check API Key.",
     withCalls st 3).
Proof.
  intros Hno. unfold generateTutorial, discover, callLlmWithRetry.
  rewrite (retryFrom_without_client _ _ _ _ _ eq_refl) by assumption. reflexivity.
Qed.

Lemma run_without_client_witness :
  @generateTutorial noClient "demo" "english" twoFiles initialState
  = (JsonError 500
       "Failed to identify abstractions: LLM client not initialized. Check API Key.",
     withCalls initialState 3).
Proof. apply (@run_without_client noClient). reflexivity. Defined.

(** ** The fenced-block extractor *)

Lemma sapp_assoc (a b c : string) : (a +:+ b) +:+ c = a +:+ (b +:+ c).
Proof. induction a as [|x a IH]; [reflexivity|]. rewrite !append_String. congruence. Qed.

Lemma sapp_nil_r (a : string) : a +:+ "" = a.
Proof. induction a as [|x a IH]; [reflexivity|]. rewrite append_String. congruence. Qed.

Lemma substring_all (r : string) (m : nat) :
  String.length r <= m -> String.substring 0 m r = r.
Proof.
  revert m. induction r as [|c r IH]; intros [|m] Hm; simpl in *; try lia; auto.
  rewrite IH by lia. reflexivity.
Qed.

Lemma substring_skip (p r : string) (m : nat) :
  String.length r <= m -> String.substring (String.length p) m (p +:+ r) = r.
Proof.
  intros Hm. induction p as [|c p IH]; [by apply substring_all|].
  rewrite append_String. exact IH.
Qed.

Lemma length_sapp (a b : string) :
  String.length (a +:+ b) = String.length a + String.length b.
Proof.
  induction a as [|c a IH]; [reflexivity|]. rewrite append_String. simpl. congruence.
Qed.

Lemma startsWith_split (p s : string) :
  Js.startsWith p s = true -> exists r, s = p +:+ r.
Proof.
  revert s. induction p as [|a p IH]; intros s; simpl; [eauto|].
  destruct s as [|b s]; [discriminate|].
  intros [Hab Hp]%andb_prop. apply Ascii.eqb_eq in Hab as ->.
  destruct (IH _ Hp) as [r ->]. eauto.
Qed.

Lemma startsWith_app (p r : string) : Js.startsWith p (p +:+ r) = true.
Proof.
  induction p as [|a p IH]; [reflexivity|]. rewrite append_String. simpl.
  by rewrite Ascii.eqb_refl.
Qed.

Lemma startsWith_weaken (p q x : string) :
  Js.startsWith p q = true -> Js.startsWith p (q +:+ x) = true.
Proof.
  revert q. induction p as [|a p IH]; intros q; simpl; [reflexivity|].
  destruct q as [|b q]; [discriminate|]. rewrite append_String. simpl.
  intros [-> Hp]%andb_prop. by rewrite IH.
Qed.

Lemma startsWith_nil (p : string) :
  Js.isEmpty p = false -> Js.startsWith p "" = false.
Proof. by destruct p. Qed.

Lemma includes_cons (p : string) (c : ascii) (s : string) :
  Js.includes p (String c s) = false ->
  Js.startsWith p (String c s) = false /\ Js.includes p s = false.
Proof.
  simpl. destruct p as [|a p]; [discriminate|].
  change (Js.startsWith (String a p) (String c s))
    with (Ascii.eqb a c && Js.startsWith p s).
  destruct (Ascii.eqb a c && Js.startsWith p s); [discriminate | auto].
Qed.

Lemma includes_prefix (p a b : string) :
  Js.includes p (a +:+ b) = false -> Js.includes p a = false.
Proof.
  induction a as [|c a IH]; intros Hab.
  - destruct p as [|x p]; [by destruct b | reflexivity].
  - rewrite append_String in Hab. destruct (includes_cons _ _ _ Hab) as [Hs Hi].
    assert (Hs' : Js.startsWith p (String c a) = false).
    { destruct (Js.startsWith p (String c a)) eqn:E; [|reflexivity].
      apply (startsWith_weaken _ _ b) in E. rewrite append_String in E. congruence. }
    change (Js.includes p (String c a))
      with (if Js.startsWith p (String c a) then true else Js.includes p a).
    rewrite Hs'. by apply IH.
Qed.

Lemma afterFirst_split (needle s rest : string) :
  Js.isEmpty needle = false ->
  Fence.afterFirst needle s = Some rest ->
  exists before, s = before +:+ needle +:+ rest /\ Js.includes needle before = false.
Proof.
  intros Hne. induction s as [|c s IH].
  - simpl. by rewrite startsWith_nil.
  - change (Fence.afterFirst needle (String c s))
      with (if Js.startsWith needle (String c s)
            then Some (String.substring (String.length needle)
                         (String.length (String c s)) (String c s))
            else Fence.afterFirst needle s).
    destruct (Js.startsWith needle (String c s)) eqn:Hs.
    + destruct (startsWith_split _ _ Hs) as [r Hr]. rewrite Hr.
      rewrite substring_skip by (rewrite length_sapp; lia).
      intros [= <-]. exists "". split; [reflexivity|].
      simpl. by rewrite startsWith_nil.
    + intros Hrest. destruct (IH Hrest) as (before & -> & Hinc).
      exists (String c before). split; [reflexivity|].
      change (Js.includes needle (String c before))
        with (if Js.startsWith needle (String c before) then true
              else Js.includes needle before).
      destruct (Js.startsWith needle (String c before)) eqn:E; [|assumption].
      apply (startsWith_weaken _ _ (needle +:+ rest)) in E.
      rewrite append_String in E. congruence.
Qed.

Lemma beforeFirst_split (needle s inner : string) :
  Js.isEmpty needle = false ->
  Fence.beforeFirst needle s = Some inner ->
  exists after, s = inner +:+ needle +:+ after /\ Js.includes needle inner = false.
Proof.
  intros Hne. revert inner. induction s as [|c s IH]; intros inner.
  - simpl. by rewrite startsWith_nil.
  - change (Fence.beforeFirst needle (String c s))
      with (if Js.startsWith needle (String c s) then Some EmptyString
            else option_map (String c) (Fence.beforeFirst needle s)).
    destruct (Js.startsWith needle (String c s)) eqn:Hs.
    + intros [= <-]. destruct (startsWith_split _ _ Hs) as [r Hr].
      exists r. split; [exact Hr|]. simpl. by rewrite startsWith_nil.
    + destruct (Fence.beforeFirst needle s) as [inner'|]; [|discriminate].
      intros [= <-]. destruct (IH _ eq_refl) as (after & -> & Hinc).
      exists after. split; [reflexivity|].
      change (Js.includes needle (String c inner'))
        with (if Js.startsWith needle (String c inner') then true
              else Js.includes needle inner').
      destruct (Js.startsWith needle (String c inner')) eqn:E; [|assumption].
      apply (startsWith_weaken _ _ (needle +:+ after)) in E.
      rewrite append_String in E. congruence.
Qed.

Lemma trimStart_split (s : string) :
  exists ws, s = ws +:+ Js.trimStart s /\ allWhiteSpace ws = true.
Proof.
  induction s as [|c s (ws & Hs & Hws)]; [by exists ""|]. simpl.
  destruct (Js.isWhiteSpace c) eqn:Hc.
  - exists (String c ws). rewrite append_String. simpl. rewrite Hc, Hws.
    split; [congruence | reflexivity].
  - by exists "".
Qed.

Lemma trimStart_head (s : string) :
  match Js.trimStart s with
  | String c _ => Js.isWhiteSpace c = false
  | EmptyString => True
  end.
Proof.
  induction s as [|c s IH]; simpl; [exact I|].
  destruct (Js.isWhiteSpace c) eqn:Hc; [exact IH | exact Hc].
Qed.

Lemma trimEnd_split (s : string) :
  exists ws, s = Js.trimEnd s +:+ ws /\ allWhiteSpace ws = true.
Proof.
  induction s as [|c s (ws & Hs & Hws)]; [by exists ""|]. simpl.
  destruct (Js.isWhiteSpace c && Js.isEmpty (Js.trimEnd s)) eqn:E.
  - apply andb_prop in E as [Hc He].
    destruct (Js.trimEnd s); [|discriminate]. change (s = ws) in Hs. subst s.
    exists (String c ws). simpl. by rewrite Hc, Hws.
  - exists ws. rewrite append_String. split; [congruence | assumption].
Qed.

Lemma trimEnd_idem (s : string) : Js.trimEnd (Js.trimEnd s) = Js.trimEnd s.
Proof.
  induction s as [|c s IH]; simpl; [reflexivity|].
  destruct (Js.isWhiteSpace c && Js.isEmpty (Js.trimEnd s)) eqn:E; simpl;
    [reflexivity|]. by rewrite IH, E.
Qed.

(** X8. A block found by the extractor is framed in the response: the text
    is [before ```yaml ws block ws' ``` after], where [before] holds no
    opening fence, [ws] and [ws'] are white space only, and the block is
    trimmed and holds no closing fence. *)
Theorem yamlBlock_frames_the_block (text block : string) :
  Fence.yamlBlock text = Some block ->
  exists before ws ws' after,
    text = before +:+ Fence.opening +:+ ws +:+ block +:+ ws' +:+ Fence.closing +:+ after /\
    Js.includes Fence.opening before = false /\
    allWhiteSpace ws = true /\ allWhiteSpace ws' = true /\
    Js.includes Fence.closing block = false /\
    Js.trim block = block.
Proof.
  unfold Fence.yamlBlock.
  destruct (Fence.afterFirst Fence.opening text) as [rest|] eqn:Ha; [|discriminate].
  destruct (Fence.beforeFirst Fence.closing (Js.trimStart rest)) as [inner|] eqn:Hb;
    [|discriminate].
  intros [= <-].
  destruct (afterFirst_split Fence.opening _ _ eq_refl Ha) as (before & -> & Hbefore).
  destruct (beforeFirst_split Fence.closing _ _ eq_refl Hb) as (after & Hr & Hinner).
  destruct (trimStart_split rest) as (ws & Hrest & Hws).
  destruct (trimEnd_split inner) as (ws' & Hi & Hws').
  exists before, ws, ws', after.
  split; [|split; [assumption|split; [assumption|split; [assumption|split]]]].
  - rewrite Hrest, Hr. rewrite Hi at 1. by rewrite sapp_assoc.
  - rewrite Hi in Hinner. by apply includes_prefix in Hinner.
  - unfold Js.trim. pose proof (trimStart_head rest) as Hhead. rewrite Hr in Hhead.
    destruct inner as [|c inner]; [reflexivity|].
    rewrite append_String in Hhead.
    assert (Hend : forall r, Js.trimEnd (String c r) = String c (Js.trimEnd r)).
    { intros r. simpl. by rewrite Hhead. }
    rewrite !Hend. simpl. rewrite Hhead. rewrite Hend, trimEnd_idem. reflexivity.
Qed.

Lemma yamlBlock_frames_the_block_witness :
  exists before ws ws' after,
    "Here it is:
```yaml
name: Gateway
```
Done." = before +:+ Fence.opening +:+ ws +:+ "name: Gateway" +:+ ws'
             +:+ Fence.closing +:+ after /\
    Js.includes Fence.opening before = false /\
    allWhiteSpace ws = true /\ allWhiteSpace ws' = true /\
    Js.includes Fence.closing "name: Gateway" = false /\
    Js.trim "name: Gateway" = "name: Gateway".
Proof. apply yamlBlock_frames_the_block. reflexivity. Defined.

(** No occurrence of the opening fence starts inside the text before it:
    the fence is not a proper suffix-prefix overlap of itself. *)
Lemma opening_no_overlap (c : ascii) (q rest : string) :
  Js.startsWith Fence.opening (String c q +:+ Fence.opening +:+ rest) = true ->
  Js.startsWith Fence.opening (String c q) = true.
Proof.
  unfold Fence.opening.
  destruct q as [|c2 [|c3 [|c4 [|c5 [|c6 [|c7 q]]]]]];
    rewrite ?append_String; cbn [Js.startsWith String.append];
    repeat match goal with
           | |- context [Ascii.eqb ?a ?b && _] =>
               destruct (Ascii.eqb a b); cbn [andb]
           end;
    auto.
Qed.

Lemma afterFirst_opening (before rest : string) :
  Js.includes Fence.opening before = false ->
  Fence.afterFirst Fence.opening (before +:+ Fence.opening +:+ rest) = Some rest.
Proof.
  induction before as [|c before IH]; intros Hinc.
  - change ("" +:+ Fence.opening +:+ rest) with (Fence.opening +:+ rest).
    destruct (Fence.opening +:+ rest) as [|x y] eqn:E; [discriminate|].
    change (Fence.afterFirst Fence.opening (String x y))
      with (if Js.startsWith Fence.opening (String x y)
            then Some (String.substring (String.length Fence.opening)
                         (String.length (String x y)) (String x y))
            else Fence.afterFirst Fence.opening y).
    rewrite <- E, startsWith_app, substring_skip; [reflexivity|].
    rewrite length_sapp. lia.
  - destruct (includes_cons _ _ _ Hinc) as [Hs Hi].
    rewrite append_String.
    change (Fence.afterFirst Fence.opening (String c (before +:+ Fence.opening +:+ rest)))
      with (if Js.startsWith Fence.opening (String c (before +:+ Fence.opening +:+ rest))
            then Some (String.substring (String.length Fence.opening)
                         (String.length (String c (before +:+ Fence.opening +:+ rest)))
                         (String c (before +:+ Fence.opening +:+ rest)))
            else Fence.afterFirst Fence.opening (before +:+ Fence.opening +:+ rest)).
    destruct (Js.startsWith Fence.opening (String c (before +:+ Fence.opening +:+ rest)))
      eqn:E; [|by apply IH].
    rewrite <- append_String in E. apply opening_no_overlap in E. congruence.
Qed.

Lemma whiteSpace_not_backtick (c : ascii) :
  Js.isWhiteSpace c = true -> Ascii.eqb "`" c = false.
Proof.
  intros Hc. destruct (Ascii.eqb "`" c) eqn:E; [|reflexivity].
  apply Ascii.eqb_eq in E. subst c. discriminate.
Qed.

Lemma trimStart_skip (ws s : string) :
  allWhiteSpace ws = true -> Js.trimStart (ws +:+ s) = Js.trimStart s.
Proof.
  induction ws as [|c ws IH]; [reflexivity|]. simpl.
  intros [Hc Hws]%andb_prop. rewrite ?append_String. simpl. rewrite Hc. by apply IH.
Qed.

Lemma trimStart_keeps (s tail : string) :
  Js.isEmpty s = false -> Js.trimStart s = s -> Js.trimStart (s +:+ tail) = s +:+ tail.
Proof.
  destruct s as [|c s]; [discriminate|]. intros _. rewrite ?append_String. simpl.
  destruct (Js.isWhiteSpace c) eqn:Hc; [|reflexivity].
  intros Hs. exfalso.
  destruct (trimStart_split s) as (ws & Hsplit & _).
  apply (f_equal String.length) in Hsplit. rewrite length_sapp, Hs in Hsplit.
  simpl in Hsplit. lia.
Qed.

Lemma beforeFirst_step (needle : string) (c : ascii) (s : string) :
  Js.startsWith needle (String c s) = false ->
  Fence.beforeFirst needle (String c s)
  = option_map (String c) (Fence.beforeFirst needle s).
Proof.
  intros Hs.
  change (Fence.beforeFirst needle (String c s))
    with (if Js.startsWith needle (String c s) then Some EmptyString
          else option_map (String c) (Fence.beforeFirst needle s)).
  by rewrite Hs.
Qed.

Lemma startsWith_closing_head (c : ascii) (s : string) :
  Ascii.eqb "`" c = false -> Js.startsWith Fence.closing (String c s) = false.
Proof.
  intros Hc. unfold Fence.closing.
  change (Js.startsWith "```" (String c s))
    with (Ascii.eqb "`" c && Js.startsWith "``" s).
  by rewrite Hc.
Qed.

Lemma beforeFirst_closing_ws (ws after : string) :
  allWhiteSpace ws = true ->
  Fence.beforeFirst Fence.closing (ws +:+ Fence.closing +:+ after) = Some ws.
Proof.
  induction ws as [|c ws IH]; [reflexivity|]. intros Hall.
  change (allWhiteSpace (String c ws))
    with (Js.isWhiteSpace c && allWhiteSpace ws) in Hall.
  apply andb_prop in Hall as [Hc Hws]. rewrite ?append_String.
  rewrite beforeFirst_step
    by (apply startsWith_closing_head; by apply whiteSpace_not_backtick).
  by rewrite (IH Hws).
Qed.

Lemma beforeFirst_closing (block ws after : string) :
  Js.includesChar "`" block = false ->
  allWhiteSpace ws = true ->
  Fence.beforeFirst Fence.closing (block +:+ ws +:+ Fence.closing +:+ after)
  = Some (block +:+ ws).
Proof.
  intros Hb Hws. induction block as [|c block IH].
  - by apply beforeFirst_closing_ws.
  - change (Js.includesChar "`" (String c block))
      with (if Ascii.eqb "`" c then true else Js.includesChar "`" block) in Hb.
    destruct (Ascii.eqb "`" c) eqn:Hc; [discriminate|].
    rewrite ?append_String.
    rewrite beforeFirst_step by (by apply startsWith_closing_head).
    by rewrite (IH Hb).
Qed.

Lemma trimEnd_ws (ws : string) : allWhiteSpace ws = true -> Js.trimEnd ws = "".
Proof.
  induction ws as [|c ws IH]; [reflexivity|]. simpl.
  intros [Hc Hws]%andb_prop. by rewrite (IH Hws), Hc.
Qed.

Lemma trimEnd_drops (block ws : string) :
  allWhiteSpace ws = true -> Js.trimEnd block = block ->
  Js.trimEnd (block +:+ ws) = block.
Proof.
  intros Hws. induction block as [|c block IH]; [intros _; by apply trimEnd_ws|].
  rewrite ?append_String. simpl.
  destruct (Js.isWhiteSpace c && Js.isEmpty (Js.trimEnd block)) eqn:E; [discriminate|].
  intros [= Hb]. rewrite (IH Hb). rewrite Hb in E. by rewrite E.
Qed.

Lemma trim_fixed (s : string) :
  Js.trim s = s -> Js.trimStart s = s /\ Js.trimEnd s = s.
Proof.
  unfold Js.trim. intros Hs.
  destruct (trimStart_split s) as (ws & Hsplit & _).
  destruct (trimEnd_split (Js.trimStart s)) as (ws' & Hsplit' & _).
  rewrite Hs in Hsplit'.
  assert (Hlen : String.length ws = 0 /\ String.length ws' = 0).
  { apply (f_equal String.length) in Hsplit, Hsplit'.
    rewrite length_sapp in Hsplit, Hsplit'. lia. }
  destruct Hlen as [H1 H2]. destruct ws; [|discriminate]. destruct ws'; [|discriminate].
  rewrite sapp_nil_r in Hsplit'. change (s = Js.trimStart s) in Hsplit.
  split; [congruence|]. rewrite <- Hsplit in Hs. exact Hs.
Qed.

(** X9. Round trip of the fence: a trimmed block without a backtick, put
    between an opening fence and a closing fence with any white space around
    it, is what the extractor returns, whatever follows the closing fence
    and whatever text without an opening fence comes first. *)
Theorem yamlBlock_round_trip (before ws block ws' after : string) :
  Js.includes Fence.opening before = false ->
  allWhiteSpace ws = true ->
  allWhiteSpace ws' = true ->
  Js.trim block = block ->
  Js.includesChar "`" block = false ->
  Fence.yamlBlock
    (before +:+ Fence.opening +:+ ws +:+ block +:+ ws' +:+ Fence.closing +:+ after)
  = Some block.
Proof.
  intros Hbefore Hws Hws' Htrim Hblock.
  destruct (trim_fixed _ Htrim) as [Hstart Hend].
  unfold Fence.yamlBlock. rewrite afterFirst_opening by assumption.
  rewrite trimStart_skip by assumption.
  destruct (Js.isEmpty block) eqn:Hne.
  - destruct block; [|discriminate].
    change ("" +:+ ws' +:+ Fence.closing +:+ after) with (ws' +:+ Fence.closing +:+ after).
    rewrite trimStart_skip by assumption.
    reflexivity.
  - rewrite trimStart_keeps by assumption.
    rewrite beforeFirst_closing by assumption.
    by rewrite trimEnd_drops.
Qed.

Lemma yamlBlock_round_trip_witness :
  Fence.yamlBlock
    ("Here is `the` answer: " +:+ Fence.opening +:+ "
" +:+ "- 1 # Gateway
- 0 # Cache" +:+ "
  " +:+ Fence.closing +:+ " and ```more```")
  = Some "- 1 # Gateway
- 0 # Cache".
Proof. apply yamlBlock_round_trip; reflexivity. Defined.

Lemma afterFirst_none (needle s : string) :
  Js.includes needle s = false -> Fence.afterFirst needle s = None.
Proof.
  induction s as [|c s IH]; simpl.
  - by destruct (Js.startsWith needle "").
  - destruct needle as [|a p]; [discriminate|].
    change (Js.startsWith (String a p) (String c s))
      with (Ascii.eqb a c && Js.startsWith p s).
    destruct (Ascii.eqb a c && Js.startsWith p s); [discriminate | exact IH].
Qed.

(** X10. A response without an opening fence is never accepted, whatever the
    parser and the validator: the attempt records that no block was found,
    with the first 500 characters of the response. *)
Theorem unfenced_response_fails `{Externals}
    (parser : string -> string + value) (validator : Validator) (i : nat)
    (responseText : string) :
  Js.includes Fence.opening responseText = false ->
  examine parser validator i responseText
  = Again ("Failed to parse LLM response: Could not find YAML block in LLM response."
           +:+ ". Response:
" +:+ Js.substring0 500 responseText +:+ "...").
Proof.
  intros Hno. unfold examine, extractBlock, Fence.yamlBlock.
  by rewrite afterFirst_none.
Qed.

Lemma unfenced_response_fails_witness :
  @examine plain (fun s => inr (VStr s)) acceptAll 0 "# Chapter 1: Gateway

A chapter in plain Markdown."
  = Again ("Failed to parse LLM response: Could not find YAML block in LLM response."
           +:+ ". Response:
" +:+ Js.substring0 500 "# Chapter 1: Gateway

A chapter in plain Markdown." +:+ "...").
Proof. apply (@unfenced_response_fails plain). reflexivity. Defined.

(** ** Index entries: what the prompts list is what the validators read *)

Lemma string_of_uint_digits (d : Decimal.uint) :
  allDigits (NilEmpty.string_of_uint d) = true.
Proof. induction d; simpl; auto. Qed.

Lemma ofNat_digits (n : nat) : allDigits (Js.ofNat n) = true.
Proof.
  unfold Js.ofNat, NilZero.string_of_uint.
  destruct (Nat.to_uint n) eqn:E; try reflexivity;
    rewrite <- E; apply string_of_uint_digits.
Qed.

Lemma digit_not (c x : ascii) :
  Js.isDigit x = false -> Js.isDigit c = true -> Ascii.eqb x c = false.
Proof.
  intros Hx Hc. destruct (Ascii.eqb x c) eqn:E; [|reflexivity].
  apply Ascii.eqb_eq in E. congruence.
Qed.

Lemma readDigits_stop (ds : string) (c : ascii) (rest : string) (acc : Z) (seen : bool) :
  allDigits ds = true -> Js.isDigit c = false ->
  Js.readDigits (ds +:+ String c rest) acc seen = Js.readDigits ds acc seen.
Proof.
  intros Hds Hc. revert acc seen. induction ds as [|d ds IH]; intros acc seen.
  - change ("" +:+ String c rest) with (String c rest). simpl. by rewrite Hc.
  - change (allDigits (String d ds)) with (Js.isDigit d && allDigits ds) in Hds.
    apply andb_prop in Hds as [Hd Hds]. rewrite append_String.
    cbn [Js.readDigits]. rewrite Hd. by apply IH.
Qed.

Lemma parseInt_ofNat (n : nat) : Js.parseInt (Js.ofNat n) = Some (Z.of_nat n).
Proof.
  destruct (ofNat_head n) as (c & r & Hs & Hd).
  assert (Hparse : Js.parseInt (Js.ofNat n) = Js.readDigits (Js.ofNat n) 0%Z false).
  { rewrite Hs. unfold Js.parseInt. simpl. rewrite (digit_not_space c Hd).
    assert (Hm : Js.isDigit "-" = false) by reflexivity.
    assert (Hp : Js.isDigit "+" = false) by reflexivity.
    rewrite Ascii.eqb_sym, (digit_not _ _ Hm Hd).
    rewrite Ascii.eqb_sym, (digit_not _ _ Hp Hd). reflexivity. }
  rewrite Hparse, <- (readDigits_stop _ " " "" 0%Z false (ofNat_digits n) eq_refl).
  by apply readDigits_ofNat.
Qed.

Lemma trimEnd_digits (ds : string) : allDigits ds = true -> Js.trimEnd ds = ds.
Proof.
  induction ds as [|d ds IH]; [reflexivity|]. simpl.
  intros [Hd Hds]%andb_prop. by rewrite (digit_not_space _ Hd), (IH Hds).
Qed.

Lemma trim_ofNat_space (n : nat) : Js.trim (Js.ofNat n +:+ " ") = Js.ofNat n.
Proof.
  unfold Js.trim.
  assert (Hstart : Js.trimStart (Js.ofNat n +:+ " ") = Js.ofNat n +:+ " ").
  { destruct (ofNat_head n) as (c & r & -> & Hd). rewrite append_String. simpl.
    by rewrite (digit_not_space _ Hd). }
  rewrite Hstart. apply trimEnd_drops; [reflexivity|].
  apply trimEnd_digits, ofNat_digits.
Qed.

Lemma trim_ofNat (n : nat) : Js.trim (Js.ofNat n) = Js.ofNat n.
Proof.
  unfold Js.trim.
  assert (Hstart : Js.trimStart (Js.ofNat n) = Js.ofNat n).
  { destruct (ofNat_head n) as (c & r & -> & Hd). simpl.
    by rewrite (digit_not_space _ Hd). }
  rewrite Hstart. apply trimEnd_digits, ofNat_digits.
Qed.

Lemma beforeChar_digits (ds tail : string) :
  allDigits ds = true ->
  Js.beforeChar "#" (ds +:+ " #" +:+ tail) = ds +:+ " ".
Proof.
  induction ds as [|d ds IH]; [reflexivity|]. intros Hds.
  change (allDigits (String d ds)) with (Js.isDigit d && allDigits ds) in Hds.
  apply andb_prop in Hds as [Hd Hds].
  change (String d ds +:+ " #" +:+ tail) with (String d (ds +:+ " #" +:+ tail)).
  change (String d ds +:+ " ") with (String d (ds +:+ " ")).
  cbn [Js.beforeChar]. rewrite (digit_not d "#" eq_refl Hd). by rewrite (IH Hds).
Qed.

Lemma includesChar_digits (ds tail : string) :
  Js.includesChar "#" (ds +:+ " #" +:+ tail) = true.
Proof.
  induction ds as [|d ds IH]; [reflexivity|].
  change (String d ds +:+ " #" +:+ tail) with (String d (ds +:+ " #" +:+ tail)).
  cbn [Js.includesChar]. rewrite IH. by destruct (Ascii.eqb "#" d).
Qed.

Lemma includesChar_ofNat (n : nat) : Js.includesChar "#" (Js.ofNat n) = false.
Proof.
  pose proof (ofNat_digits n) as Hds. induction (Js.ofNat n) as [|d ds IH]; [reflexivity|].
  change (allDigits (String d ds)) with (Js.isDigit d && allDigits ds) in Hds.
  apply andb_prop in Hds as [Hd Hds]. cbn [Js.includesChar].
  rewrite (digit_not d "#" eq_refl Hd). by apply IH.
Qed.

Lemma beforeChar_none (c : ascii) (s : string) :
  Js.includesChar c s = false -> Js.beforeChar c s = s.
Proof.
  induction s as [|d s IH]; [reflexivity|]. cbn [Js.includesChar Js.beforeChar].
  destruct (Ascii.eqb c d); [discriminate|]. intros Hs. by rewrite IH.
Qed.

Lemma listed_entries `{Externals} (i : nat) (entryName : string) :
  entryIndex (VStr (Js.ofNat i +:+ " # " +:+ entryName)) = inr (Num.ofNat i) /\
  endpointIndex (VStr (Js.ofNat i +:+ " # " +:+ entryName)) = inr (Num.ofNat i) /\
  entryIndex (VStr (Js.ofNat i)) = inr (Num.ofNat i) /\
  endpointIndex (VStr (Js.ofNat i)) = inr (Num.ofNat i).
Proof.
  assert (Hsplit : Js.beforeChar "#" (Js.ofNat i +:+ " # " +:+ entryName)
                   = Js.ofNat i +:+ " ").
  { change (" # " +:+ entryName) with (" #" +:+ (" " +:+ entryName)).
    apply beforeChar_digits, ofNat_digits. }
  assert (Hhas : Js.includesChar "#" (Js.ofNat i +:+ " # " +:+ entryName) = true).
  { change (" # " +:+ entryName) with (" #" +:+ (" " +:+ entryName)).
    apply includesChar_digits. }
  assert (Hbare : Js.beforeChar "#" (Js.ofNat i) = Js.ofNat i).
  { apply beforeChar_none, includesChar_ofNat. }
  unfold entryIndex, endpointIndex, jsString.
  rewrite Hhas, Hsplit, includesChar_ofNat, Hbare, trim_ofNat_space, trim_ofNat,
    parseInt_ofNat.
  repeat split.
Qed.

(** X11. The entries of the listings shown to the model are read back as
    their index: a list entry or a relationship endpoint of the form
    ["<i> # <name>"] (whatever the name, even one with a [#] in it) stands
    for [i], and so does the bare numeral ["<i>"]. *)
Theorem listed_entry_round_trip `{Externals} (i : nat) (entryName : string) :
  entryIndex (VStr (Js.ofNat i +:+ " # " +:+ entryName)) = inr (Num.ofNat i) /\
  endpointIndex (VStr (Js.ofNat i +:+ " # " +:+ entryName)) = inr (Num.ofNat i) /\
  entryIndex (VStr (Js.ofNat i)) = inr (Num.ofNat i) /\
  endpointIndex (VStr (Js.ofNat i)) = inr (Num.ofNat i).
Proof. apply listed_entries. Qed.


(** ** [sanitizeFilename] *)

Module SanitizeFacts.
Import Sanitize.

Lemma allKept_replaceOthers (s : string) : allKept (replaceOthers s) = true.
Proof.
  induction s as [|c s IH]; [reflexivity|]. cbn [replaceOthers allKept].
  rewrite IH. by destruct (isKept c) eqn:E; [rewrite E|].
Qed.

Lemma allKept_stripLeading (s : string) :
  allKept s = true -> allKept (stripLeading s) = true.
Proof.
  induction s as [|c s IH]; [reflexivity|]. cbn [stripLeading].
  destruct (isEdge c); [|done]. cbn [allKept]. intros [_ Hs]%andb_prop. auto.
Qed.

Lemma allKept_stripTrailing (s : string) :
  allKept s = true -> allKept (stripTrailing s) = true.
Proof.
  induction s as [|c s IH]; [reflexivity|]. cbn [stripTrailing allKept].
  intros [Hc Hs]%andb_prop.
  destruct (isEdge c && Js.isEmpty (stripTrailing s)); [reflexivity|].
  cbn [allKept]. by rewrite Hc, IH.
Qed.

Lemma allKept_collapse (s : string) :
  allKept s = true -> allKept (collapseUnderscores s) = true.
Proof.
  induction s as [|c s IH]; [reflexivity|]. cbn [collapseUnderscores allKept].
  intros [Hc Hs]%andb_prop.
  destruct (Ascii.eqb c "_" && Js.startsWith "_" (collapseUnderscores s)); [auto|].
  cbn [allKept]. by rewrite Hc, IH.
Qed.

Lemma head_stripLeading (s : string) : headIsEdge (stripLeading s) = false.
Proof.
  induction s as [|c s IH]; [reflexivity|]. cbn [stripLeading].
  destruct (isEdge c) eqn:E; [exact IH | exact E].
Qed.

Lemma head_stripTrailing (s : string) :
  headIsEdge s = false -> headIsEdge (stripTrailing s) = false.
Proof.
  destruct s as [|c s]; [reflexivity|]. cbn [headIsEdge stripTrailing].
  intros Hc. rewrite Hc. exact Hc.
Qed.

Lemma last_stripTrailing (s : string) : lastIsEdge (stripTrailing s) = false.
Proof.
  induction s as [|c s IH]; [reflexivity|]. cbn [stripTrailing].
  destruct (isEdge c && Js.isEmpty (stripTrailing s)) eqn:E; [reflexivity|].
  cbn [lastIsEdge]. destruct (Js.isEmpty (stripTrailing s)); [|exact IH].
  by rewrite andb_true_r in E.
Qed.

Lemma isEmpty_collapse (s : string) :
  Js.isEmpty (collapseUnderscores s) = Js.isEmpty s.
Proof.
  destruct s as [|c s]; [reflexivity|]. cbn [collapseUnderscores].
  destruct (Ascii.eqb c "_" && Js.startsWith "_" (collapseUnderscores s)) eqn:E;
    [|reflexivity].
  apply andb_prop in E as [_ E]. by destruct (collapseUnderscores s).
Qed.

Lemma head_collapse (s : string) :
  headIsEdge (collapseUnderscores s) = headIsEdge s.
Proof.
  destruct s as [|c s]; [reflexivity|]. cbn [collapseUnderscores].
  destruct (Ascii.eqb c "_" && Js.startsWith "_" (collapseUnderscores s)) eqn:E;
    [|reflexivity].
  apply andb_prop in E as [Hc E]. apply Ascii.eqb_eq in Hc. subst c.
  destruct (collapseUnderscores s) as [|d r]; [discriminate|].
  cbn [Js.startsWith] in E. apply andb_prop in E as [Hd _].
  apply Ascii.eqb_eq in Hd. by subst d.
Qed.

Lemma last_collapse (s : string) :
  lastIsEdge (collapseUnderscores s) = lastIsEdge s.
Proof.
  induction s as [|c s IH]; [reflexivity|]. cbn [collapseUnderscores lastIsEdge].
  destruct (Ascii.eqb c "_" && Js.startsWith "_" (collapseUnderscores s)) eqn:E.
  - apply andb_prop in E as [_ E]. rewrite IH.
    rewrite <- (isEmpty_collapse s). by destruct (collapseUnderscores s).
  - cbn [lastIsEdge]. by rewrite isEmpty_collapse, IH.
Qed.

Lemma double_head (c : ascii) (s : string) :
  Js.startsWith "__" (String c s) = Ascii.eqb c "_" && Js.startsWith "_" s.
Proof. cbn [Js.startsWith]. by rewrite (Ascii.eqb_sym c). Qed.

Lemma includes_double_cons (c : ascii) (s : string) :
  Js.includes "__" (String c s)
  = (Ascii.eqb c "_" && Js.startsWith "_" s) || Js.includes "__" s.
Proof.
  change (Js.includes "__" (String c s))
    with (if Js.startsWith "__" (String c s) then true else Js.includes "__" s).
  rewrite double_head. by destruct (Ascii.eqb c "_" && Js.startsWith "_" s).
Qed.

Lemma collapse_no_double (s : string) :
  Js.includes "__" (collapseUnderscores s) = false.
Proof.
  induction s as [|c s IH]; [reflexivity|]. cbn [collapseUnderscores].
  destruct (Ascii.eqb c "_" && Js.startsWith "_" (collapseUnderscores s)) eqn:E;
    [exact IH|].
  by rewrite includes_double_cons, E, IH.
Qed.

Lemma replaceOthers_fixed (s : string) : allKept s = true -> replaceOthers s = s.
Proof.
  induction s as [|c s IH]; [reflexivity|]. cbn [allKept replaceOthers].
  intros [Hc Hs]%andb_prop. by rewrite Hc, IH.
Qed.

Lemma stripLeading_fixed (s : string) : headIsEdge s = false -> stripLeading s = s.
Proof. destruct s as [|c s]; [reflexivity|]. cbn. by intros ->. Qed.

Lemma stripTrailing_fixed (s : string) : lastIsEdge s = false -> stripTrailing s = s.
Proof.
  induction s as [|c s IH]; [reflexivity|]. cbn [lastIsEdge stripTrailing].
  destruct s as [|d s].
  - cbn. by intros ->.
  - cbn [Js.isEmpty]. intros Hs. rewrite (IH Hs). cbn [Js.isEmpty].
    by rewrite andb_false_r.
Qed.

Lemma collapse_fixed (s : string) :
  Js.includes "__" s = false -> collapseUnderscores s = s.
Proof.
  induction s as [|c s IH]; [reflexivity|]. rewrite includes_double_cons.
  intros [Hc Hs]%orb_false_elim. cbn [collapseUnderscores].
  by rewrite (IH Hs), Hc.
Qed.

Lemma allEdge_stripLeading (s : string) : allEdge (stripLeading s) = allEdge s.
Proof.
  induction s as [|c s IH]; [reflexivity|]. cbn [stripLeading allEdge].
  destruct (isEdge c) eqn:E; [exact IH|]. cbn [allEdge]. by rewrite E.
Qed.

Lemma isEmpty_stripTrailing (s : string) :
  Js.isEmpty (stripTrailing s) = allEdge s.
Proof.
  induction s as [|c s IH]; [reflexivity|]. cbn [stripTrailing allEdge].
  rewrite <- IH. by destruct (isEdge c && Js.isEmpty (stripTrailing s)).
Qed.

Lemma edge_not_alphanumeric (c : ascii) :
  isEdge c = true -> Js.isLower c || Js.isUpper c || Js.isDigit c = false.
Proof.
  unfold isEdge. rewrite !orb_true_iff, !Ascii.eqb_eq.
  intros [[-> | ->] | ->]; reflexivity.
Qed.

Lemma isEdge_replaced (c : ascii) :
  isEdge (if isKept c then c else "_"%char)
  = negb (Js.isLower c || Js.isUpper c || Js.isDigit c).
Proof.
  destruct (isKept c) eqn:K.
  - destruct (isEdge c) eqn:E; [by rewrite edge_not_alphanumeric|].
    unfold isKept, isEdge in *.
    destruct (Js.isLower c), (Js.isUpper c), (Js.isDigit c), (Ascii.eqb c "_"),
      (Ascii.eqb c "."), (Ascii.eqb c "-"); simpl in *; congruence.
  - change (isEdge "_") with true. unfold isKept in K.
    destruct (Js.isLower c), (Js.isUpper c), (Js.isDigit c); simpl in *; congruence.
Qed.

Lemma allEdge_replaceOthers (s : string) :
  allEdge (replaceOthers s) = negb (hasAlphanumeric s).
Proof.
  induction s as [|c s IH]; [reflexivity|].
  cbn [replaceOthers allEdge hasAlphanumeric].
  by rewrite IH, negb_orb, isEdge_replaced.
Qed.

End SanitizeFacts.

Lemma sanitized_is_clean (fileName : string) :
  cleanName (sanitizeFilename fileName) = true.
Proof.
  unfold sanitizeFilename. destruct (Js.isEmpty fileName); [reflexivity|].
  unfold cleanName, Sanitize.stripEdges.
  rewrite SanitizeFacts.allKept_collapse, SanitizeFacts.head_collapse,
    SanitizeFacts.last_collapse, SanitizeFacts.collapse_no_double.
  - rewrite SanitizeFacts.head_stripTrailing by apply SanitizeFacts.head_stripLeading.
    by rewrite SanitizeFacts.last_stripTrailing.
  - apply SanitizeFacts.allKept_stripTrailing, SanitizeFacts.allKept_stripLeading,
      SanitizeFacts.allKept_replaceOthers.
Qed.

(** X12. Whatever the name, the sanitized name holds only ASCII letters,
    digits, [_], [.] and [-], neither starts nor ends with [_], [.] or [-],
    and has no two underscores in a row. *)
Theorem sanitizeFilename_clean (fileName : string) :
  cleanName (sanitizeFilename fileName) = true.
Proof. apply sanitized_is_clean. Qed.

(** X13. A name that is already clean and not empty is left as it is; so
    sanitizing twice changes nothing more, as long as the first result is
    not empty. *)
Theorem sanitizeFilename_fixed (fileName : string) :
  (Js.isEmpty fileName = false -> cleanName fileName = true ->
   sanitizeFilename fileName = fileName) /\
  (Js.isEmpty (sanitizeFilename fileName) = false ->
   sanitizeFilename (sanitizeFilename fileName) = sanitizeFilename fileName).
Proof.
  assert (Hfix : forall s, Js.isEmpty s = false -> cleanName s = true ->
                           sanitizeFilename s = s).
  { intros s Hne Hclean. unfold cleanName in Hclean.
    apply andb_prop in Hclean as [[[Hk Hh]%andb_prop Hl]%andb_prop Hd].
    apply negb_true_iff in Hh, Hl, Hd.
    unfold sanitizeFilename, Sanitize.stripEdges. rewrite Hne.
    rewrite SanitizeFacts.replaceOthers_fixed, SanitizeFacts.stripLeading_fixed,
      SanitizeFacts.stripTrailing_fixed, SanitizeFacts.collapse_fixed; auto. }
  split; [apply Hfix|]. intros Hne. apply Hfix; [exact Hne|].
  apply sanitized_is_clean.
Qed.

Lemma sanitizeFilename_fixed_witness :
  sanitizeFilename "my-repo_v2.1" = "my-repo_v2.1" /\
  sanitizeFilename (sanitizeFilename "  My Repo!! ") = sanitizeFilename "  My Repo!! ".
Proof.
  split.
  - apply (proj1 (sanitizeFilename_fixed "my-repo_v2.1")); reflexivity.
  - apply (proj2 (sanitizeFilename_fixed "  My Repo!! ")). reflexivity.
Defined.

(** X14. The sanitized name is empty exactly when the name is not empty and
    has no ASCII letter or digit (["???"], ["__"], a title in another
    script): the fallback ["untitled"] is only for the empty name. *)
Theorem sanitizeFilename_empty (fileName : string) :
  Js.isEmpty (sanitizeFilename fileName)
  = negb (Js.isEmpty fileName) && negb (hasAlphanumeric fileName).
Proof.
  unfold sanitizeFilename. destruct (Js.isEmpty fileName) eqn:E; [reflexivity|].
  unfold Sanitize.stripEdges.
  rewrite SanitizeFacts.isEmpty_collapse, SanitizeFacts.isEmpty_stripTrailing,
    SanitizeFacts.allEdge_stripLeading, SanitizeFacts.allEdge_replaceOthers.
  reflexivity.
Qed.

(** ** [getContentForIndices] *)

Lemma contentKey_index (i j : nat) (f g : FileData) :
  contentKey i f = contentKey j g -> i = j.
Proof.
  intros Hk.
  pose proof (proj1 (@listed_entries plain i (path f))) as Hi.
  pose proof (proj1 (@listed_entries plain j (path g))) as Hj.
  unfold contentKey in Hk. rewrite Hk, Hj in Hi. injection Hi as Hi. lia.
Qed.

Lemma fillContentMap_spec (validIndices : list number) (filesData : list FileData)
    (i : nat) (contentMap : gmap string string) (key c : string) :
  (forall k, is_Some (contentMap !! k) -> exists j f, j < i /\ k = contentKey j f) ->
  fillContentMap validIndices filesData i contentMap !! key = Some c <->
  contentMap !! key = Some c \/
  exists j file, filesData !! j = Some file /\
                 NumSet.has (Num.ofNat (i + j)) validIndices = true /\
                 key = contentKey (i + j) file /\ c = content file.
Proof.
  revert i contentMap. induction filesData as [|file rest IH]; intros i m Hm.
  - simpl. split; [auto|]. intros [Hc | (j & f & Hj & _)]; [assumption|].
    by rewrite lookup_nil in Hj.
  - cbn [fillContentMap].
    set (m' := if NumSet.has (Num.ofNat i) validIndices
               then <[contentKey i file := content file]> m else m).
    assert (Hm' : forall k, is_Some (m' !! k) ->
                            exists j f, j < S i /\ k = contentKey j f).
    { intros k Hk. subst m'. destruct (NumSet.has (Num.ofNat i) validIndices).
      - destruct (decide (contentKey i file = k)) as [<- | Hne].
        + exists i, file. split; [lia | reflexivity].
        + rewrite lookup_insert_ne in Hk by assumption.
          destruct (Hm k Hk) as (j & f & Hj & ->). exists j, f. split; [lia | reflexivity].
      - destruct (Hm k Hk) as (j & f & Hj & ->). exists j, f. split; [lia | reflexivity]. }
    rewrite (IH (S i) m' Hm').
    assert (Hstep : m' !! key = Some c <->
              m !! key = Some c \/
              (NumSet.has (Num.ofNat i) validIndices = true /\
               key = contentKey i file /\ c = content file)).
    { subst m'. destruct (NumSet.has (Num.ofNat i) validIndices) eqn:Hhas.
      - destruct (decide (contentKey i file = key)) as [<- | Hne].
        + rewrite lookup_insert_eq. split.
          * intros [= <-]. right. auto.
          * intros [Hc | (_ & _ & ->)]; [|reflexivity].
            destruct (Hm _ (mk_is_Some _ _ Hc)) as (j & f & Hj & Hk).
            apply contentKey_index in Hk. lia.
        + rewrite lookup_insert_ne by assumption. split; [auto|].
          intros [Hc | (_ & -> & _)]; [assumption | congruence].
      - split; [auto|]. intros [Hc | (Hf & _)]; [assumption | discriminate]. }
    rewrite Hstep. split.
    + intros [[Hc | (Hhas & -> & ->)] | (j & f & Hj & Hhas & -> & ->)].
      * by left.
      * right. exists 0, file. rewrite Nat.add_0_r. auto.
      * right. exists (S j), f. replace (i + S j) with (S i + j) by lia. auto.
    + intros [Hc | (j & f & Hj & Hhas & -> & ->)]; [by left; left|].
      destruct j as [|j].
      * injection Hj as <-. rewrite Nat.add_0_r in *. left. right. auto.
      * right. exists j, f. replace (S i + j) with (i + S j) by lia. auto.
Qed.

(** X15. The content map has exactly one entry for each file whose position
    is among the indices, under the key ["<i> # <path>"] and holding that
    file's content.  Indices that are no position of the list (too large,
    negative, fractional, NaN) and repeated indices add nothing, and two
    files never share a key. *)
Theorem getContentForIndices_spec (filesData : list FileData) (indices : list number)
    (key c : string) :
  getContentForIndices filesData indices !! key = Some c <->
  exists i file, filesData !! i = Some file /\
                 NumSet.has (Num.ofNat i) indices = true /\
                 key = contentKey i file /\ c = content file.
Proof.
  unfold getContentForIndices. rewrite fillContentMap_spec.
  - split.
    + intros [Hc | (j & f & Hj & Hhas & Hk & Hcf)]; [by rewrite lookup_empty in Hc|].
      exists j, f. unfold NumSet.ofList in Hhas. rewrite has_ofList in Hhas. auto.
    + intros (j & f & Hj & Hhas & Hk & Hcf). right. exists j, f.
      unfold NumSet.ofList. rewrite has_ofList. auto.
  - intros k Hk. rewrite lookup_empty in Hk. by destruct Hk.
Qed.

(** ** What the stage validators leave in accepted data *)

Section AcceptedShapes.
Context `{Externals}.

Lemma checkAbstraction_named (fileCount : nat) (item item' : value) :
  checkAbstraction fileCount item = Passes item' ->
  exists n d,
    Val.get "name" item = Some (VStr n) /\ Val.get "description" item = Some (VStr d) /\
    Js.isEmpty n = false /\ Js.isEmpty d = false /\
    Val.get "name" item' = Some (VStr n) /\ Val.get "description" item' = Some (VStr d).
Proof.
  unfold checkAbstraction.
  destruct (negb (Val.truthy item) || _ || _ || _) eqn:Hguard; [discriminate|].
  apply orb_false_iff in Hguard as [Hguard Hd].
  apply orb_false_iff in Hguard as [_ Hn].
  destruct item as [| | | |items|fields]; try discriminate.
  destruct (Val.get "name" (VObj fields)) as [[| | |n| |]|] eqn:En;
    try (destruct (jsStringOpt _); discriminate).
  destruct (Val.get "description" (VObj fields)) as [[| | |d| |]|] eqn:Ed;
    try (destruct (jsStringOpt _); discriminate).
  destruct (Val.orElse _ _) as [[| | | |fileIndices|]|]; try discriminate.
  destruct (collectFileIndices fileCount n fileIndices []) as [indices| |];
    try discriminate.
  intros [= <-]. exists n, d. simpl in Hn, Hd.
  apply negb_false_iff, negb_true_iff in Hn, Hd.
  repeat split; auto; simpl in *;
    rewrite lookup_assign_other by discriminate; assumption.
Qed.

Lemma checkRelationship_shape (count : nat) (rel rel' : value) (f t : number) :
  checkRelationship count rel = inr (rel', f, t) ->
  Val.get "from" rel' = Some (VNum f) /\ Val.get "to" rel' = Some (VNum t) /\
  (exists l, Val.get "label" rel' = Some (VStr l)) /\
  inInterval count f /\ inInterval count t.
Proof.
  intros Hc. destruct (checkRelationship_inr count _ _ _ _ Hc) as (_ & _ & Hf & Ht).
  revert Hc. unfold checkRelationship.
  destruct (negb (Val.truthy rel) || negb (Val.isObjectType rel)); [discriminate|].
  destruct rel as [| | | |items|fields]; try discriminate.
  destruct (firstDefined _ _) as [fv|]; [|discriminate].
  destruct (firstDefined _ _) as [tv|]; [|discriminate].
  destruct (Val.get "label" (VObj fields)) as [[| | |l| |]|] eqn:El; try discriminate.
  destruct (endpointIndex fv) as [message|fromIdx]; [discriminate|].
  destruct (endpointIndex tv) as [message|toIdx]; [discriminate|].
  destruct (Num.isNaN fromIdx || _ || _ || _ || _ || _);
    [destruct (jsString fv), (jsString tv); discriminate|].
  intros [= <- <- <-]. simpl in *.
  split; [|split; [|split; [|split]]]; auto.
  - rewrite lookup_assign_other by discriminate. apply lookup_assign_same.
  - apply lookup_assign_same.
  - exists l. by rewrite !lookup_assign_other by discriminate.
Qed.

Lemma checkRelationships_shape (count : nat) (rels rels' : list value)
    (acc mentioned : list number) :
  checkRelationships count rels acc = (inr mentioned, rels') ->
  Forall (fun rel' =>
            exists f t l,
              Val.get "from" rel' = Some (VNum f) /\
              Val.get "to" rel' = Some (VNum t) /\
              Val.get "label" rel' = Some (VStr l) /\
              inInterval count f /\ inInterval count t)
         rels'.
Proof.
  revert rels' acc. induction rels as [|rel rest IH]; intros rels' acc; simpl.
  - intros [= _ <-]. constructor.
  - destruct (checkRelationship count rel) as [reason|[[rel' f] t]] eqn:Hr;
      [discriminate|].
    destruct (checkRelationships count rest _) as [r rest'] eqn:Hrest.
    intros [= -> <-]. constructor; [|by eapply IH].
    destruct (checkRelationship_shape _ _ _ _ _ Hr) as (Hf & Ht & [l Hl] & Hif & Hit).
    exists f, t, l. auto.
Qed.

(** The entries stand for the indices [l] when each converts, to one of
    them. *)
Lemma entries_indices (entries : list value) (l : list nat) :
  Forall2 (fun entry k => exists idx, entryIndex entry = inr idx /\ isIndex idx k)
    entries l <->
  exists indices, entryIndices entries = inr indices /\ Forall2 isIndex indices l.
Proof.
  revert l. induction entries as [|entry rest IH]; intros l; simpl.
  - split.
    + intros Hl. inversion Hl; subst. exists []. split; [reflexivity | constructor].
    + intros (indices & [= <-] & Hl). inversion Hl; subst. constructor.
  - split.
    + intros Hl. inversion Hl as [|? k ? l' (idx & He & Hk) Hl']; subst.
      apply IH in Hl' as (indices & Hc & Hf). exists (idx :: indices).
      rewrite He, Hc. split; [reflexivity | by constructor].
    + intros (indices & Hc & Hl).
      destruct (entryIndex entry) as [message|idx] eqn:He; [discriminate|].
      destruct (entryIndices rest) as [message|converted] eqn:Hr; [discriminate|].
      injection Hc as <-. inversion Hl; subst.
      constructor; [eauto|]. apply IH. eauto.
Qed.

End AcceptedShapes.

(** X16. In data the discovery validator accepts, every record keeps the
    name and the description it came with, and both are non-empty strings;
    no record is added or dropped. *)
Theorem accepted_abstractions_are_named `{Externals} (fileCount : nat)
    (parsed data : value) :
  abstractionsValidator fileCount parsed = (Accepted, data) ->
  exists items items',
    parsed = VArr items /\ data = VArr items' /\
    Forall2 (fun item item' =>
               exists n d,
                 Val.get "name" item = Some (VStr n) /\
                 Val.get "description" item = Some (VStr d) /\
                 Js.isEmpty n = false /\ Js.isEmpty d = false /\
                 Val.get "name" item' = Some (VStr n) /\
                 Val.get "description" item' = Some (VStr d))
            items items'.
Proof.
  unfold abstractionsValidator. destruct parsed as [| | | |items|]; try discriminate.
  destruct (checkAbstractions fileCount items) as [r items'] eqn:Hc.
  intros [= -> <-]. exists items, items'. split; [reflexivity|]. split; [reflexivity|].
  revert items' Hc. induction items as [|item rest IH]; intros items'; simpl.
  - intros [= <-]. constructor.
  - destruct (checkAbstraction fileCount item) as [item1|reason|message] eqn:Hi;
      try discriminate.
    destruct (checkAbstractions fileCount rest) as [r rest'] eqn:Hrest.
    intros [= -> <-]. constructor; [by eapply checkAbstraction_named | by apply IH].
Qed.

Lemma accepted_abstractions_are_named_witness :
  exists items items',
    VArr [abstractionItem "Gateway" [VStr "0 # llm.ts"];
          abstractionItem "Caching Layer" [int 1; int 0]] = VArr items /\
    snd (@abstractionsValidator plain 2
           (VArr [abstractionItem "Gateway" [VStr "0 # llm.ts"];
                  abstractionItem "Caching Layer" [int 1; int 0]])) = VArr items' /\
    Forall2 (fun item item' =>
               exists n d,
                 Val.get "name" item = Some (VStr n) /\
                 Val.get "description" item = Some (VStr d) /\
                 Js.isEmpty n = false /\ Js.isEmpty d = false /\
                 Val.get "name" item' = Some (VStr n) /\
                 Val.get "description" item' = Some (VStr d))
            items items'.
Proof.
  apply (@accepted_abstractions_are_named plain 2). vm_compute. reflexivity.
Defined.

(** X17. In a graph the relationship validator accepts, [details] and
    [relationships] are the same list, the summary is a string, and every
    edge carries a string label and numeric [from] and [to] that lie in
    [[0, count)]. *)
Theorem accepted_relationships_are_normalized `{Externals} (count : nat)
    (parsed parsed' : value) :
  relationshipsValidator count parsed = (Accepted, parsed') ->
  exists s rels',
    Val.get "summary" parsed' = Some (VStr s) /\
    Val.get "details" parsed' = Some (VArr rels') /\
    Val.get "relationships" parsed' = Some (VArr rels') /\
    Forall (fun rel' =>
              exists f t l,
                Val.get "from" rel' = Some (VNum f) /\
                Val.get "to" rel' = Some (VNum t) /\
                Val.get "label" rel' = Some (VStr l) /\
                inInterval count f /\ inInterval count t)
           rels'.
Proof.
  unfold relationshipsValidator.
  destruct (negb (Val.truthy parsed) || negb (Val.isObjectType parsed) || _) eqn:Hguard;
    [discriminate|].
  destruct (negb (Val.truthyOpt _) && _); [discriminate|].
  destruct (Val.orElse _ _) as [[| | | |relArray|]|]; try discriminate.
  destruct (checkRelationships count relArray []) as [r relArray'] eqn:Hc.
  apply orb_false_iff in Hguard as [Hguard Hsummary].
  destruct parsed as [| | | |items|fields]; try discriminate.
  destruct r as [reason|mentioned]; [discriminate|].
  destruct (Val.get "summary" (VObj fields)) as [[| | |s| |]|] eqn:Es; try discriminate.
  intros [= _ <-]. exists s, relArray'. simpl in *.
  split; [by rewrite !lookup_assign_other by discriminate|].
  split; [rewrite lookup_assign_other by discriminate; apply lookup_assign_same|].
  split; [apply lookup_assign_same|].
  by eapply checkRelationships_shape.
Qed.

Lemma accepted_relationships_are_normalized_witness :
  exists s rels',
    Val.get "summary"
      (snd (@relationshipsValidator plain 2
              (graph [edge (VStr "0 # Gateway") (VStr "1 # Caching Layer")])))
      = Some (VStr s) /\
    Val.get "details"
      (snd (@relationshipsValidator plain 2
              (graph [edge (VStr "0 # Gateway") (VStr "1 # Caching Layer")])))
      = Some (VArr rels') /\
    Val.get "relationships"
      (snd (@relationshipsValidator plain 2
              (graph [edge (VStr "0 # Gateway") (VStr "1 # Caching Layer")])))
      = Some (VArr rels') /\
    Forall (fun rel' =>
              exists f t l,
                Val.get "from" rel' = Some (VNum f) /\
                Val.get "to" rel' = Some (VNum t) /\
                Val.get "label" rel' = Some (VStr l) /\
                inInterval 2 f /\ inInterval 2 t)
           rels'.
Proof.
  apply (@accepted_relationships_are_normalized plain 2
           (graph [edge (VStr "0 # Gateway") (VStr "1 # Caching Layer")])).
  vm_compute. reflexivity.
Defined.

(** X18. When no endpoint is a fractional number (strings always stand for
    integers), a graph the validator accepts covers every abstraction: each
    index below [count] is the [from] or the [to] of some edge. *)
Theorem accepted_relationships_cover_all `{Externals} (count : nat)
    (parsed parsed' : value) :
  relationshipsValidator count parsed = (Accepted, parsed') ->
  Forall integralEnds (asRelationships (Val.get "details" parsed')) ->
  covers count (asRelationships (Val.get "details" parsed')).
Proof. apply relationships_coverage_integral. Qed.

Lemma accepted_relationships_cover_all_witness :
  covers 2
    (asRelationships
       (Val.get "details"
          (snd (@relationshipsValidator plain 2
                  (graph [edge (VStr "0 # Gateway") (VStr "1 # Caching Layer")]))))).
Proof.
  apply (@accepted_relationships_cover_all plain 2
           (graph [edge (VStr "0 # Gateway") (VStr "1 # Caching Layer")])).
  - vm_compute. reflexivity.
  - vm_compute. repeat constructor.
Defined.

(** X19. When no entry is a fractional number, the order validator accepts
    a list exactly when its entries stand for a permutation of
    [0 .. count-1]: every index once, none out of range. *)
Theorem accepted_order_is_permutation `{Externals} (count : nat)
    (entries : list value) :
  Forall (fun entry => forall n, entry = VNum n -> integral n) entries ->
  fst (orderValidator count (VArr entries)) = Accepted <->
  exists l : list nat,
    Forall2 (fun entry k => exists idx, entryIndex entry = inr idx /\ isIndex idx k)
      entries l /\
    Permutation l (seq 0 count).
Proof.
  intros Hint. destruct (entryIndices entries) as [message|indices] eqn:Hconv.
  - split.
    + intros Hacc. exfalso. unfold orderValidator in Hacc.
      destruct (checkOrder count entries [] []) as [[seen ordered]|reason|m] eqn:Hc;
        try discriminate.
      apply checkOrder_passes in Hc as (converted & Hco & _). congruence.
    + intros (l & Hl & _). apply entries_indices in Hl as (indices & Hc & _).
      congruence.
  - rewrite (order_permutation_integral count entries indices Hconv
               (entryIndices_integral entries indices Hint Hconv)).
    split; intros (l & Hl & Hp); exists l; (split; [|assumption]).
    + apply entries_indices. eauto.
    + apply entries_indices in Hl as (indices' & Hc' & Hl').
      rewrite Hconv in Hc'. by injection Hc' as <-.
Qed.

Lemma accepted_order_is_permutation_witness :
  fst (@orderValidator plain 2 (VArr [VStr "1 # Caching Layer"; int 0])) = Accepted <->
  exists l : list nat,
    Forall2 (fun entry k =>
               exists idx, @entryIndex plain entry = inr idx /\ isIndex idx k)
      [VStr "1 # Caching Layer"; int 0] l /\
    Permutation l (seq 0 2).
Proof.
  apply (@accepted_order_is_permutation plain 2).
  repeat (apply List.Forall_cons; [intros n [= <-] || intros n [=] |]);
    try apply List.Forall_nil.
  vm_compute. reflexivity.
Defined.

(** ** The driver: chapter infos and the chapter-writing pass *)

Section ChapterInfos.
Variable abstractions : list Abstraction.

Lemma chapterFileInfos_positions (chapterOrder done : list number)
    (acc infos : list ChapterInfo) :
  chapterFileInfos abstractions chapterOrder (length done) acc = inr infos ->
  let ok := fun info =>
    1 <= num info /\
    (done ++ chapterOrder) !! (num info - 1) = Some (index info) /\
    exists a, abstractionAt abstractions (index info) = Some a /\
              chapterName info = name a in
  Forall ok acc -> Forall ok infos.
Proof.
  revert done acc. induction chapterOrder as [|absIndex rest IH]; intros done acc; simpl.
  - intros [= <-]. auto.
  - intros Hrun Hacc.
    assert (Hshift : done ++ absIndex :: rest = (done ++ [absIndex]) ++ rest)
      by (by rewrite <- app_assoc).
    assert (Hlen : S (length done) = length (done ++ [absIndex]))
      by (rewrite length_app; simpl; lia).
    rewrite Hshift. rewrite Hlen in Hrun.
    destruct (Num.ge absIndex (Num.ofNat 0) && Num.lt absIndex _).
    + destruct (Num.arrayIndex absIndex ≫= _) as [a|] eqn:Ha; [|discriminate].
      apply (IH _ _ Hrun). rewrite <- Hshift.
      apply Forall_app. split; [assumption|]. constructor; [|constructor].
      simpl. split; [lia|]. split.
      * replace (length done + 1 - 1) with (length done + 0) by lia.
        by rewrite lookup_app_r, Nat.add_comm, Nat.add_sub by lia.
      * exists a. split; [exact Ha | reflexivity].
    + apply (IH _ _ Hrun). by rewrite <- Hshift.
Qed.

End ChapterInfos.

(** X20. A chapter's number is the position (from 1) of its entry in the
    chapter order, its index is that entry, and its title is the name of
    the abstraction the entry points at; an entry outside [[0, count)] gets
    no chapter, and its number is not reused. *)
Theorem chapter_numbers_are_positions (abstractions : list Abstraction)
    (chapterOrder : list number) (infos : list ChapterInfo) :
  chapterFileInfos abstractions chapterOrder 0 [] = inr infos ->
  Forall (fun info =>
            1 <= num info /\
            chapterOrder !! (num info - 1) = Some (index info) /\
            exists a, abstractionAt abstractions (index info) = Some a /\
                      chapterName info = name a) infos.
Proof.
  intros Hrun.
  apply (chapterFileInfos_positions abstractions chapterOrder [] [] infos Hrun).
  constructor.
Qed.

Lemma chapter_numbers_are_positions_witness :
  Forall (fun info =>
            1 <= num info /\
            [Num.ofNat 1; Num.ofNat 7; Num.ofNat 0] !! (num info - 1) = Some (index info) /\
            exists a, abstractionAt [gateway; cachingLayer] (index info) = Some a /\
                      chapterName info = name a)
    [ {| index := Num.ofNat 1; num := 1; chapterName := "Caching Layer";
         filename := "01_Caching_Layer.md" |};
      {| index := Num.ofNat 0; num := 3; chapterName := "Gateway";
         filename := "03_Gateway.md" |} ].
Proof.
  apply (chapter_numbers_are_positions [gateway; cachingLayer]
           [Num.ofNat 1; Num.ofNat 7; Num.ofNat 0]).
  vm_compute. reflexivity.
Defined.

Lemma withAttribution_document (chapter : string) :
  withAttribution chapter = chapterDocument chapter.
Proof.
  unfold withAttribution, chapterDocument, attribution.
  destruct (Js.endsWith _ chapter); [reflexivity|]. by rewrite <- sapp_assoc.
Qed.

Section ChapterPass.
Context `{Externals}.
Variable projectName : string.
Variable language : string.
Variable fetchedFiles : list FileData.
Variable abstractions : list Abstraction.
Variable allInfos : list ChapterInfo.

Local Abbreviation writeChapters' :=
  (writeChapters projectName language fetchedFiles abstractions allInfos).
Local Abbreviation writeChapter' :=
  (writeChapter projectName language fetchedFiles abstractions allInfos).
Local Abbreviation chapterPrompt :=
  (fun info a previous =>
     writeChapterPrompt projectName fetchedFiles info a allInfos previous language).

Lemma retryFrom_cache_off (promptGenerator : unit -> string + string)
    (parser : string -> string + value) (validator : Validator)
    (n i : nat) (lastError : string) (st : LlmState) :
  cache (snd (retryFrom promptGenerator parser validator false n i lastError st))
  = cache st.
Proof.
  revert i lastError st. induction n as [|n IH]; intros i lastError st; [reflexivity|].
  simpl. unfold attempt.
  destruct (promptGenerator tt) as [message|prompt]; [apply IH|].
  assert (Hc : cache (snd (callLlm prompt false st)) = cache st).
  { destruct (callLlm_step prompt false st)
      as [(Hc & _) | (_ & _ & _ & [Hc | (t & Hu & _)])]; auto; discriminate. }
  destruct (callLlm prompt false st) as [r st1]. simpl in Hc.
  destruct (afterGateway _ _ i _); [exact Hc|]. by rewrite IH.
Qed.

(** One chapter: between one and three gateway calls, each of them a
    provider request for the chapter's prompt when the client exists; the
    cache is left alone. *)
Lemma writeChapter_spends (previous : string) (info : ChapterInfo) (a : Abstraction)
    (st : LlmState) :
  let r := writeChapter' previous info a st in
  cache (snd r) = cache st /\
  exists k m,
    1 <= k <= 3 /\ m <= k /\
    gatewayCalls (snd r) = gatewayCalls st + k /\
    providerRequests (snd r)
      = providerRequests st ++ repeat (chapterPrompt info a previous) m /\
    (clientInitialized = true -> m = k).
Proof.
  unfold writeChapter, callLlmWithRetry. split; [apply retryFrom_cache_off|].
  match goal with
  | |- context [retryFrom ?pg ?pa ?va false 3 0 ?e st] =>
      destruct (retryFrom_spends pg pa va false (chapterPrompt info a previous)
                  eq_refl 3 0 e st)
        as (k & m & Hk & Hm & Hc & Hr & Hf & Hu);
      pose proof (retryFrom_succeeds pg pa va false (chapterPrompt info a previous)
                    eq_refl 3 0 e st) as Hs
  end.
  exists k, m.
  assert (Hone : 1 <= k).
  { destruct (retryFrom _ _ _ false 3 0 _ st) as [[data|e] st1] eqn:Hrun; simpl in *.
    - destruct (Hs st1 data eq_refl) as (k' & ? & ? & ? & ? & ? & Hk' & Hc' & _). lia.
    - specialize (Hf e eq_refl). lia. }
  repeat split; auto.
Qed.

Lemma writeChapters_budget (todo : list ChapterInfo) (previous : string)
    (contents : list string) (st : LlmState) :
  let r := writeChapters' todo previous contents st in
  cache (snd r) = cache st /\
  gatewayCalls st <= gatewayCalls (snd r) <= gatewayCalls st + 3 * length todo /\
  (clientInitialized = true ->
   length (providerRequests (snd r)) - length (providerRequests st)
   = gatewayCalls (snd r) - gatewayCalls st) /\
  length (providerRequests st) <= length (providerRequests (snd r)) /\
  (forall done, fst r = inr done -> gatewayCalls st + length todo <= gatewayCalls (snd r)).
Proof.
  revert previous contents st.
  induction todo as [|info rest IH]; intros previous contents st.
  - simpl. repeat split; auto; try lia.
  - cbn [writeChapters].
    destruct (Num.arrayIndex (index info) ≫= _) as [a|].
    2:{ simpl. repeat split; auto; try lia. discriminate. }
    destruct (writeChapter_spends previous info a st)
      as (Hcache & k & m & Hk & Hm & Hc & Hr & Hu).
    destruct (writeChapter _ _ _ _ _ _ _ _ _) as [r st1]. simpl in Hcache, Hc, Hr.
    assert (Hlen : length (providerRequests st1) = length (providerRequests st) + m)
      by (by rewrite Hr, length_app, repeat_length).
    assert (Hstop : forall response : Response,
              let r0 := (@inl Response (list string * string) response, st1) in
              cache (snd r0) = cache st /\
              gatewayCalls st <= gatewayCalls (snd r0)
                <= gatewayCalls st + 3 * length (info :: rest) /\
              (clientInitialized = true ->
               length (providerRequests (snd r0)) - length (providerRequests st)
               = gatewayCalls (snd r0) - gatewayCalls st) /\
              length (providerRequests st) <= length (providerRequests (snd r0)) /\
              (forall done, fst r0 = inr done ->
                            gatewayCalls st + length (info :: rest)
                            <= gatewayCalls (snd r0))).
    { intros response. simpl. repeat split; auto; try lia.
      - intros Hi. specialize (Hu Hi). lia.
      - discriminate. }
    destruct (stageData r) as [e|[| | |chapter| |]]; try apply Hstop.
    specialize (IH (previous +:+ "

---

" +:+ withAttribution chapter) (contents ++ [withAttribution chapter]) st1).
    cbv zeta in IH. destruct IH as (IHc & IHg & IHp & IHl & IHd).
    simpl length. repeat split; try lia.
    + congruence.
    + intros Hi. specialize (Hu Hi). specialize (IHp Hi). lia.
    + intros done Hdone. specialize (IHd done Hdone). lia.
Qed.

Lemma stageData_chapter (r : RetryResult) (chapter : string) :
  stageData r = inr (VStr chapter) -> r = Success (VStr chapter).
Proof.
  destruct r as [d|e]; simpl; [|discriminate].
  destruct (Val.truthy d); [by intros [= ->] | discriminate].
Qed.

Lemma writeChapters_context (todo : list ChapterInfo) (previous : string)
    (contents contents' : list string) (previous' : string) (st st' : LlmState) :
  writeChapters' todo previous contents st = (inr (contents', previous'), st') ->
  exists chapters states reqs,
    length chapters = length todo /\
    length states = length todo /\
    contents' = contents ++ map chapterDocument chapters /\
    previous' = previous +:+ chaptersSummary (map chapterDocument chapters) /\
    last (st :: states) = Some st' /\
    (forall k info,
       todo !! k = Some info ->
       exists chapter a stBefore stAfter,
         chapters !! k = Some chapter /\
         (st :: states) !! k = Some stBefore /\ states !! k = Some stAfter /\
         abstractionAt abstractions (index info) = Some a /\
         writeChapter' (previous +:+ chaptersSummary (map chapterDocument (take k chapters)))
           info a stBefore
         = (Success (VStr chapter), stAfter)) /\
    providerRequests st' = providerRequests st ++ reqs /\
    Forall (fun p =>
              exists k info a,
                todo !! k = Some info /\
                abstractionAt abstractions (index info) = Some a /\
                p = chapterPrompt info a
                      (previous +:+ chaptersSummary (map chapterDocument (take k chapters))))
           reqs.
Proof.
  revert previous contents st.
  induction todo as [|info rest IH]; intros previous contents st.
  - simpl. intros [= <- <- <-]. exists [], [], []. rewrite !app_nil_r, sapp_nil_r.
    repeat split; try constructor. intros k info Hk. by rewrite lookup_nil in Hk.
  - cbn [writeChapters].
    destruct (Num.arrayIndex (index info) ≫= _) as [a|] eqn:Ha; [|discriminate].
    destruct (writeChapter_spends previous info a st)
      as (_ & k & m & _ & _ & _ & Hr & _).
    destruct (writeChapter _ _ _ _ _ _ _ _ _) as [r st1] eqn:Hwritten. simpl in Hr.
    destruct (stageData r) as [e|[| | |chapter| |]] eqn:Hdata; try discriminate.
    apply stageData_chapter in Hdata. subst r.
    rewrite withAttribution_document.
    intros Hrest.
    destruct (IH _ _ _ Hrest)
      as (chapters & states & reqs & Hlen & Hstates & -> & -> & Hlast & Hsteps & Hreq & Hp).
    exists (chapter :: chapters), (st1 :: states),
      (repeat (chapterPrompt info a previous) m ++ reqs).
    split; [simpl; lia|]. split; [simpl; lia|].
    split; [by rewrite <- app_assoc|].
    split; [cbn [map chaptersSummary]; by rewrite !sapp_assoc|].
    split; [exact Hlast|]. split; [|split].
    + intros [|j] info' Hj.
      * injection Hj as <-. exists chapter, a, st, st1.
        cbn [take map chaptersSummary]. rewrite sapp_nil_r. auto.
      * destruct (Hsteps j info' Hj)
          as (chapter' & a' & stBefore & stAfter & Hc & Hb & Haf & Ha' & Hw).
        exists chapter', a', stBefore, stAfter.
        split; [exact Hc|]. split; [exact Hb|]. split; [exact Haf|].
        split; [exact Ha'|].
        cbn [take map chaptersSummary]. rewrite <- Hw. by rewrite !sapp_assoc.
    + by rewrite Hreq, Hr, <- app_assoc.
    + apply Forall_app. split.
      * apply List.Forall_forall. intros p Hin. apply repeat_spec in Hin as ->.
        exists 0, info, a. simpl. rewrite sapp_nil_r. auto.
      * eapply Forall_impl; [exact Hp|]. intros p (j & info' & a' & Hj & Ha' & ->).
        exists (S j), info', a'. split; [exact Hj|]. split; [exact Ha'|].
        cbn [take map chaptersSummary]. by rewrite !sapp_assoc.
Qed.

End ChapterPass.

(** X21. The chapter-writing pass never touches the prompt cache.  It makes
    at most three gateway calls per chapter, at least one per chapter when
    every chapter is written, and with a client every one of these calls is a
    request to the provider. *)
Theorem chapter_pass_budget `{Externals} (projectName language : string)
    (fetchedFiles : list FileData) (abstractions : list Abstraction)
    (allInfos todo : list ChapterInfo) (previous : string) (contents : list string)
    (st : LlmState) :
  let r := writeChapters projectName language fetchedFiles abstractions allInfos
             todo previous contents st in
  cache (snd r) = cache st /\
  gatewayCalls st <= gatewayCalls (snd r) <= gatewayCalls st + 3 * length todo /\
  (clientInitialized = true ->
   length (providerRequests (snd r)) - length (providerRequests st)
   = gatewayCalls (snd r) - gatewayCalls st) /\
  length (providerRequests st) <= length (providerRequests (snd r)) /\
  (forall done, fst r = inr done -> gatewayCalls st + length todo <= gatewayCalls (snd r)).
Proof. apply writeChapters_budget. Qed.

Lemma chapter_pass_budget_witness :
  length (providerRequests (snd chapterRun)) - length (providerRequests initialState)
  = gatewayCalls (snd chapterRun) - gatewayCalls initialState /\
  gatewayCalls initialState + length twoChapters <= gatewayCalls (snd chapterRun).
Proof.
  destruct (@chapter_pass_budget chapterWriter "demo" "english" twoFiles
              [gateway; cachingLayer] twoChapters twoChapters "" [] initialState)
    as (_ & _ & Hrequests & _ & Hdone).
  split; [apply Hrequests; reflexivity|].
  eapply Hdone. vm_compute. reflexivity.
Defined.

(** X22. When the pass writes every chapter, it adds one document per
    chapter, in order; each document is the text that the retry loop of that
    chapter returned, followed by an empty line (when the text does not end
    in one) and the attribution footer; the loops run one after the other,
    each from the state the one before left; the summary handed on is the
    summary it started from followed by every new document behind a [---]
    separator; and every prompt sent to the provider is the prompt of one of
    the chapters, built with the summary of exactly the documents written
    before that chapter. *)
Theorem chapter_pass_context `{Externals} (projectName language : string)
    (fetchedFiles : list FileData) (abstractions : list Abstraction)
    (allInfos todo : list ChapterInfo) (previous : string)
    (contents contents' : list string) (previous' : string) (st st' : LlmState) :
  writeChapters projectName language fetchedFiles abstractions allInfos
    todo previous contents st = (inr (contents', previous'), st') ->
  exists chapters states reqs,
    length chapters = length todo /\
    length states = length todo /\
    contents' = contents ++ map chapterDocument chapters /\
    previous' = previous +:+ chaptersSummary (map chapterDocument chapters) /\
    last (st :: states) = Some st' /\
    (forall k info,
       todo !! k = Some info ->
       exists chapter a stBefore stAfter,
         chapters !! k = Some chapter /\
         (st :: states) !! k = Some stBefore /\ states !! k = Some stAfter /\
         abstractionAt abstractions (index info) = Some a /\
         writeChapter projectName language fetchedFiles abstractions allInfos
           (previous +:+ chaptersSummary (map chapterDocument (take k chapters)))
           info a stBefore
         = (Success (VStr chapter), stAfter)) /\
    providerRequests st' = providerRequests st ++ reqs /\
    Forall (fun p =>
              exists k info a,
                todo !! k = Some info /\
                abstractionAt abstractions (index info) = Some a /\
                p = writeChapterPrompt projectName fetchedFiles info a allInfos
                      (previous +:+ chaptersSummary (map chapterDocument (take k chapters)))
                      language)
           reqs.
Proof. apply writeChapters_context. Qed.

Lemma chapter_pass_context_witness :
  exists chapters states reqs,
    length chapters = length twoChapters /\
    length states = length twoChapters /\
    chapterRunContents = [] ++ map chapterDocument chapters /\
    chapterRunSummary = "" +:+ chaptersSummary (map chapterDocument chapters) /\
    last (initialState :: states) = Some (snd chapterRun) /\
    (forall k info,
       twoChapters !! k = Some info ->
       exists chapter a stBefore stAfter,
         chapters !! k = Some chapter /\
         (initialState :: states) !! k = Some stBefore /\ states !! k = Some stAfter /\
         abstractionAt [gateway; cachingLayer] (index info) = Some a /\
         @writeChapter chapterWriter "demo" "english" twoFiles [gateway; cachingLayer]
           twoChapters
           ("" +:+ chaptersSummary (map chapterDocument (take k chapters)))
           info a stBefore
         = (Success (VStr chapter), stAfter)) /\
    providerRequests (snd chapterRun) = providerRequests initialState ++ reqs /\
    Forall (fun p =>
              exists k info a,
                twoChapters !! k = Some info /\
                abstractionAt [gateway; cachingLayer] (index info) = Some a /\
                p = @writeChapterPrompt chapterWriter "demo" twoFiles info a twoChapters
                      ("" +:+ chaptersSummary (map chapterDocument (take k chapters)))
                      "english")
           reqs.
Proof.
  apply (@chapter_pass_context chapterWriter "demo" "english" twoFiles
           [gateway; cachingLayer] twoChapters twoChapters ""
           [] chapterRunContents chapterRunSummary initialState (snd chapterRun)).
  vm_compute. reflexivity.
Defined.

(** The documents of the pass over the two chapters: the first chapter ends
    in no empty line, the second has no heading (the repair of the validator
    is lost). *)
Example chapter_pass_documents :
  chapterRunContents
  = [chapterDocument "# Chapter 1: Gateway

The gateway asks the model.";
     chapterDocument "The cache keeps every answer."] /\
  chapterDocument "The cache keeps every answer."
  = "The cache keeps every answer.

---

Generated by [AI Codebase Knowledge Builder](https://github.com/The-Pocket/Tutorial-Codebase-Knowledge)".
Proof. split; vm_compute; reflexivity. Qed.

(** ** [fetchWithRetry] *)

Section FetchFacts.
Variable fetch : nat -> string -> Github.Outcome.

Lemma passes_branches (response : Github.Reply) :
  Github.passes response = true <->
  Github.rateLimited response = false /\
  negb (Github.ok response) && negb (Github.status response =? 404)%nat = false.
Proof.
  unfold Github.passes.
  destruct (Github.rateLimited response), (Github.ok response),
    (Github.status response =? 404)%nat; simpl; intuition congruence.
Qed.

Lemma fetchWithRetry_step (url : string) (retries sent : nat) :
  Github.fetchWithRetry fetch url retries sent
  = if Github.outcomePasses (fetch sent url) then
      match fetch sent url with
      | Github.Resolves response => (inr response, S sent)
      | Github.Rejects message => (inl message, S sent)
      end
    else
      match retries with
      | S retries' => Github.fetchWithRetry fetch url retries' (S sent)
      | O =>
          (inl match fetch sent url with
               | Github.Rejects message => message
               | Github.Resolves response =>
                   if Github.rateLimited response
                   then "GitHub Rate Limit exceeded after multiple retries."
                   else Github.apiError url response
               end, S sent)
      end.
Proof.
  destruct retries as [|retries']; cbn [Github.fetchWithRetry];
    destruct (fetch sent url) as [message|response]; cbn [Github.outcomePasses];
    try reflexivity;
    unfold Github.passes;
    destruct (Github.rateLimited response), (Github.ok response),
      (Github.status response =? 404)%nat; reflexivity.
Qed.

Lemma fetchWithRetry_bounded (url : string) (retries sent : nat) :
  let r := Github.fetchWithRetry fetch url retries sent in
  sent < snd r <= sent + retries + 1 /\
  (forall message, fst r = inl message ->
     snd r = sent + retries + 1 /\
     forall n, sent <= n < snd r -> Github.outcomePasses (fetch n url) = false) /\
  (forall response, fst r = inr response ->
     fetch (snd r - 1) url = Github.Resolves response /\
     Github.passes response = true /\
     forall n, sent <= n < snd r - 1 -> Github.outcomePasses (fetch n url) = false).
Proof.
  revert sent. induction retries as [|retries IH]; intros sent;
    cbv zeta; rewrite fetchWithRetry_step;
    destruct (Github.outcomePasses (fetch sent url)) eqn:Hp.
  - destruct (fetch sent url) as [message|response] eqn:Hf; [discriminate|].
    simpl. split; [lia|]. split; [discriminate|]. intros ? [= <-].
    rewrite Nat.sub_0_r. split; [assumption|]. split; [assumption|]. intros n Hn. lia.
  - simpl. split; [lia|]. split; [|discriminate]. intros m _. split; [lia|].
    intros n Hn. by replace n with sent by lia.
  - destruct (fetch sent url) as [message|response] eqn:Hf; [discriminate|].
    simpl. split; [lia|]. split; [discriminate|]. intros ? [= <-].
    rewrite Nat.sub_0_r. split; [assumption|]. split; [assumption|]. intros n Hn. lia.
  - specialize (IH (S sent)). cbv zeta in IH. destruct IH as (Hb & He & Hr).
    split; [lia|]. split.
    + intros m Hm. destruct (He m Hm) as [Hs Hall]. split; [lia|].
      intros n Hn. destruct (decide (n = sent)) as [-> | Hne]; [assumption|].
      apply Hall. lia.
    + intros response Hres. destruct (Hr response Hres) as (Hlast & Hpass & Hall).
      split; [assumption|]. split; [assumption|].
      intros n Hn. destruct (decide (n = sent)) as [-> | Hne]; [assumption|].
      apply Hall. lia.
Qed.

Lemma fetchWithRetry_first_pass (url : string) (retries sent k : nat)
    (response : Github.Reply) :
  k <= retries ->
  fetch (sent + k) url = Github.Resolves response ->
  Github.passes response = true ->
  (forall n, sent <= n < sent + k -> Github.outcomePasses (fetch n url) = false) ->
  Github.fetchWithRetry fetch url retries sent = (inr response, sent + k + 1).
Proof.
  revert sent retries. induction k as [|k IH]; intros sent retries Hk Hf Hp Hbefore;
    rewrite fetchWithRetry_step.
  - rewrite Nat.add_0_r in Hf. rewrite Hf. simpl. rewrite Hp.
    by replace (sent + 0 + 1) with (S sent) by lia.
  - rewrite (Hbefore sent) by lia. destruct retries as [|retries]; [lia|].
    replace (sent + S k + 1) with (S sent + k + 1) by lia.
    apply IH; [lia | | assumption |].
    + by replace (S sent + k) with (sent + S k) by lia.
    + intros n Hn. apply Hbefore. lia.
Qed.

End FetchFacts.

(** X23. [fetchWithRetry] sends at least one and at most [retries + 1]
    requests.  When it throws, it has sent all [retries + 1] and none of the
    outcomes was acceptable.  When it returns a response, that response is
    the reply to the last request sent, it is not a rate-limit refusal and
    its status is in 200..299 or 404, and no earlier outcome was
    acceptable. *)
Theorem fetchWithRetry_requests (fetch : nat -> string -> Github.Outcome)
    (url : string) (retries sent : nat) :
  let r := Github.fetchWithRetry fetch url retries sent in
  sent < snd r <= sent + retries + 1 /\
  (forall message, fst r = inl message ->
     snd r = sent + retries + 1 /\
     forall n, sent <= n < snd r -> Github.outcomePasses (fetch n url) = false) /\
  (forall response, fst r = inr response ->
     fetch (snd r - 1) url = Github.Resolves response /\
     Github.passes response = true /\
     forall n, sent <= n < snd r - 1 -> Github.outcomePasses (fetch n url) = false).
Proof. apply fetchWithRetry_bounded. Qed.

Lemma fetchWithRetry_requests_witness :
  Github.flaky (snd (Github.fetchWithRetry Github.flaky "https://api.github.com/x" 3 0) - 1)
    "https://api.github.com/x"
  = Github.Resolves {| Github.status := 404; Github.statusText := "Not Found";
                       Github.rateLimitRemaining := Some "58" |} /\
  Github.passes {| Github.status := 404; Github.statusText := "Not Found";
                   Github.rateLimitRemaining := Some "58" |} = true.
Proof.
  destruct (fetchWithRetry_requests Github.flaky "https://api.github.com/x" 3 0)
    as (_ & _ & Hreturned).
  destruct (Hreturned _ eq_refl) as (Hlast & Hpass & _). auto.
Defined.

(** X24. The first acceptable reply wins: if the reply to the [k+1]-th
    request ([k <= retries]) is the first that is no rate-limit refusal and
    has a status in 200..299 or 404, [fetchWithRetry] returns it after
    exactly [k + 1] requests; a 404 is handed back, not retried. *)
Theorem fetchWithRetry_first_acceptable (fetch : nat -> string -> Github.Outcome)
    (url : string) (retries sent k : nat) (response : Github.Reply) :
  k <= retries ->
  fetch (sent + k) url = Github.Resolves response ->
  Github.passes response = true ->
  (forall n, sent <= n < sent + k -> Github.outcomePasses (fetch n url) = false) ->
  Github.fetchWithRetry fetch url retries sent = (inr response, sent + k + 1).
Proof. apply fetchWithRetry_first_pass. Qed.

Lemma fetchWithRetry_first_acceptable_witness :
  Github.fetchWithRetry Github.flaky "https://api.github.com/x" 3 0
  = (inr {| Github.status := 404; Github.statusText := "Not Found";
            Github.rateLimitRemaining := Some "58" |}, 0 + 2 + 1).
Proof.
  apply fetchWithRetry_first_acceptable; [lia | reflexivity | reflexivity |].
  intros n Hn. destruct n as [|[|n]]; [reflexivity | reflexivity | lia].
Defined.

(** ** The pattern fields of the form *)

Module FormFacts.
Import Form.

Lemma split_cons (c d : ascii) (r : string) :
  split c (String d r)
  = if Ascii.eqb d c then "" :: split c r
    else match split c r with
         | piece :: rest => String d piece :: rest
         | [] => [String d ""]
         end.
Proof. reflexivity. Qed.

Lemma split_not_nil (c : ascii) (s : string) : split c s <> [].
Proof.
  induction s as [|d r IH]; [discriminate|]. rewrite split_cons.
  destruct (Ascii.eqb d c); [discriminate|]. by destruct (split c r).
Qed.

Lemma includesChar_cons (c d : ascii) (s : string) :
  Js.includesChar c (String d s) = Ascii.eqb c d || Js.includesChar c s.
Proof. cbn [Js.includesChar]. by destruct (Ascii.eqb c d). Qed.

Lemma split_pieces (c : ascii) (s : string) :
  Forall (fun piece => Js.includesChar c piece = false) (split c s).
Proof.
  induction s as [|d r IH]; [by repeat constructor|]. rewrite split_cons.
  destruct (Ascii.eqb d c) eqn:E; [by constructor|].
  destruct (split c r) as [|piece rest].
  - constructor; [|constructor]. rewrite includesChar_cons, Ascii.eqb_sym, E. reflexivity.
  - inversion IH; subst. constructor; [|assumption].
    rewrite includesChar_cons, Ascii.eqb_sym, E. assumption.
Qed.

Lemma includesChar_trimStart (c : ascii) (s : string) :
  Js.includesChar c s = false -> Js.includesChar c (Js.trimStart s) = false.
Proof.
  induction s as [|d r IH]; [done|]. cbn [Js.trimStart].
  destruct (Js.isWhiteSpace d); [|done]. rewrite includesChar_cons.
  intros [_ Hr]%orb_false_elim. by apply IH.
Qed.

Lemma includesChar_trimEnd (c : ascii) (s : string) :
  Js.includesChar c s = false -> Js.includesChar c (Js.trimEnd s) = false.
Proof.
  induction s as [|d r IH]; [done|]. cbn [Js.trimEnd]. rewrite includesChar_cons.
  intros [Hd Hr]%orb_false_elim.
  destruct (Js.isWhiteSpace d && Js.isEmpty (Js.trimEnd r)); [reflexivity|].
  by rewrite includesChar_cons, Hd, IH.
Qed.

Lemma trim_idem (s : string) : Js.trim (Js.trim s) = Js.trim s.
Proof.
  unfold Js.trim. pose proof (trimStart_head s) as Hhead.
  destruct (Js.trimStart s) as [|c u]; [reflexivity|].
  assert (Hend : forall r, Js.trimEnd (String c r) = String c (Js.trimEnd r)).
  { intros r. cbn [Js.trimEnd]. by rewrite Hhead. }
  rewrite Hend. cbn [Js.trimStart]. rewrite Hhead, Hend, trimEnd_idem. reflexivity.
Qed.

Lemma isEmpty_trimEnd (s : string) : Js.isEmpty (Js.trimEnd s) = allWhiteSpace s.
Proof.
  induction s as [|c r IH]; [reflexivity|]. cbn [Js.trimEnd allWhiteSpace].
  rewrite <- IH. by destruct (Js.isWhiteSpace c && Js.isEmpty (Js.trimEnd r)).
Qed.

Lemma allWhiteSpace_trimStart (s : string) :
  allWhiteSpace (Js.trimStart s) = allWhiteSpace s.
Proof.
  induction s as [|c r IH]; [reflexivity|]. cbn [Js.trimStart allWhiteSpace].
  destruct (Js.isWhiteSpace c) eqn:E; [exact IH|]. cbn [allWhiteSpace]. by rewrite E.
Qed.

Lemma isEmpty_trim (s : string) : Js.isEmpty (Js.trim s) = allWhiteSpace s.
Proof. unfold Js.trim. by rewrite isEmpty_trimEnd, allWhiteSpace_trimStart. Qed.

Lemma onlySeparators_split (s : string) :
  onlySeparators s = forallb allWhiteSpace (split "," s).
Proof.
  induction s as [|d r IH]; [reflexivity|]. rewrite split_cons.
  cbn [onlySeparators]. rewrite IH.
  destruct (Ascii.eqb d ",") eqn:E.
  - by rewrite orb_true_r.
  - rewrite orb_false_r. pose proof (split_not_nil "," r) as Hne.
    destruct (split "," r) as [|piece rest]; [done|].
    cbn [forallb allWhiteSpace]. by rewrite andb_assoc.
Qed.

Lemma allWhiteSpace_onlySeparators (s : string) :
  allWhiteSpace s = true -> onlySeparators s = true.
Proof.
  induction s as [|d r IH]; [done|]. cbn [allWhiteSpace onlySeparators].
  intros [-> Hr]%andb_prop. by rewrite IH.
Qed.

Lemma kept_nil (pieces : list string) :
  List.filter (fun s => negb (Js.isEmpty s)) (map Js.trim pieces) = []
  <-> forallb allWhiteSpace pieces = true.
Proof.
  induction pieces as [|p rest IH]; [done|]. cbn [map List.filter forallb].
  rewrite isEmpty_trim. destruct (allWhiteSpace p); simpl; [exact IH|].
  split; discriminate.
Qed.

Lemma kept_patterns (pieces : list string) :
  Forall (fun piece => Js.includesChar "," piece = false) pieces ->
  Forall isPattern (List.filter (fun s => negb (Js.isEmpty s)) (map Js.trim pieces)).
Proof.
  induction 1 as [|p rest Hp Hrest IH]; [constructor|]. cbn [map List.filter].
  destruct (Js.isEmpty (Js.trim p)) eqn:E; [exact IH|]. cbn [negb].
  constructor; [|exact IH]. split; [exact E|]. split; [apply trim_idem|].
  by apply includesChar_trimEnd, includesChar_trimStart.
Qed.

Lemma split_join (l : list string) (raw : string) :
  Forall (fun p => Js.includesChar "," p = false) (raw :: l) ->
  split "," (Js.join "," (raw :: l)) = raw :: l.
Proof.
  revert raw. induction l as [|next l IH]; intros raw Hall.
  - inversion Hall as [|? ? Hraw _]; subst. cbn [Js.join]. clear Hall.
    induction raw as [|d r IHr]; [reflexivity|].
    rewrite includesChar_cons in Hraw. apply orb_false_elim in Hraw as [Hd Hr].
    rewrite split_cons, Ascii.eqb_sym, Hd, (IHr Hr). reflexivity.
  - inversion Hall as [|? ? Hraw Hrest]; subst. specialize (IH next Hrest).
    change (Js.join "," (raw :: next :: l))
      with (raw +:+ "," +:+ Js.join "," (next :: l)).
    clear Hall. induction raw as [|d r IHr].
    + change ("" +:+ "," +:+ Js.join "," (next :: l))
        with (String "," (Js.join "," (next :: l))).
      rewrite split_cons. change (Ascii.eqb "," ",") with true. cbv iota.
      by rewrite IH.
    + rewrite includesChar_cons in Hraw. apply orb_false_elim in Hraw as [Hd Hr].
      change (String d r +:+ "," +:+ Js.join "," (next :: l))
        with (String d (r +:+ "," +:+ Js.join "," (next :: l))).
      rewrite split_cons, Ascii.eqb_sym, Hd, (IHr Hr). reflexivity.
Qed.

End FormFacts.

Lemma includesChar_app (c : ascii) (a b : string) :
  Js.includesChar c (a +:+ b) = Js.includesChar c a || Js.includesChar c b.
Proof.
  induction a as [|d a IH]; [reflexivity|].
  change (String d a +:+ b) with (String d (a +:+ b)).
  rewrite !FormFacts.includesChar_cons, IH. by rewrite orb_assoc.
Qed.

Lemma allWhiteSpace_app (a b : string) :
  allWhiteSpace (a +:+ b) = allWhiteSpace a && allWhiteSpace b.
Proof.
  induction a as [|d a IH]; [reflexivity|].
  change (String d a +:+ b) with (String d (a +:+ b)).
  cbn [allWhiteSpace]. by rewrite IH, andb_assoc.
Qed.

Lemma whiteSpace_no_comma (ws : string) :
  allWhiteSpace ws = true -> Js.includesChar "," ws = false.
Proof.
  induction ws as [|d ws IH]; [done|]. cbn [allWhiteSpace].
  intros [Hd Hws]%andb_prop. rewrite FormFacts.includesChar_cons, (IH Hws), orb_false_r.
  destruct (Ascii.eqb "," d) eqn:E; [|reflexivity].
  apply Ascii.eqb_eq in E. subst d. discriminate.
Qed.

Lemma padded_facts (raw p : string) :
  Form.isPattern p -> Form.padded raw p ->
  Js.includesChar "," raw = false /\ allWhiteSpace raw = false /\ Js.trim raw = p.
Proof.
  intros (Hne & Htrim & Hcomma) (ws & ws' & -> & Hws & Hws').
  destruct (trim_fixed _ Htrim) as [Hstart Hend].
  split; [|split].
  - by rewrite !includesChar_app, Hcomma, !whiteSpace_no_comma.
  - rewrite !allWhiteSpace_app, <- (FormFacts.isEmpty_trim p), Htrim, Hne.
    by rewrite andb_false_r.
  - unfold Js.trim. rewrite trimStart_skip by assumption.
    rewrite trimStart_keeps by assumption. by apply trimEnd_drops.
Qed.

(** X25. Whatever is typed in a pattern field, what is stored is a list of
    patterns that are not empty, carry no white space at either end and hold
    no comma. *)
Theorem patternsField_clean (value : Form.EntryValue) :
  Forall Form.isPattern (Form.patternsField value).
Proof.
  destruct value as [value|]; [|constructor]. unfold Form.patternsField.
  destruct (negb (Js.isEmpty (Js.trim value))); [|constructor].
  apply FormFacts.kept_patterns, FormFacts.split_pieces.
Qed.

(** X26. Round trip of a pattern field: patterns typed with commas between
    them and any white space around each are read back as the same list, in
    the same order. *)
Theorem patternsField_round_trip (raws patterns : list string) :
  Forall Form.isPattern patterns ->
  Forall2 Form.padded raws patterns ->
  Form.patternsField (Form.Text (Js.join "," raws)) = patterns.
Proof.
  intros Hpatterns Hpadded.
  assert (Hfacts : Forall2 (fun raw p =>
            Js.includesChar "," raw = false /\ allWhiteSpace raw = false /\
            Js.trim raw = p /\ Js.isEmpty p = false) raws patterns).
  { clear -Hpatterns Hpadded.
    induction Hpadded as [|raw p raws patterns Hp Hrest IH]; [constructor|].
    inversion Hpatterns as [|? ? Hpat Hpats]; subst.
    constructor; [|by apply IH].
    destruct (padded_facts raw p Hpat Hp) as (H1 & H2 & H3).
    destruct Hpat as (Hne & _). auto. }
  clear Hpatterns Hpadded. unfold Form.patternsField.
  destruct Hfacts as [|raw p raws patterns (Hcomma & Hws & Htrim & Hne) Hrest];
    [reflexivity|].
  assert (Hguard : Js.isEmpty (Js.trim (Js.join "," (raw :: raws))) = false).
  { rewrite FormFacts.isEmpty_trim. destruct raws as [|next raws]; [exact Hws|].
    change (Js.join "," (raw :: next :: raws))
      with (raw +:+ "," +:+ Js.join "," (next :: raws)).
    by rewrite allWhiteSpace_app, Hws. }
  rewrite Hguard. cbn [negb]. rewrite FormFacts.split_join.
  - cbn [map List.filter]. rewrite Htrim, Hne. cbn [negb]. f_equal.
    clear -Hrest. induction Hrest as [|r q rs qs (_ & _ & Ht & Hn) _ IH]; [reflexivity|].
    cbn [map List.filter]. rewrite Ht, Hn. cbn [negb]. by rewrite IH.
  - constructor; [assumption|]. clear -Hrest.
    induction Hrest as [|r q rs qs (Hc & _) _ IH]; constructor; assumption.
Qed.

Lemma patternsField_round_trip_witness :
  Form.patternsField (Form.Text (Js.join "," ["*.py"; " src/**/*.ts "; "	Makefile"]))
  = ["*.py"; "src/**/*.ts"; "Makefile"].
Proof.
  apply patternsField_round_trip.
  - repeat (apply List.Forall_cons; [repeat split; reflexivity |]). apply List.Forall_nil.
  - constructor; [exists "", ""; repeat split; reflexivity |].
    constructor; [exists " ", " "; repeat split; reflexivity |].
    constructor; [exists "	", ""; repeat split; reflexivity |].
    constructor.
Defined.

(** X27. A pattern field yields no pattern exactly when it holds nothing
    but white space and commas; the defaults are used in that case, and the
    patterns read from the field in every other. *)
Theorem patternsField_empty (value : string) (defaults : list string) :
  (Form.patternsField (Form.Text value) = [] <-> Form.onlySeparators value = true) /\
  Form.effectivePatterns (Some (Form.patternsField (Form.Text value))) defaults
  = if Form.onlySeparators value then defaults
    else Form.patternsField (Form.Text value).
Proof.
  assert (Hiff : Form.patternsField (Form.Text value) = []
                 <-> Form.onlySeparators value = true).
  { unfold Form.patternsField. rewrite FormFacts.isEmpty_trim.
    destruct (allWhiteSpace value) eqn:Hws; cbn [negb].
    - split; [|done]. intros _. by apply FormFacts.allWhiteSpace_onlySeparators.
    - by rewrite FormFacts.kept_nil, FormFacts.onlySeparators_split. }
  split; [exact Hiff|]. unfold Form.effectivePatterns.
  destruct (Form.onlySeparators value) eqn:Hsep.
  - by rewrite (proj2 Hiff eq_refl).
  - destruct (Form.patternsField (Form.Text value)) as [|p rest] eqn:Hp; [|reflexivity].
    destruct Hiff as [Hiff _]. specialize (Hiff eq_refl). discriminate.
Qed.

(** ** The common root directory of an uploaded archive *)

Module LocalCrawlFacts.
Import LocalCrawl.

Lemma startsWith_refl (s : string) : Js.startsWith s s = true.
Proof. induction s as [|c s IH]; [reflexivity|]. simpl. by rewrite Ascii.eqb_refl. Qed.

Lemma startsWith_trans (a b c : string) :
  Js.startsWith a b = true -> Js.startsWith b c = true -> Js.startsWith a c = true.
Proof.
  intros [r ->]%startsWith_split [r' ->]%startsWith_split.
  rewrite sapp_assoc. apply startsWith_app.
Qed.

Lemma beforeLast_cons (c d : ascii) (r : string) :
  beforeLast c (String d r)
  = match beforeLast c r with
    | Some t => Some (String d t)
    | None => if Ascii.eqb d c then Some "" else None
    end.
Proof. reflexivity. Qed.

Lemma beforeLast_split (c : ascii) (s t : string) :
  beforeLast c s = Some t -> exists rest, s = t +:+ String c rest.
Proof.
  revert t. induction s as [|d r IH]; intros t; [discriminate|].
  rewrite beforeLast_cons. destruct (beforeLast c r) as [t'|].
  - intros [= <-]. destruct (IH t' eq_refl) as [rest ->]. by exists rest.
  - destruct (Ascii.eqb d c) eqn:E; [|discriminate]. intros [= <-].
    apply Ascii.eqb_eq in E as ->. by exists r.
Qed.

Lemma beforeLast_none (c : ascii) (s : string) :
  beforeLast c s = None <-> Js.includesChar c s = false.
Proof.
  induction s as [|d r IH]; [done|].
  rewrite beforeLast_cons, FormFacts.includesChar_cons, (Ascii.eqb_sym c d).
  destruct (beforeLast c r) as [t|].
  - split; [discriminate|]. intros [_ Hr]%orb_false_elim.
    destruct IH as [_ IH]. specialize (IH Hr). discriminate.
  - destruct IH as [IH _]. rewrite (IH eq_refl), orb_false_r.
    destruct (Ascii.eqb d c); split; done.
Qed.

Lemma throughLastSlash_prefix (s : string) :
  Js.startsWith (throughLastSlash s) s = true.
Proof.
  unfold throughLastSlash. destruct (beforeLast "/" s) as [t|] eqn:Ht; [|reflexivity].
  destruct (beforeLast_split _ _ _ Ht) as [rest ->].
  change (String "/" rest) with ("/" +:+ rest). rewrite <- sapp_assoc.
  apply startsWith_app.
Qed.

Lemma cutAtLastSlash_prefix (s : string) :
  Js.startsWith (cutAtLastSlash s) s = true.
Proof.
  unfold cutAtLastSlash. destruct (beforeLast "/" s) as [t|] eqn:Ht; [|reflexivity].
  destruct (beforeLast_split _ _ _ Ht) as [rest ->]. apply startsWith_app.
Qed.

Lemma throughLastSlash_dir (s : string) : isDirPrefix (throughLastSlash s).
Proof.
  unfold throughLastSlash, isDirPrefix.
  destruct (beforeLast "/" s) as [t|]; [right; by exists t | by left].
Qed.

Lemma parentPrefix_prefix (s : string) : Js.startsWith (parentPrefix s) s = true.
Proof.
  unfold parentPrefix. destruct (Js.includesChar "/" (cutAtLastSlash s)); [|reflexivity].
  eapply startsWith_trans; [apply throughLastSlash_prefix | apply cutAtLastSlash_prefix].
Qed.

Lemma parentPrefix_dir (s : string) : isDirPrefix (parentPrefix s).
Proof.
  unfold parentPrefix. destruct (Js.includesChar "/" (cutAtLastSlash s));
    [apply throughLastSlash_dir | by left].
Qed.

(** What the [while] loop leaves: a prefix of the path and of the prefix
    it started from. *)
Lemma narrow_prefix (path commonPrefix : string) :
  Js.startsWith (narrow path commonPrefix) path = true /\
  Js.startsWith (narrow path commonPrefix) commonPrefix = true /\
  (isDirPrefix commonPrefix -> isDirPrefix (narrow path commonPrefix)).
Proof.
  funelim (narrow path commonPrefix); [by repeat split|].
  destruct (Js.startsWith (String c r) _) eqn:Hs.
  - split; [exact Hs|]. split; [apply startsWith_refl | auto].
  - destruct H as (Hpath & Hparent & Hdir). split; [exact Hpath|]. split.
    + eapply startsWith_trans; [exact Hparent | apply parentPrefix_prefix].
    + intros _. apply Hdir, parentPrefix_dir.
Qed.

Lemma seeEntry_invariant (commonPrefix : option string) (seen : list ZipEntry)
    (entry : ZipEntry) :
  prefixOfAll commonPrefix seen ->
  prefixOfAll (seeEntry commonPrefix entry) (seen ++ [entry]).
Proof.
  unfold seeEntry. destruct (dir entry) eqn:Hd; cbn [negb].
  - destruct commonPrefix as [p|]; simpl.
    + intros [Hp Hall]. split; [assumption|]. apply Forall_app. split; [assumption|].
      constructor; [congruence | constructor].
    + intros Hall. apply Forall_app. split; [assumption|]. by repeat constructor.
  - destruct commonPrefix as [p|]; simpl.
    + intros [Hp Hall].
      destruct (narrow_prefix (relativePath entry) p) as (Hpath & Hprefix & Hdir).
      split; [auto|]. apply Forall_app. split.
      * eapply Forall_impl; [exact Hall|]. intros e He Hfile.
        eapply startsWith_trans; [exact Hprefix | auto].
      * by repeat constructor.
    + intros Hall.
      assert (Hnone : forall e, In e seen -> dir e = false ->
                Js.startsWith
                  (if Js.includesChar "/" (relativePath entry)
                   then throughLastSlash (relativePath entry) else "")
                  (relativePath e) = true).
      { intros e He Hfile. rewrite List.Forall_forall in Hall.
        specialize (Hall e He). congruence. }
      split.
      * destruct (Js.includesChar "/" (relativePath entry));
          [apply throughLastSlash_dir | by left].
      * apply Forall_app. split; [by apply List.Forall_forall|].
        constructor; [|constructor]. intros _.
        destruct (Js.includesChar "/" (relativePath entry));
          [apply throughLastSlash_prefix | reflexivity].
Qed.

Lemma fold_invariant (entries seen : list ZipEntry) (commonPrefix : option string) :
  prefixOfAll commonPrefix seen ->
  prefixOfAll (fold_left seeEntry entries commonPrefix) (seen ++ entries).
Proof.
  revert seen commonPrefix. induction entries as [|entry rest IH]; intros seen acc Hacc.
  - by rewrite app_nil_r.
  - cbn [fold_left]. replace (seen ++ entry :: rest) with ((seen ++ [entry]) ++ rest)
      by (by rewrite <- app_assoc).
    apply IH. by apply seeEntry_invariant.
Qed.

Lemma rootDir_prefix (entries : list ZipEntry) :
  isDirPrefix (rootDir entries) /\
  forall entry, In entry entries -> dir entry = false ->
                Js.startsWith (rootDir entries) (relativePath entry) = true.
Proof.
  pose proof (fold_invariant entries [] None (List.Forall_nil _)) as Hinv.
  unfold rootDir. simpl in Hinv.
  destruct (fold_left seeEntry entries None) as [p|]; simpl in Hinv.
  - destruct Hinv as [Hp Hall]. split; [assumption|].
    intros entry Hin. by apply (proj1 (List.Forall_forall _ _) Hall).
  - split; [by left | reflexivity].
Qed.

Lemma normalizeSeparators_fixed (s : string) :
  Js.includesChar "\" s = false -> normalizeSeparators s = s.
Proof.
  induction s as [|c r IH]; [reflexivity|]. rewrite FormFacts.includesChar_cons.
  intros [Hc Hr]%orb_false_elim. cbn [normalizeSeparators].
  by rewrite Ascii.eqb_sym, Hc, (IH Hr).
Qed.

Lemma beforeLast_slash_end (q : string) : beforeLast "/" (q +:+ "/") = Some q.
Proof.
  induction q as [|x q IH]; [reflexivity|].
  change (String x q +:+ "/") with (String x (q +:+ "/")).
  by rewrite beforeLast_cons, IH.
Qed.

Lemma dir_prefix_last (t s : string) :
  Js.startsWith (t +:+ "/") s = true ->
  exists u, beforeLast "/" s = Some u /\ Js.startsWith (t +:+ "/") (u +:+ "/") = true.
Proof.
  revert s. induction t as [|x t IH]; intros s.
  - destruct s as [|d r]; [discriminate|].
    change (Js.startsWith ("" +:+ "/") (String d r))
      with (Ascii.eqb "/" d && true).
    rewrite andb_true_r. intros Hd. apply Ascii.eqb_eq in Hd. subst d.
    rewrite beforeLast_cons.
    destruct (beforeLast "/" r) as [u|]; eexists; (split; [reflexivity|]); reflexivity.
  - destruct s as [|d r]; [discriminate|].
    change (Js.startsWith (String x t +:+ "/") (String d r))
      with (Ascii.eqb x d && Js.startsWith (t +:+ "/") r).
    intros [->%Ascii.eqb_eq Hr]%andb_prop.
    destruct (IH r Hr) as (u & Hu & Hp). exists (String d u).
    rewrite beforeLast_cons, Hu. split; [reflexivity|].
    change (Js.startsWith (String d t +:+ "/") (String d u +:+ "/"))
      with (Ascii.eqb d d && Js.startsWith (t +:+ "/") (u +:+ "/")).
    by rewrite Ascii.eqb_refl, Hp.
Qed.

Lemma dir_prefix_throughLastSlash (d s : string) :
  isDirPrefix d -> Js.startsWith d s = true ->
  Js.startsWith d (throughLastSlash s) = true.
Proof.
  intros [-> | [t ->]] Hs; [reflexivity|].
  destruct (dir_prefix_last t s Hs) as (u & Hu & Hp).
  unfold throughLastSlash. by rewrite Hu.
Qed.

Lemma proper_prefix (d q : string) :
  Js.startsWith d (q +:+ "/") = true -> d <> q +:+ "/" -> Js.startsWith d q = true.
Proof.
  revert d. induction q as [|y q IH]; intros d.
  - destruct d as [|x d]; [reflexivity|].
    change (Js.startsWith (String x d) ("" +:+ "/"))
      with (Ascii.eqb x "/" && Js.startsWith d "").
    intros [->%Ascii.eqb_eq Hd]%andb_prop. destruct d; [|discriminate]. by intros [].
  - destruct d as [|x d]; [reflexivity|].
    change (Js.startsWith (String x d) (String y q +:+ "/"))
      with (Ascii.eqb x y && Js.startsWith d (q +:+ "/")).
    intros [->%Ascii.eqb_eq Hd]%andb_prop Hne. simpl. rewrite Ascii.eqb_refl.
    apply IH; [assumption|]. intros ->. by apply Hne.
Qed.

Lemma dir_prefix_has_slash (t s : string) :
  Js.startsWith (t +:+ "/") s = true -> Js.includesChar "/" s = true.
Proof.
  intros [rest ->]%startsWith_split.
  rewrite !includesChar_app. change (Js.includesChar "/" "/") with true.
  by rewrite orb_true_r.
Qed.

Lemma dir_prefix_parent (d p : string) :
  isDirPrefix d -> isDirPrefix p -> Js.startsWith d p = true -> d <> p ->
  Js.startsWith d (parentPrefix p) = true.
Proof.
  intros Hd [-> | [q ->]] Hp Hne.
  - destruct d; [by destruct Hne | discriminate].
  - unfold parentPrefix, cutAtLastSlash. rewrite beforeLast_slash_end.
    destruct Hd as [-> | [t ->]]; [reflexivity|].
    pose proof (proper_prefix _ _ Hp Hne) as Hq.
    rewrite (dir_prefix_has_slash _ _ Hq).
    apply dir_prefix_throughLastSlash; [right; by exists t | assumption].
Qed.

Lemma narrow_greatest (d path commonPrefix : string) :
  isDirPrefix d -> Js.startsWith d path = true ->
  isDirPrefix commonPrefix -> Js.startsWith d commonPrefix = true ->
  Js.startsWith d (narrow path commonPrefix) = true.
Proof.
  intros Hd Hpath. funelim (narrow path commonPrefix); [auto|].
  intros Hdir Hp. destruct (Js.startsWith (String c r) _) eqn:Hs; [assumption|].
  eapply H; [exact Hd | exact Hpath | reflexivity | reflexivity
            | apply parentPrefix_dir |].
  apply dir_prefix_parent; try assumption. intros ->. congruence.
Qed.

Lemma fold_greatest (d : string) (entries : list ZipEntry) (commonPrefix : option string) :
  isDirPrefix d ->
  (forall entry, In entry entries -> dir entry = false ->
                 Js.startsWith d (relativePath entry) = true) ->
  match commonPrefix with
  | Some p => isDirPrefix p /\ Js.startsWith d p = true
  | None => True
  end ->
  match fold_left seeEntry entries commonPrefix with
  | Some p => isDirPrefix p /\ Js.startsWith d p = true
  | None => commonPrefix = None /\ Forall (fun entry => dir entry = true) entries
  end.
Proof.
  intros Hd. revert commonPrefix.
  induction entries as [|entry rest IH]; intros acc Hall Hacc.
  - simpl. destruct acc; [assumption | by split].
  - cbn [fold_left].
    assert (Hrest : forall e, In e rest -> dir e = false ->
                              Js.startsWith d (relativePath e) = true)
      by (intros e He; apply Hall; by right).
    specialize (Hall entry (or_introl eq_refl)).
    unfold seeEntry at 2. destruct (dir entry) eqn:Hfile; cbn [negb].
    + specialize (IH acc Hrest Hacc).
      destruct (fold_left seeEntry rest acc); [assumption|].
      destruct IH as [-> Hdirs]. split; [reflexivity | by constructor].
    + specialize (Hall eq_refl).
      assert (Hnext : match
                  match acc with
                  | Some p => Some (narrow (relativePath entry) p)
                  | None =>
                      Some (if Js.includesChar "/" (relativePath entry)
                            then throughLastSlash (relativePath entry) else "")
                  end
                with
                | Some p => isDirPrefix p /\ Js.startsWith d p = true
                | None => True
                end).
      { destruct acc as [p|].
        - destruct Hacc as [Hp Hdp].
          destruct (narrow_prefix (relativePath entry) p) as (_ & _ & Hkeep).
          split; [auto | by apply narrow_greatest].
        - destruct (Js.includesChar "/" (relativePath entry)) eqn:Hslash.
          + split; [apply throughLastSlash_dir | by apply dir_prefix_throughLastSlash].
          + split; [by left|]. destruct Hd as [-> | [t ->]]; [reflexivity|].
            rewrite (dir_prefix_has_slash _ _ Hall) in Hslash. discriminate. }
      specialize (IH _ Hrest Hnext).
      destruct (fold_left seeEntry rest _) as [p|]; [assumption|].
      destruct IH as [Hnone _]. by destruct acc.
Qed.

End LocalCrawlFacts.

(** X28. The root directory detected in an archive is empty or ends in a
    slash, and the path of every file of the archive (directories are not
    looked at) starts with it. *)
Theorem rootDir_is_common_prefix (entries : list LocalCrawl.ZipEntry)
    (entry : LocalCrawl.ZipEntry) :
  In entry entries -> LocalCrawl.dir entry = false ->
  LocalCrawl.isDirPrefix (LocalCrawl.rootDir entries) /\
  Js.startsWith (LocalCrawl.rootDir entries) (LocalCrawl.relativePath entry) = true.
Proof.
  intros Hin Hfile. destruct (LocalCrawlFacts.rootDir_prefix entries) as [Hdir Hall].
  auto.
Qed.

Lemma rootDir_is_common_prefix_witness :
  LocalCrawl.isDirPrefix (LocalCrawl.rootDir LocalCrawl.zippedFolder) /\
  Js.startsWith (LocalCrawl.rootDir LocalCrawl.zippedFolder)
    (LocalCrawl.relativePath (LocalCrawl.fileEntry "proj/src/app.ts")) = true.
Proof.
  apply rootDir_is_common_prefix; [simpl; auto | reflexivity].
Defined.

(** X29. A file whose path has no backslash is stored under its path
    relative to the root directory: the root directory followed by the
    stored path is the path in the archive. *)
Theorem pathForMatching_relative (entries : list LocalCrawl.ZipEntry)
    (entry : LocalCrawl.ZipEntry) :
  In entry entries -> LocalCrawl.dir entry = false ->
  Js.includesChar "\" (LocalCrawl.relativePath entry) = false ->
  LocalCrawl.rootDir entries
  +:+ LocalCrawl.pathForMatching (LocalCrawl.rootDir entries)
        (LocalCrawl.relativePath entry)
  = LocalCrawl.relativePath entry.
Proof.
  intros Hin Hfile Hslash.
  destruct (LocalCrawlFacts.rootDir_prefix entries) as [_ Hall].
  specialize (Hall entry Hin Hfile). unfold LocalCrawl.pathForMatching.
  rewrite LocalCrawlFacts.normalizeSeparators_fixed by assumption. rewrite Hall.
  destruct (startsWith_split _ _ Hall) as [rest Hrest]. rewrite Hrest.
  rewrite substring_skip by (rewrite length_sapp; lia). reflexivity.
Qed.

Lemma pathForMatching_relative_witness :
  LocalCrawl.rootDir LocalCrawl.zippedFolder
  +:+ LocalCrawl.pathForMatching (LocalCrawl.rootDir LocalCrawl.zippedFolder)
        (LocalCrawl.relativePath (LocalCrawl.fileEntry "proj/src/app.ts"))
  = LocalCrawl.relativePath (LocalCrawl.fileEntry "proj/src/app.ts").
Proof.
  apply pathForMatching_relative; [simpl; auto | reflexivity | reflexivity].
Defined.

(** X30. The root directory is the longest common directory: every
    directory prefix (empty, or ending in a slash) that all the files of the
    archive start with is itself a prefix of the root directory. *)
Theorem rootDir_is_greatest (entries : list LocalCrawl.ZipEntry) (d : string) :
  LocalCrawl.isDirPrefix d ->
  (exists entry, In entry entries /\ LocalCrawl.dir entry = false) ->
  (forall entry, In entry entries -> LocalCrawl.dir entry = false ->
                 Js.startsWith d (LocalCrawl.relativePath entry) = true) ->
  Js.startsWith d (LocalCrawl.rootDir entries) = true.
Proof.
  intros Hd (entry & Hin & Hfile) Hall.
  pose proof (LocalCrawlFacts.fold_greatest d entries None Hd Hall I) as Hfold.
  unfold LocalCrawl.rootDir.
  destruct (fold_left LocalCrawl.seeEntry entries None) as [p|]; [by destruct Hfold|].
  destruct Hfold as [_ Hdirs]. rewrite List.Forall_forall in Hdirs.
  specialize (Hdirs entry Hin). congruence.
Qed.

Lemma rootDir_is_greatest_witness :
  Js.startsWith "proj/" (LocalCrawl.rootDir LocalCrawl.zippedFolder) = true.
Proof.
  apply rootDir_is_greatest.
  - right. by exists "proj".
  - exists (LocalCrawl.fileEntry "proj/README.md").
    split; [simpl; auto 10 | reflexivity].
  - intros entry Hin Hfile. simpl in Hin.
    destruct Hin as [<- | [<- | [<- | [<- | [<- | []]]]]]; try reflexivity;
      discriminate.
Defined.
